(** * nbu-export: the backup container decoder and its Unicode helpers

    A shallow embedding of [utf.c] and [nbu.c].  Fixed-width C integers
    are integers of [Z] with their wrap-around written out; the platform
    is LP64 ([size_t] and [long] are 64 bits wide).  Memory allocation is
    taken to succeed, but for the buffer of the raw item export, whose
    size comes from the file and whose failure is the one failure that
    prints nothing; the stream has no device errors (a short read is the
    end of the file) and the debugging output is left out, but for the
    conversions whose failure makes a reading function fail. *)

From stdpp Require Import gmap strings list.
From Stdlib Require Import ZArith Lia Ascii DecimalString.
From Stdlib Require Import Init.Byte.
From Stdlib Require DecimalZ DecimalPos.
Local Open Scope Z_scope.

(** ** Machine integers *)

Definition SIZE_MAX : Z := 2 ^ 64 - 1.
Definition LONG_MAX : Z := 2 ^ 63 - 1.
Definition UINT16_MAX : Z := 65535.

Definition to_uint8 (z : Z) : Z := z mod 2 ^ 8.
Definition to_uint16 (z : Z) : Z := z mod 2 ^ 16.
Definition to_uint32 (z : Z) : Z := z mod 2 ^ 32.
Definition to_uint64 (z : Z) : Z := z mod 2 ^ 64.
Definition to_size_t (z : Z) : Z := z mod (SIZE_MAX + 1).

(** Conversion of an unsigned 64-bit value to [long] (two's complement). *)
Definition to_long (z : Z) : Z :=
  let u := to_uint64 z in if u <=? LONG_MAX then u else u - 2 ^ 64.

(** ** utf.c *)

Module Utf.

Definition UTF_REPLACEMENT_CHAR : Z := 0xfffd.

(** [utf8_encode buf cp]: the bytes stored through [buf] when it is not
    NULL, and the returned sequence length. *)
Definition utf8_encode (cp : Z) : list Z * Z :=
  if cp <=? 0x7f then
    ([to_uint8 cp], 1)
  else if cp <=? 0x7ff then
    ([to_uint8 (Z.lor 0xc0 (Z.land (Z.shiftr cp 6) 0x1f));
      to_uint8 (Z.lor 0x80 (Z.land cp 0x3f))], 2)
  else if cp <=? 0xffff then
    ([to_uint8 (Z.lor 0xe0 (Z.land (Z.shiftr cp 12) 0x0f));
      to_uint8 (Z.lor 0x80 (Z.land (Z.shiftr cp 6) 0x3f));
      to_uint8 (Z.lor 0x80 (Z.land cp 0x3f))], 3)
  else if cp <=? 0x10ffff then
    ([to_uint8 (Z.lor 0xf0 (Z.land (Z.shiftr cp 18) 0x07));
      to_uint8 (Z.lor 0x80 (Z.land (Z.shiftr cp 12) 0x3f));
      to_uint8 (Z.lor 0x80 (Z.land (Z.shiftr cp 6) 0x3f));
      to_uint8 (Z.lor 0x80 (Z.land cp 0x3f))], 4)
  else ([], 0).

Definition utf16_is_surrogate (u : Z) : bool := Z.land u 0xf800 =? 0xd800.
Definition utf16_is_high_surrogate (u : Z) : bool := Z.land u 0xfc00 =? 0xd800.
Definition utf16_is_low_surrogate (u : Z) : bool := Z.land u 0xfc00 =? 0xdc00.

Definition utf16_decode_surrogate_pair (hi lo : Z) : Z :=
  to_uint32
    (to_uint32 (Z.lor (to_uint32 (Z.shiftl (Z.land hi 0x3ff) 10))
                      (Z.land lo 0x3ff))
     + 0x10000).

(** [utf16_decode cp u1 u2]: the code point stored in [*cp] and the
    returned number of units. *)
Definition utf16_decode (u1 u2 : Z) : Z * Z :=
  if negb (utf16_is_surrogate u1) then (u1, 1)
  else if utf16_is_high_surrogate u1 && utf16_is_low_surrogate u2 then
    (utf16_decode_surrogate_pair u1 u2, 2)
  else (UTF_REPLACEMENT_CHAR, 0).

(** The units the conversion loop goes on with ([i += n]) after it read
    [u1 :: rest] and the decoder returned [n0], [0] counting as [1]. *)
Definition next_units (n0 : Z) (rest : list Z) : list Z :=
  match rest with
  | [] => rest
  | _ :: rest' => if (if n0 =? 0 then 1 else n0) =? 2 then rest' else rest
  end.

(** The loop of [utf16_convert_string_to_utf8].  The array [utf16] is the
    list of its units; the index [i] is the list still to read, and a read
    behind the last unit gives the terminating NUL.  [buf] tells whether
    the destination is not NULL, [out] holds the bytes stored so far at
    [buf[0 .. buflen)]. *)
Fixpoint convert_loop (buf : bool) (bufsize : Z) (utf16 : list Z)
    (out : list Z) (buflen : Z) {struct utf16} : list Z * Z :=
  match utf16 with
  | [] => (out, buflen)
  | u1 :: rest =>
    if u1 =? 0 then (out, buflen)
    else
      let u2 := hd 0 rest in
      let '(cp, n0) := utf16_decode u1 u2 in
      let next := next_units n0 rest in
      if negb buf then
        let seqlen := snd (utf8_encode cp) in
        if seqlen >? SIZE_MAX - buflen then (out, SIZE_MAX)
        else convert_loop buf bufsize next out (buflen + seqlen)
      else
        let room := to_size_t (to_size_t (bufsize - buflen) - 1) in
        if (room <? 4) && (snd (utf8_encode cp) >? room) then (out, buflen)
        else
          convert_loop buf bufsize next (out ++ fst (utf8_encode cp))
            (to_size_t (buflen + snd (utf8_encode cp)))
  end.

(** [utf16_convert_string_to_utf8 buf bufsize utf16]: the content of the
    destination (the converted bytes and their terminator; nothing for a
    NULL destination) and the returned length. *)
Definition utf16_convert_string_to_utf8 (buf : bool) (bufsize : Z)
    (utf16 : list Z) : list Z * Z :=
  if buf && (bufsize =? 0) then ([], 0)
  else
    let '(out, buflen) := convert_loop buf bufsize utf16 [] 0 in
    (if buf then out ++ [0] else [], buflen).

(** The code points the conversion loop decodes, in order (the loop's
    walk over the units without its output). *)
Fixpoint utf16_codepoints (utf16 : list Z) : list Z :=
  match utf16 with
  | [] => []
  | u1 :: rest =>
    if u1 =? 0 then []
    else
      let '(cp, n0) := utf16_decode u1 (hd 0 rest) in
      cp :: utf16_codepoints (next_units n0 rest)
  end.

Definition utf8_bytes (cps : list Z) : list Z :=
  flat_map (fun cp => fst (utf8_encode cp)) cps.

Definition utf8_size (cps : list Z) : Z :=
  fold_right (fun cp acc => snd (utf8_encode cp) + acc) 0 cps.

(** The value a UTF-8 sequence of one to four bytes stands for: the
    payload bits of the lead byte and of the continuation bytes. *)
Definition utf8_value (bytes : list Z) : Z :=
  match bytes with
  | [b0] => b0
  | [b0; b1] => (b0 - 0xc0) * 64 + (b1 - 0x80)
  | [b0; b1; b2] => (b0 - 0xe0) * 4096 + (b1 - 0x80) * 64 + (b2 - 0x80)
  | [b0; b1; b2; b3] =>
    (b0 - 0xf0) * 262144 + (b1 - 0x80) * 4096 + (b2 - 0x80) * 64 + (b3 - 0x80)
  | _ => 0
  end.

(** A continuation byte. *)
Definition utf8_continuation (b : Z) : Prop := 0x80 <= b <= 0xbf.

(** A 16-bit code unit. *)
Definition is_uint16 (u : Z) : Prop := 0 <= u < 65536.

(** A Unicode scalar value other than NUL. *)
Definition scalar_value (cp : Z) : Prop :=
  0 < cp <= 0x10ffff /\ ~ (0xd800 <= cp <= 0xdfff).

End Utf.

(** ** nbu.c: data model *)

Module Nbu.
Import Utf.

Definition NBU_CALENDAR_FILE : string := "calendar.ics".
Definition NBU_CONTACTS_FILE : string := "contacts.vcf".
Definition NBU_MEMOS_DIR : string := "memos".
Definition NBU_MESSAGES_DIR : string := "messages".
Definition NBU_GUID_LEN : Z := 16.

Record nbu_item := { item_pos : Z; item_len : Z }.

(** A folder; [folder_name] is the array of UTF-16 units with its
    terminating NUL. *)
Record nbu_folder := { folder_name : list Z; folder_items : list nbu_item }.

(** The stream [FILE *fp]: the bytes of the backup file and the file
    position indicator. *)
Record FILE := { f_data : list byte; f_pos : Z }.

(** [struct nbu_ctx]; a NULL pointer is [None]. *)
Record nbu_ctx := {
  fp : FILE;
  backup_time : Z;
  phone_imei : option (list Z);
  phone_model : option (list Z);
  phone_name : option (list Z);
  phone_firmware : option (list Z);
  phone_language : option (list Z);
  bookmarks : option (list nbu_folder);
  messages : option (list nbu_folder);
  mmses : option (list nbu_folder);
  calendar : option (list nbu_item);
  contacts : option (list nbu_item);
  memos : option (list nbu_item)
}.

Definition set_fp (f : FILE) (c : nbu_ctx) : nbu_ctx :=
  {| fp := f; backup_time := backup_time c; phone_imei := phone_imei c;
     phone_model := phone_model c; phone_name := phone_name c;
     phone_firmware := phone_firmware c; phone_language := phone_language c;
     bookmarks := bookmarks c; messages := messages c; mmses := mmses c;
     calendar := calendar c; contacts := contacts c; memos := memos c |}.

Definition set_pos (p : Z) (c : nbu_ctx) : nbu_ctx :=
  set_fp {| f_data := f_data (fp c); f_pos := p |} c.

Definition set_backup_time (t : Z) (c : nbu_ctx) : nbu_ctx :=
  {| fp := fp c; backup_time := t; phone_imei := phone_imei c;
     phone_model := phone_model c; phone_name := phone_name c;
     phone_firmware := phone_firmware c; phone_language := phone_language c;
     bookmarks := bookmarks c; messages := messages c; mmses := mmses c;
     calendar := calendar c; contacts := contacts c; memos := memos c |}.

Definition set_phone_imei (s : option (list Z)) (c : nbu_ctx) : nbu_ctx :=
  {| fp := fp c; backup_time := backup_time c; phone_imei := s;
     phone_model := phone_model c; phone_name := phone_name c;
     phone_firmware := phone_firmware c; phone_language := phone_language c;
     bookmarks := bookmarks c; messages := messages c; mmses := mmses c;
     calendar := calendar c; contacts := contacts c; memos := memos c |}.

Definition set_phone_model (s : option (list Z)) (c : nbu_ctx) : nbu_ctx :=
  {| fp := fp c; backup_time := backup_time c; phone_imei := phone_imei c;
     phone_model := s; phone_name := phone_name c;
     phone_firmware := phone_firmware c; phone_language := phone_language c;
     bookmarks := bookmarks c; messages := messages c; mmses := mmses c;
     calendar := calendar c; contacts := contacts c; memos := memos c |}.

Definition set_phone_name (s : option (list Z)) (c : nbu_ctx) : nbu_ctx :=
  {| fp := fp c; backup_time := backup_time c; phone_imei := phone_imei c;
     phone_model := phone_model c; phone_name := s;
     phone_firmware := phone_firmware c; phone_language := phone_language c;
     bookmarks := bookmarks c; messages := messages c; mmses := mmses c;
     calendar := calendar c; contacts := contacts c; memos := memos c |}.

Definition set_phone_firmware (s : option (list Z)) (c : nbu_ctx) : nbu_ctx :=
  {| fp := fp c; backup_time := backup_time c; phone_imei := phone_imei c;
     phone_model := phone_model c; phone_name := phone_name c;
     phone_firmware := s; phone_language := phone_language c;
     bookmarks := bookmarks c; messages := messages c; mmses := mmses c;
     calendar := calendar c; contacts := contacts c; memos := memos c |}.

Definition set_phone_language (s : option (list Z)) (c : nbu_ctx) : nbu_ctx :=
  {| fp := fp c; backup_time := backup_time c; phone_imei := phone_imei c;
     phone_model := phone_model c; phone_name := phone_name c;
     phone_firmware := phone_firmware c; phone_language := s;
     bookmarks := bookmarks c; messages := messages c; mmses := mmses c;
     calendar := calendar c; contacts := contacts c; memos := memos c |}.

Definition set_bookmarks (l : option (list nbu_folder)) (c : nbu_ctx) : nbu_ctx :=
  {| fp := fp c; backup_time := backup_time c; phone_imei := phone_imei c;
     phone_model := phone_model c; phone_name := phone_name c;
     phone_firmware := phone_firmware c; phone_language := phone_language c;
     bookmarks := l; messages := messages c; mmses := mmses c;
     calendar := calendar c; contacts := contacts c; memos := memos c |}.

Definition set_messages (l : option (list nbu_folder)) (c : nbu_ctx) : nbu_ctx :=
  {| fp := fp c; backup_time := backup_time c; phone_imei := phone_imei c;
     phone_model := phone_model c; phone_name := phone_name c;
     phone_firmware := phone_firmware c; phone_language := phone_language c;
     bookmarks := bookmarks c; messages := l; mmses := mmses c;
     calendar := calendar c; contacts := contacts c; memos := memos c |}.

Definition set_mmses (l : option (list nbu_folder)) (c : nbu_ctx) : nbu_ctx :=
  {| fp := fp c; backup_time := backup_time c; phone_imei := phone_imei c;
     phone_model := phone_model c; phone_name := phone_name c;
     phone_firmware := phone_firmware c; phone_language := phone_language c;
     bookmarks := bookmarks c; messages := messages c; mmses := l;
     calendar := calendar c; contacts := contacts c; memos := memos c |}.

Definition set_calendar (l : option (list nbu_item)) (c : nbu_ctx) : nbu_ctx :=
  {| fp := fp c; backup_time := backup_time c; phone_imei := phone_imei c;
     phone_model := phone_model c; phone_name := phone_name c;
     phone_firmware := phone_firmware c; phone_language := phone_language c;
     bookmarks := bookmarks c; messages := messages c; mmses := mmses c;
     calendar := l; contacts := contacts c; memos := memos c |}.

Definition set_contacts (l : option (list nbu_item)) (c : nbu_ctx) : nbu_ctx :=
  {| fp := fp c; backup_time := backup_time c; phone_imei := phone_imei c;
     phone_model := phone_model c; phone_name := phone_name c;
     phone_firmware := phone_firmware c; phone_language := phone_language c;
     bookmarks := bookmarks c; messages := messages c; mmses := mmses c;
     calendar := calendar c; contacts := l; memos := memos c |}.

Definition set_memos (l : option (list nbu_item)) (c : nbu_ctx) : nbu_ctx :=
  {| fp := fp c; backup_time := backup_time c; phone_imei := phone_imei c;
     phone_model := phone_model c; phone_name := phone_name c;
     phone_firmware := phone_firmware c; phone_language := phone_language c;
     bookmarks := bookmarks c; messages := messages c; mmses := mmses c;
     calendar := calendar c; contacts := contacts c; memos := l |}.

(** ** Failures

    Every failing path of [nbu.c] prints one diagnostic with [warn] or
    [warnx] and returns [-1] or NULL; the diagnostic names the failure. *)
Inductive nbu_error :=
  | Unexpected_end_of_file
  | Fseek_failed
  | Ftell_failed
  | String_too_long
  | Section_contains_folders
  | Memo_too_large
  | Unsupported_section
  | Invalid_item_size
  | Invalid_folder_name
  | Openat_failed
  | Mkdirat_failed
  | Mkdir_failed
  | Open_failed
  | Write_failed.

(** The outcome of a reading function: its value and the context it
    leaves, or the failure and the context at the point of failure. *)
Inductive result (A : Type) :=
  | Ok (a : A) (c : nbu_ctx)
  | Err (e : nbu_error) (c : nbu_ctx).
Arguments Ok {A} a c.
Arguments Err {A} e c.

Definition M (A : Type) : Type := nbu_ctx -> result A.

Definition ret {A} (a : A) : M A := fun c => Ok a c.
Definition fail {A} (e : nbu_error) : M A := fun c => Err e c.
Definition bind {A B} (m : M A) (k : A -> M B) : M B :=
  fun c => match m c with
           | Ok a c' => k a c'
           | Err e c' => Err e c'
           end.
Definition modify (f : nbu_ctx -> nbu_ctx) : M unit := fun c => Ok tt (f c).

(** The [error:] label of a function: [cleanup] runs when [m] fails. *)
Definition on_error {A} (m : M A) (cleanup : nbu_ctx -> nbu_ctx) : M A :=
  fun c => match m c with
           | Ok a c' => Ok a c'
           | Err e c' => Err e (cleanup c')
           end.

Notation "x <- m ;; k" := (bind m (fun x => k))
  (at level 100, m at next level, right associativity).
Notation "m ;;; k" := (bind m (fun _ => k))
  (at level 100, right associativity).

(** [for (i = 0; i < n; i++)] over a body that threads the locals [a]. *)
Fixpoint for_loop {A} (n : nat) (body : A -> M A) (a : A) : M A :=
  match n with
  | O => ret a
  | S n' => a' <- body a ;; for_loop n' body a'
  end.

(** ** Primitive reader *)

Definition byte_to_Z (b : byte) : Z := Z.of_N (Byte.to_N b).

Definition byte_of_Z (z : Z) : byte :=
  match Byte.of_N (Z.to_N (z mod 256)) with
  | Some b => b
  | None => Byte.x00
  end.

(** The value of a little-endian byte string ([le16toh] and the like). *)
Fixpoint le_decode (bs : list byte) : Z :=
  match bs with
  | [] => 0
  | b :: bs' => byte_to_Z b + 256 * le_decode bs'
  end.

Definition file_size (c : nbu_ctx) : Z := Z.of_nat (length (f_data (fp c))).

(** [nbu_read]: [fread(ptr, size, 1, fp)] gives one object only when
    [size] is positive and that many bytes are left; a short read leaves
    the stream at its end. *)
Definition nbu_read (size : Z) : M (list byte) := fun c =>
  if size <=? 0 then Err Unexpected_end_of_file c
  else if f_pos (fp c) + size <=? file_size c then
    Ok (take (Z.to_nat size) (drop (Z.to_nat (f_pos (fp c))) (f_data (fp c))))
       (set_pos (f_pos (fp c) + size) c)
  else Err Unexpected_end_of_file (set_pos (Z.max (f_pos (fp c)) (file_size c)) c).

(** The common body of the fixed-width reads: [nbu_read] of
    [sizeof *u] bytes, then the conversion from little endian. *)
Definition read_uint (size : Z) : M Z :=
  bs <- nbu_read size ;; ret (le_decode bs).

Definition nbu_read_uint8 : M Z := read_uint 1.
Definition nbu_read_uint16 : M Z := read_uint 2.
Definition nbu_read_uint32 : M Z := read_uint 4.
Definition nbu_read_uint64 : M Z := read_uint 8.

(** [nbu_read_utf16_n]: [len] units and the terminating NUL. *)
Definition nbu_read_utf16_n (len : Z) : M (list Z) :=
  if len =? SIZE_MAX then fail String_too_long
  else
    utf16 <- for_loop (Z.to_nat len)
               (fun utf16 => u <- nbu_read_uint16 ;; ret (utf16 ++ [u])) [] ;;
    ret (utf16 ++ [0]).

Definition nbu_read_utf16 : M (list Z) :=
  len <- nbu_read_uint16 ;; nbu_read_utf16_n len.

Definition nbu_read_file_time : M Z :=
  hi <- nbu_read_uint32 ;;
  lo <- nbu_read_uint32 ;;
  ret (Z.lor (to_uint64 (Z.shiftl hi 32)) lo).

Inductive whence := SEEK_SET | SEEK_CUR.

(** [nbu_seek]: [fseek] refuses a negative resulting position and one
    that does not fit [long]; a position behind the end of the file is
    accepted. *)
Definition nbu_seek (offset : Z) (w : whence) : M unit := fun c =>
  let target := match w with
                | SEEK_SET => offset
                | SEEK_CUR => f_pos (fp c) + offset
                end in
  if (0 <=? target) && (target <=? LONG_MAX) then Ok tt (set_pos target c)
  else Err Fseek_failed c.

Definition nbu_tell : M Z := fun c =>
  let pos := f_pos (fp c) in
  if pos =? -1 then Err Ftell_failed c else Ok pos c.

(** [nbu_convert_utf16_to_utf8]: the size pass, then the fill pass into
    a buffer of one byte more; NULL when the size pass gives [SIZE_MAX]. *)
Definition nbu_convert_utf16_to_utf8 (utf16 : list Z) : option (list Z) :=
  let size := snd (utf16_convert_string_to_utf8 false 0 utf16) in
  if size =? SIZE_MAX then None
  else Some (fst (utf16_convert_string_to_utf8 true (to_size_t (size + 1)) utf16)).

(** The conversions made for the debugging output ([NBU_DEBUG] is
    defined): their failure makes the reading function fail. *)
Definition debug_utf8 (utf16 : list Z) : M unit :=
  match nbu_convert_utf16_to_utf8 utf16 with
  | Some _ => ret tt
  | None => fail String_too_long
  end.

Definition nbu_add_item (l : list nbu_item) (pos len : Z) : list nbu_item :=
  l ++ [{| item_pos := pos; item_len := len |}].

(** ** Section handlers *)

(** One iteration of the loop of [nbu_read_vcards]. *)
Definition nbu_read_vcard (l : list nbu_item) : M (list nbu_item) :=
  test <- nbu_read_uint32 ;;
  (if negb (test =? 0x10) then ret tt
   else test2 <- nbu_read_uint32 ;; ret tt) ;;;
  len <- nbu_read_uint32 ;;
  pos <- nbu_tell ;;
  let l' := nbu_add_item l pos len in
  nbu_seek len SEEK_CUR ;;;
  ret l'.

(** [nbu_read_vcards ctx list]: the list behind the pointer is passed in
    and handed back with the items appended. *)
Definition nbu_read_vcards (l : list nbu_item) : M (list nbu_item) :=
  nitems <- nbu_read_uint32 ;;
  for_loop (Z.to_nat nitems) nbu_read_vcard l.

Definition nbu_read_vcard_folder (folder_pos : Z) : M nbu_folder :=
  nbu_seek (to_long (folder_pos + 4)) SEEK_SET ;;;
  name <- nbu_read_utf16 ;;
  debug_utf8 name ;;;
  items <- nbu_read_vcards [] ;;
  ret {| folder_name := name; folder_items := items |}.

(** [nbu_read_vcard_section ctx section_pos list], [list] being
    [&ctx->calendar] or [&ctx->contacts], given by its setter.  The member
    gets the new list first and, nothing reading it meanwhile, the items
    when [nbu_read_vcards] is back; the [error:] label sets it to NULL. *)
Definition nbu_read_vcard_section (section_pos : Z)
    (set_list : option (list nbu_item) -> nbu_ctx -> nbu_ctx) : M unit :=
  on_error
    (modify (set_list (Some [])) ;;;
     nitems <- nbu_read_uint32 ;;
     nfolders <- nbu_read_uint32 ;;
     if negb (nfolders =? 0) then fail Section_contains_folders
     else
       pos <- nbu_tell ;;
       nbu_seek (to_long (section_pos + 44)) SEEK_SET ;;;
       l <- nbu_read_vcards [] ;;
       modify (set_list (Some l)) ;;;
       nbu_seek pos SEEK_SET)
    (set_list None).

Definition insert_tail {A} (x : A) (l : option (list A)) : option (list A) :=
  match l with
  | Some xs => Some (xs ++ [x])
  | None => None
  end.

(** [nbu_read_vcard_folder_section ctx &ctx->bookmarks]. *)
Definition nbu_read_vcard_folder_section : M unit :=
  on_error
    (modify (set_bookmarks (Some [])) ;;;
     nitems <- nbu_read_uint32 ;;
     nfolders <- nbu_read_uint32 ;;
     for_loop (Z.to_nat nfolders)
       (fun _ =>
          nbu_seek 4 SEEK_CUR ;;;
          folder_pos <- nbu_read_uint64 ;;
          pos <- nbu_tell ;;
          folder <- nbu_read_vcard_folder folder_pos ;;
          modify (fun c => set_bookmarks (insert_tail folder (bookmarks c)) c) ;;;
          nbu_seek pos SEEK_SET) tt)
    (set_bookmarks None).

Definition nbu_read_group_folder (folder_pos : Z) : M nbu_folder :=
  nbu_seek (to_long (folder_pos + 4)) SEEK_SET ;;;
  name <- nbu_read_utf16 ;;
  nitems <- nbu_read_uint32 ;;
  debug_utf8 name ;;;
  ret {| folder_name := name; folder_items := [] |}.

(** One iteration of the loop of [nbu_read_message_folder]. *)
Definition nbu_read_message (items : list nbu_item) : M (list nbu_item) :=
  nbu_seek 8 SEEK_CUR ;;;
  len <- nbu_read_uint32 ;;
  pos <- nbu_tell ;;
  let items' := nbu_add_item items pos len in
  nbu_seek len SEEK_CUR ;;;
  ret items'.

Definition nbu_read_message_folder (folder_pos : Z) : M nbu_folder :=
  nbu_seek (to_long (folder_pos + 4)) SEEK_SET ;;;
  name <- nbu_read_utf16 ;;
  nitems <- nbu_read_uint32 ;;
  debug_utf8 name ;;;
  items <- for_loop (Z.to_nat nitems) nbu_read_message [] ;;
  ret {| folder_name := name; folder_items := items |}.

(** One iteration of the loop of [nbu_read_mms_folder]. *)
Definition nbu_read_mms (items : list nbu_item) : M (list nbu_item) :=
  nbu_seek 8 SEEK_CUR ;;;
  n <- nbu_read_uint8 ;;
  for_loop (Z.to_nat n)
    (fun _ =>
       nbu_seek 8 SEEK_CUR ;;;
       utf16 <- nbu_read_utf16 ;;
       debug_utf8 utf16) tt ;;;
  nbu_seek 20 SEEK_CUR ;;;
  len <- nbu_read_uint32 ;;
  pos <- nbu_tell ;;
  let items' := nbu_add_item items pos len in
  nbu_seek len SEEK_CUR ;;;
  ret items'.

Definition nbu_read_mms_folder (folder_pos : Z) : M nbu_folder :=
  nbu_seek (to_long (folder_pos + 4)) SEEK_SET ;;;
  name <- nbu_read_utf16 ;;
  nitems <- nbu_read_uint32 ;;
  debug_utf8 name ;;;
  items <- for_loop (Z.to_nat nitems) nbu_read_mms [] ;;
  ret {| folder_name := name; folder_items := items |}.

Definition nbu_read_advanced_settings_section (section_pos : Z) : M unit :=
  n <- nbu_read_uint32 ;;
  nfolders <- nbu_read_uint32 ;;
  for_loop (Z.to_nat nfolders)
    (fun _ =>
       nbu_seek 4 SEEK_CUR ;;;
       folder_pos <- nbu_read_uint64 ;;
       pos <- nbu_tell ;;
       nbu_seek pos SEEK_SET) tt.

Definition nbu_read_bookmarks_section (section_pos : Z) : M unit :=
  nbu_read_vcard_folder_section.

Definition nbu_read_calendar_section (section_pos : Z) : M unit :=
  nbu_read_vcard_section section_pos set_calendar.

Definition nbu_read_contacts_section (section_pos : Z) : M unit :=
  nbu_read_vcard_section section_pos set_contacts.

Definition nbu_read_groups_section (section_pos : Z) : M unit :=
  n <- nbu_read_uint32 ;;
  ngroups <- nbu_read_uint32 ;;
  for_loop (Z.to_nat ngroups)
    (fun _ =>
       nbu_seek 4 SEEK_CUR ;;;
       folder_pos <- nbu_read_uint64 ;;
       pos <- nbu_tell ;;
       folder <- nbu_read_group_folder folder_pos ;;
       nbu_seek pos SEEK_SET) tt.

(** One iteration of the loop of [nbu_read_memos_section]. *)
Definition nbu_read_memo : M unit :=
  nbu_seek 4 SEEK_CUR ;;;
  len <- nbu_read_uint16 ;;
  if len >? UINT16_MAX / 2 then fail Memo_too_large
  else
    let len := to_uint16 (len * 2) in
    memo_pos <- nbu_tell ;;
    modify (fun c => set_memos (insert_tail
                       {| item_pos := memo_pos; item_len := len |} (memos c)) c) ;;;
    nbu_seek len SEEK_CUR.

Definition nbu_read_memos_section (section_pos : Z) : M unit :=
  modify (set_memos (Some [])) ;;;
  nmemos <- nbu_read_uint32 ;;
  pos <- nbu_tell ;;
  let pos := pos + 4 in
  nbu_seek (to_long (section_pos + 48)) SEEK_SET ;;;
  for_loop (Z.to_nat nmemos) (fun _ => nbu_read_memo) tt ;;;
  nbu_seek pos SEEK_SET.

Definition nbu_read_messages_section (section_pos : Z) : M unit :=
  modify (set_messages (Some [])) ;;;
  nmessages <- nbu_read_uint32 ;;
  nfolders <- nbu_read_uint32 ;;
  for_loop (Z.to_nat nfolders)
    (fun _ =>
       nbu_seek 4 SEEK_CUR ;;;
       folder_pos <- nbu_read_uint64 ;;
       pos <- nbu_tell ;;
       folder <- nbu_read_message_folder folder_pos ;;
       modify (fun c => set_messages (insert_tail folder (messages c)) c) ;;;
       nbu_seek pos SEEK_SET) tt.

Definition nbu_read_mms_section (section_pos : Z) : M unit :=
  modify (set_mmses (Some [])) ;;;
  nmessages <- nbu_read_uint32 ;;
  nfolders <- nbu_read_uint32 ;;
  for_loop (Z.to_nat nfolders)
    (fun _ =>
       nbu_seek 4 SEEK_CUR ;;;
       folder_pos <- nbu_read_uint64 ;;
       pos <- nbu_tell ;;
       folder <- nbu_read_mms_folder folder_pos ;;
       modify (fun c => set_mmses (insert_tail folder (mmses c)) c) ;;;
       nbu_seek pos SEEK_SET) tt.

(** ** Section dispatcher *)

Inductive section_kind :=
  | Calendar | Groups | Advanced_settings | Mms | Memos | Messages
  | Bookmarks | Contacts.

Definition guid_calendar : list Z :=
  [0x16; 0xcd; 0xf8; 0xe8; 0x23; 0x5e; 0x5a; 0x4e;
   0xb7; 0x35; 0xdd; 0xdf; 0xf1; 0x48; 0x12; 0x22].
Definition guid_groups : list Z :=
  [0x1f; 0x0e; 0x58; 0x65; 0xa1; 0x9f; 0x3c; 0x49;
   0x9e; 0x23; 0x0e; 0x25; 0xeb; 0x24; 0x0f; 0xe1].
Definition guid_advanced_settings : list Z :=
  [0x2d; 0xf5; 0x68; 0x6b; 0x1f; 0x4b; 0x22; 0x4a;
   0x92; 0x83; 0x1b; 0x06; 0xc3; 0xc3; 0x9a; 0x35].
Definition guid_mms : list Z :=
  [0x47; 0x1d; 0xd4; 0x65; 0xef; 0xe3; 0x32; 0x40;
   0x8c; 0x77; 0x64; 0xca; 0xa3; 0x83; 0xaa; 0x33].
Definition guid_memos : list Z :=
  [0x5c; 0x62; 0x97; 0x3b; 0xdc; 0xa7; 0x54; 0x41;
   0xa1; 0xc3; 0x05; 0x9d; 0xe3; 0x24; 0x68; 0x08].
Definition guid_messages : list Z :=
  [0x61; 0x7a; 0xef; 0xd1; 0xaa; 0xbe; 0xa1; 0x49;
   0x9d; 0x9d; 0x15; 0x5a; 0xbb; 0x4c; 0xeb; 0x8e].
Definition guid_bookmarks : list Z :=
  [0x7f; 0x77; 0x90; 0x56; 0x31; 0xf9; 0x57; 0x49;
   0x8d; 0x96; 0xee; 0x44; 0x5d; 0xbe; 0xbc; 0x5a].
Definition guid_contacts : list Z :=
  [0xef; 0xd4; 0x2e; 0xd0; 0xa3; 0x51; 0x38; 0x47;
   0x9d; 0xd7; 0x30; 0x5c; 0x7a; 0xf0; 0x68; 0xd3].

(** The table [nbu_sections], in its order. *)
Definition nbu_sections : list (list Z * section_kind) :=
  [ (guid_calendar, Calendar);
    (guid_groups, Groups);
    (guid_advanced_settings, Advanced_settings);
    (guid_mms, Mms);
    (guid_memos, Memos);
    (guid_messages, Messages);
    (guid_bookmarks, Bookmarks);
    (guid_contacts, Contacts) ].

(** The [read] member of a table entry. *)
Definition section_read (k : section_kind) : Z -> M unit :=
  match k with
  | Calendar => nbu_read_calendar_section
  | Groups => nbu_read_groups_section
  | Advanced_settings => nbu_read_advanced_settings_section
  | Mms => nbu_read_mms_section
  | Memos => nbu_read_memos_section
  | Messages => nbu_read_messages_section
  | Bookmarks => nbu_read_bookmarks_section
  | Contacts => nbu_read_contacts_section
  end.

(** [memcmp(a, b, NBU_GUID_LEN) == 0]. *)
Definition guid_eqb (a b : list Z) : bool :=
  bool_decide (take (Z.to_nat NBU_GUID_LEN) a = take (Z.to_nat NBU_GUID_LEN) b).

Fixpoint find_section (guid : list Z) (table : list (list Z * section_kind))
    : option section_kind :=
  match table with
  | [] => None
  | (g, k) :: table' => if guid_eqb guid g then Some k else find_section guid table'
  end.

Definition nbu_read_section (guid : list Z) (pos : Z) : M unit :=
  match find_section guid nbu_sections with
  | Some k => section_read k pos
  | None => fail Unsupported_section
  end.

(** One iteration of the loop of [nbu_read_sections]. *)
Definition nbu_read_section_entry : M unit :=
  guid <- nbu_read NBU_GUID_LEN ;;
  pos <- nbu_read_uint64 ;;
  nbu_seek 8 SEEK_CUR ;;;
  nbu_read_section (map byte_to_Z guid) pos.

Definition nbu_read_sections : M unit :=
  nsections <- nbu_read_uint32 ;;
  for_loop (Z.to_nat nsections) (fun _ => nbu_read_section_entry) tt.

(** The context after [calloc] and [fopen] of a file with content [data]. *)
Definition nbu_ctx_init (data : list byte) : nbu_ctx :=
  {| fp := {| f_data := data; f_pos := 0 |};
     backup_time := 0;
     phone_imei := None; phone_model := None; phone_name := None;
     phone_firmware := None; phone_language := None;
     bookmarks := None; messages := None; mmses := None;
     calendar := None; contacts := None; memos := None |}.

(** [nbu_open] on an existing file with content [data]. *)
Definition nbu_open (data : list byte) : result unit :=
  (nbu_seek 20 SEEK_SET ;;;
   pos <- nbu_read_uint64 ;;
   nbu_seek (to_long (pos + 20)) SEEK_SET ;;;
   t <- nbu_read_file_time ;;
   modify (set_backup_time t) ;;;
   s <- nbu_read_utf16 ;; modify (set_phone_imei (Some s)) ;;;
   s <- nbu_read_utf16 ;; modify (set_phone_model (Some s)) ;;;
   s <- nbu_read_utf16 ;; modify (set_phone_name (Some s)) ;;;
   s <- nbu_read_utf16 ;; modify (set_phone_firmware (Some s)) ;;;
   s <- nbu_read_utf16 ;; modify (set_phone_language (Some s)) ;;;
   nbu_seek 20 SEEK_CUR ;;;
   nbu_read_sections) (nbu_ctx_init data).

(** ** Export engine

    The destination is a tree of directories and regular files keyed by
    path; a file descriptor is the path it was opened at and a directory
    descriptor the path of the directory.  [w_stderr] collects the
    diagnostics.  [w_malloc] tells for which sizes [malloc] gives memory
    to the raw item export. *)

Inductive node := Dir | File (content : list byte).

Record world := {
  w_ctx : nbu_ctx;
  w_fs : gmap string node;
  w_stderr : list nbu_error;
  w_malloc : Z -> bool
}.

Definition set_ctx (c : nbu_ctx) (w : world) : world :=
  {| w_ctx := c; w_fs := w_fs w; w_stderr := w_stderr w;
     w_malloc := w_malloc w |}.
Definition set_fs (fs : gmap string node) (w : world) : world :=
  {| w_ctx := w_ctx w; w_fs := fs; w_stderr := w_stderr w;
     w_malloc := w_malloc w |}.
Definition warn (e : nbu_error) (w : world) : world :=
  {| w_ctx := w_ctx w; w_fs := w_fs w; w_stderr := w_stderr w ++ [e];
     w_malloc := w_malloc w |}.

(** Memory for every size. *)
Definition enough_memory : Z -> bool := fun _ => true.

(** A reading function called from the export: its failure has printed
    its diagnostic. *)
Definition run {A} (m : M A) (w : world) : option A * world :=
  match m (w_ctx w) with
  | Ok a c => (Some a, set_ctx c w)
  | Err e c => (None, warn e (set_ctx c w))
  end.

Fixpoint has_slash (s : string) : bool :=
  match s with
  | EmptyString => false
  | String c s' => if Ascii.eqb c "/"%char then true else has_slash s'
  end.

(** The path without its last component. *)
Fixpoint dirname (s : string) : string :=
  match s with
  | EmptyString => EmptyString
  | String c s' => if has_slash s' then String c (dirname s') else EmptyString
  end.

Definition is_dir (fs : gmap string node) (p : string) : bool :=
  match fs !! p with
  | Some Dir => true
  | _ => false
  end.

Definition parent_is_dir (fs : gmap string node) (p : string) : bool :=
  bool_decide (dirname p = EmptyString) || is_dir fs (dirname p).

Definition path_at (dfd path : string) : string := dfd +:+ "/" +:+ path.

Definition NAME_MAX : nat := 255.
Definition PATH_MAX : nat := 4096.

(** The length of the longest component of a path, [cur] being the
    length of the component read so far. *)
Fixpoint longest_component (s : string) (cur : nat) : nat :=
  match s with
  | EmptyString => cur
  | String c s' =>
    if Ascii.eqb c "/"%char then Nat.max cur (longest_component s' 0)
    else longest_component s' (S cur)
  end.

(** [ENAMETOOLONG]: a component of the path has more than [NAME_MAX]
    bytes, or the path with its terminator more than [PATH_MAX]. *)
Definition name_too_long (path : string) : bool :=
  (NAME_MAX <? longest_component path 0)%nat
  || (PATH_MAX <=? String.length path)%nat.

(** [openat(dfd, path, O_WRONLY | O_CREAT | O_EXCL, 0666)]: the name
    must not be too long, the path must not exist and its directory must;
    the new file is empty. *)
Definition openat (dfd path : string) (w : world) : option string * world :=
  let full := path_at dfd path in
  if name_too_long path then (None, w)
  else
    match w_fs w !! full with
    | Some _ => (None, w)
    | None =>
      if is_dir (w_fs w) (dirname full) then
        (Some full, set_fs (<[full := File []]> (w_fs w)) w)
      else (None, w)
    end.

(** The outcomes of [mkdir] and [mkdirat] that the callers tell apart:
    success, [EEXIST] (the path exists, as a directory or not) and any
    other error (here: the name is too long or the parent is no
    directory). *)
Inductive mkdir_result := Mkdir_ok | Mkdir_eexist | Mkdir_error.

(** The making of the directory at the full path [full]. *)
Definition make_directory (full : string) (w : world) : mkdir_result * world :=
  match w_fs w !! full with
  | Some _ => (Mkdir_eexist, w)
  | None =>
    if parent_is_dir (w_fs w) full then
      (Mkdir_ok, set_fs (<[full := Dir]> (w_fs w)) w)
    else (Mkdir_error, w)
  end.

Definition mkdir (path : string) (w : world) : mkdir_result * world :=
  if name_too_long path then (Mkdir_error, w) else make_directory path w.

Definition mkdirat (dfd path : string) (w : world) : mkdir_result * world :=
  if name_too_long path then (Mkdir_error, w)
  else make_directory (path_at dfd path) w.

(** [open(path, O_RDONLY | O_DIRECTORY)]: the path must be a
    directory. *)
Definition open_directory (path : string) (w : world) : option string :=
  if is_dir (w_fs w) path then Some path else None.

Definition append_content (buf : list byte) (n : node) : node :=
  match n with
  | Dir => Dir
  | File content => File (content ++ buf)
  end.

(** [nbu_write fd buf len], [buf] holding the [len] bytes: the loop over
    [write] ends with all of them behind the content of the open file. *)
Definition nbu_write (fd : string) (buf : list byte) (w : world) : Z * world :=
  match w_fs w !! fd with
  | Some (File _) => (0, set_fs (alter (append_content buf) fd (w_fs w)) w)
  | _ => (-1, warn Write_failed w)
  end.

Fixpoint strlen (s : list Z) : Z :=
  match s with
  | [] => 0
  | b :: s' => if b =? 0 then 0 else 1 + strlen s'
  end.

Definition string_of_bytes (s : list Z) : string :=
  String.string_of_list_ascii (map (fun b => Ascii.ascii_of_N (Z.to_N b)) s).

(** [nbu_export_item_to_fd]: the buffer of [item->len] bytes is
    allocated first; without it the function returns [-1] and prints
    nothing. *)
Definition nbu_export_item_to_fd (item : nbu_item) (fd : string) (w : world)
    : Z * world :=
  if negb (w_malloc w (item_len item)) then (-1, w)
  else
    match run (nbu_seek (item_pos item) SEEK_SET) w with
    | (None, w1) => (-1, w1)
    | (Some _, w1) =>
      match run (nbu_read (item_len item)) w1 with
      | (None, w2) => (-1, w2)
      | (Some buf, w2) =>
        let '(r, w3) := nbu_write fd buf w2 in
        if r =? -1 then (-1, w3) else (0, w3)
      end
    end.

Definition nbu_export_utf16_item_to_fd (item : nbu_item) (fd : string)
    (w : world) : Z * world :=
  if negb (item_len item mod 2 =? 0) then (-1, warn Invalid_item_size w)
  else
    let len := item_len item / 2 in
    match run (nbu_seek (item_pos item) SEEK_SET) w with
    | (None, w1) => (-1, w1)
    | (Some _, w1) =>
      match run (nbu_read_utf16_n len) w1 with
      | (None, w2) => (-1, w2)
      | (Some utf16, w2) =>
        match nbu_convert_utf16_to_utf8 utf16 with
        | None => (-1, warn String_too_long w2)
        | Some utf8 =>
          let len := strlen utf8 in
          let '(r, w3) :=
            nbu_write fd (map byte_of_Z (take (Z.to_nat len) utf8)) w2 in
          if r =? -1 then (-1, w3) else (0, w3)
        end
      end
    end.

Definition nbu_export_utf16_item (item : nbu_item) (dfd path : string)
    (w : world) : Z * world :=
  match openat dfd path w with
  | (None, w1) => (-1, warn Openat_failed w1)
  | (Some fd, w1) =>
    let '(r, w2) := nbu_export_utf16_item_to_fd item fd w1 in
    if r =? -1 then (-1, w2) else (0, w2)
  end.

(** The [STAILQ_FOREACH] loops that return at the first failure. *)
Fixpoint export_items (export : nbu_item -> string -> world -> Z * world)
    (l : list nbu_item) (fd : string) (w : world) : Z * world :=
  match l with
  | [] => (0, w)
  | item :: l' =>
    let '(r, w1) := export item fd w in
    if r =? -1 then (-1, w1) else export_items export l' fd w1
  end.

Definition nbu_export_item_list (l : option (list nbu_item))
    (dfd path : string) (w : world) : Z * world :=
  match l with
  | None | Some [] => (0, w)
  | Some items =>
    match openat dfd path w with
    | (None, w1) => (-1, warn Openat_failed w1)
    | (Some fd, w1) => export_items nbu_export_item_to_fd items fd w1
    end
  end.

(** The test of the folder name on the converted C string [base];
    [asprintf] is taken to succeed. *)
Definition invalid_folder_name (base : string) : bool :=
  bool_decide (base = EmptyString) || has_slash base
  || bool_decide (base = ".") || bool_decide (base = "..").

Definition nbu_export_message_folder (folder : nbu_folder)
    (dfd path : string) (w : world) : Z * world :=
  match nbu_convert_utf16_to_utf8 (folder_name folder) with
  | None => (-1, warn String_too_long w)
  | Some utf8 =>
    let base := string_of_bytes (take (Z.to_nat (strlen utf8)) utf8) in
    if invalid_folder_name base then (-1, warn Invalid_folder_name w)
    else
      let name := path +:+ "/" +:+ base +:+ ".vmg" in
      match openat dfd name w with
      | (None, w1) => (-1, warn Openat_failed w1)
      | (Some fd, w1) =>
        export_items nbu_export_utf16_item_to_fd (folder_items folder) fd w1
      end
  end.

Definition nbu_export_calendar (dfd : string) (w : world) : Z * world :=
  nbu_export_item_list (calendar (w_ctx w)) dfd NBU_CALENDAR_FILE w.

Definition nbu_export_contacts (dfd : string) (w : world) : Z * world :=
  nbu_export_item_list (contacts (w_ctx w)) dfd NBU_CONTACTS_FILE w.

Definition decimal (i : Z) : string := NilZero.string_of_int (Z.to_int i).

(** The loop of [nbu_export_memos] with its locals [i] and [ret]; the
    32 bytes of [name] hold every name an [int] gives. *)
Fixpoint export_memos_loop (l : list nbu_item) (i ret : Z) (dfd : string)
    (w : world) : Z * world :=
  match l with
  | [] => (ret, w)
  | item :: l' =>
    let name := NBU_MEMOS_DIR +:+ "/memo-" +:+ decimal i +:+ ".txt" in
    let '(r, w1) := nbu_export_utf16_item item dfd name w in
    export_memos_loop l' (i + 1) (if r =? -1 then -1 else ret) dfd w1
  end.

Definition nbu_export_memos (dfd : string) (w : world) : Z * world :=
  match memos (w_ctx w) with
  | None | Some [] => (0, w)
  | Some l =>
    match mkdirat dfd NBU_MEMOS_DIR w with
    | (Mkdir_error, w1) => (-1, warn Mkdirat_failed w1)
    | (_, w1) => export_memos_loop l 1 0 dfd w1
    end
  end.

(** The loop of [nbu_export_messages] with its local [ret]. *)
Fixpoint export_messages_loop (l : list nbu_folder) (ret : Z) (dfd : string)
    (w : world) : Z * world :=
  match l with
  | [] => (ret, w)
  | folder :: l' =>
    let '(r, w1) := nbu_export_message_folder folder dfd NBU_MESSAGES_DIR w in
    export_messages_loop l' (if r =? -1 then -1 else ret) dfd w1
  end.

Definition nbu_export_messages (dfd : string) (w : world) : Z * world :=
  match messages (w_ctx w) with
  | None | Some [] => (0, w)
  | Some l =>
    match mkdirat dfd NBU_MESSAGES_DIR w with
    | (Mkdir_error, w1) => (-1, warn Mkdirat_failed w1)
    | (_, w1) => export_messages_loop l 0 dfd w1
    end
  end.

(** The part of [nbu_export] behind the opening of the directory: the
    four calls and the local [ret]. *)
Definition export_categories (dfd : string) (w1 : world) : Z * world :=
  let ret := 0 in
  let '(r, w2) := nbu_export_calendar dfd w1 in
  let ret := if r =? -1 then -1 else ret in
  let '(r, w3) := nbu_export_contacts dfd w2 in
  let ret := if r =? -1 then -1 else ret in
  let '(r, w4) := nbu_export_memos dfd w3 in
  let ret := if r =? -1 then -1 else ret in
  let '(r, w5) := nbu_export_messages dfd w4 in
  let ret := if r =? -1 then -1 else ret in
  (ret, w5).

Definition nbu_export (path : string) (w : world) : Z * world :=
  match mkdir path w with
  | (Mkdir_error, w1) => (-1, warn Mkdir_failed w1)
  | (_, w1) =>
    match open_directory path w1 with
    | None => (-1, warn Open_failed w1)
    | Some dfd => export_categories dfd w1
    end
  end.

(** ** Reference definitions for the statements *)

(** Attempt [f] on every element in turn, whatever the earlier outcomes,
    and collect the outcomes. *)
Fixpoint attempt_all {X} (f : X -> world -> Z * world) (xs : list X)
    (w : world) : list Z * world :=
  match xs with
  | [] => ([], w)
  | x :: xs' =>
    let '(r, w1) := f x w in
    let '(rs, w2) := attempt_all f xs' w1 in
    (r :: rs, w2)
  end.

Definition any_failed (rs : list Z) : bool := existsb (fun r => r =? -1) rs.

(** The context and the world with other bookmark and MMS folder
    lists. *)
Definition with_folders (b m : option (list nbu_folder)) (c : nbu_ctx)
    : nbu_ctx :=
  set_bookmarks b (set_mmses m c).

Definition world_with_folders (b m : option (list nbu_folder)) (w : world)
    : world :=
  set_ctx (with_folders b m (w_ctx w)) w.




(** The dispatcher entry as the specification words it: remember the
    position behind the entry, seek to the declared position, run the
    handler, return to the remembered position. *)
Definition spec_read_section_entry : M unit :=
  guid <- nbu_read NBU_GUID_LEN ;;
  pos <- nbu_read_uint64 ;;
  nbu_seek 8 SEEK_CUR ;;;
  next <- nbu_tell ;;
  nbu_seek (to_long pos) SEEK_SET ;;;
  nbu_read_section (map byte_to_Z guid) pos ;;;
  nbu_seek next SEEK_SET.

(** All items a context holds. *)
Definition folder_list_items (l : option (list nbu_folder)) : list nbu_item :=
  flat_map folder_items (default [] l).

Definition ctx_items (c : nbu_ctx) : list nbu_item :=
  folder_list_items (bookmarks c) ++ folder_list_items (messages c)
  ++ folder_list_items (mmses c)
  ++ default [] (calendar c) ++ default [] (contacts c) ++ default [] (memos c).

(** The little-endian value of the [size] bytes at offset [p] of the
    file. *)
Definition peek (c : nbu_ctx) (p size : Z) : Z :=
  le_decode (take (Z.to_nat size) (drop (Z.to_nat p) (f_data (fp c)))).
Arguments peek : simpl never.

(** The [n] UTF-16 units stored from offset [p] on. *)
Definition utf16_at (c : nbu_ctx) (p : Z) (n : nat) : list Z :=
  map (fun i => peek c (p + 2 * Z.of_nat i) 2) (seq 0 n).

(** Partial correctness of a reading function: from a context in [P],
    a successful run ends in [Q]. *)
Definition hoare {A} (P : nbu_ctx -> Prop) (m : M A)
    (Q : A -> nbu_ctx -> Prop) : Prop :=
  forall c a c', P c -> m c = Ok a c' -> Q a c'.

(** Every failure of [m] from a context in [P] is one of [E]. *)
Definition fails_only {A} (P : nbu_ctx -> Prop) (m : M A)
    (E : nbu_error -> Prop) : Prop :=
  forall c e c', P c -> m c = Err e c' -> E e.

(** The failures of the stream and of the string conversion, as
    opposed to the format errors of the handlers. *)
Definition io_error (e : nbu_error) : Prop :=
  e = Unexpected_end_of_file \/ e = Fseek_failed \/ e = Ftell_failed
  \/ e = String_too_long.

(** The item lies at a position of the file with content [d]. *)
Definition item_in (d : list byte) (it : nbu_item) : Prop :=
  0 <= item_pos it <= Z.of_nat (length d).

(** The invariant of a parse of the file with content [d]: the stream
    holds [d], its position is not negative and every item recorded so
    far satisfies [ok]. *)
Definition good (d : list byte) (ok : nbu_item -> Prop) (c : nbu_ctx) : Prop :=
  f_data (fp c) = d /\ 0 <= f_pos (fp c) /\ Forall ok (ctx_items c).

(** The context an outcome leaves. *)
Definition result_ctx {A} (r : result A) : nbu_ctx :=
  match r with
  | Ok _ c => c
  | Err _ c => c
  end.

(** The stream is not behind the end of the file. *)
Definition within (d : list byte) (c : nbu_ctx) : Prop :=
  f_pos (fp c) <= Z.of_nat (length d).

(** The number of folder entries (four skipped bytes and a 64-bit
    position each) that the handler of kind [k] walks over behind the two
    32-bit words at [p]; the flat handlers walk over none. *)
Definition folder_entries (k : section_kind) (c : nbu_ctx) (p : Z) : Z :=
  match k with
  | Calendar | Contacts | Memos => 0
  | _ => peek c (p + 4) 4
  end.

(** The offset behind the last byte of an item. *)
Definition item_end (it : nbu_item) : Z := item_pos it + item_len it.

(** The items lie one behind the other in the file from offset [from]
    on: each starts at least four bytes, its length word, behind the end
    of the one before, and its length is that of a 32-bit word. *)
Fixpoint items_in_order (from : Z) (l : list nbu_item) : Prop :=
  match l with
  | [] => True
  | it :: l' =>
    from + 4 <= item_pos it /\ 0 <= item_len it < 2 ^ 32
    /\ items_in_order (item_end it) l'
  end.

(** The end of the last item, [from] for no item. *)
Definition last_end (from : Z) (l : list nbu_item) : Z :=
  fold_left (fun _ it => item_end it) l from.

(** [l] is the item list whose count word lies at offset [r] of the
    file of [c]: as many items as the word says, in file order behind it,
    and [c'] rests behind the last of them. *)
Definition item_list_at (c : nbu_ctx) (r : Z) (l : list nbu_item)
    (c' : nbu_ctx) : Prop :=
  Z.of_nat (length l) = peek c r 4
  /\ items_in_order (r + 4) l
  /\ f_pos (fp c') = last_end (r + 4) l.

(** The offset of the count word of the folder at [folder_pos]: behind
    four bytes and the name with its length word. *)
Definition folder_count_pos (c : nbu_ctx) (folder_pos : Z) : Z :=
  let q := to_long (folder_pos + 4) in
  q + 2 + 2 * peek c q 2.

(** One iteration of an item loop appends one item behind the cursor
    and rests behind it, the file being the same. *)
Definition appends_item (body : list nbu_item -> M (list nbu_item)) : Prop :=
  forall l c l' c',
    0 <= f_pos (fp c) -> body l c = Ok l' c' ->
    exists it, l' = l ++ [it] /\ f_pos (fp c) + 4 <= item_pos it
               /\ 0 <= item_len it < 2 ^ 32
               /\ f_pos (fp c') = item_end it
               /\ f_data (fp c') = f_data (fp c).

(** The bytes of an item in the file with content [d]. *)
Definition item_bytes (d : list byte) (it : nbu_item) : list byte :=
  take (Z.to_nat (item_len it)) (drop (Z.to_nat (item_pos it)) d).

(** The item is not empty and lies in the file with content [d]. *)
Definition item_within (d : list byte) (it : nbu_item) : Prop :=
  0 <= item_pos it /\ 0 < item_len it /\ item_end it <= Z.of_nat (length d).

(** [malloc] gives the buffer of the item to the raw export. *)
Definition item_allocated (w : world) (it : nbu_item) : Prop :=
  w_malloc w (item_len it) = true.

(** The item is empty or runs over the end of the file with content
    [d]. *)
Definition item_short (d : list byte) (it : nbu_item) : Prop :=
  0 <= item_pos it <= LONG_MAX
  /\ (item_len it = 0 \/ Z.of_nat (length d) < item_end it).

(** The item holds whole UTF-16 units and lies in the file of [c]; it
    may be empty. *)
Definition text_item_within (c : nbu_ctx) (it : nbu_item) : Prop :=
  0 <= item_pos it /\ 0 <= item_len it /\ item_len it mod 2 = 0
  /\ item_end it <= file_size c.

(** The UTF-8 text of an item of UTF-16 units in the file of [c]. *)
Definition item_text (c : nbu_ctx) (it : nbu_item) : list byte :=
  map byte_of_Z
    (utf8_bytes
       (utf16_codepoints
          (utf16_at c (item_pos it) (Z.to_nat (item_len it / 2))))).

(** The name of the file of the memo with number [i]. *)
Definition memo_name (i : Z) : string :=
  NBU_MEMOS_DIR +:+ "/memo-" +:+ decimal i +:+ ".txt".

(** The elements of a list with their numbers, from [i] on. *)
Fixpoint numbered {X} (i : Z) (l : list X) : list (Z * X) :=
  match l with
  | [] => []
  | x :: l' => (i, x) :: numbered (i + 1) l'
  end.

(** The destination [fs] with the files of the numbered memos [l],
    each holding the text of its memo. *)
Definition memo_files (dfd : string) (c : nbu_ctx) (l : list (Z * nbu_item))
    (fs : gmap string node) : gmap string node :=
  fold_left
    (fun fs p => <[path_at dfd (memo_name (fst p)) := File (item_text c (snd p))]> fs)
    l fs.

(** The items that are exported as they are: the calendar and the
    contacts. *)
Definition raw_items (c : nbu_ctx) : list nbu_item :=
  default [] (calendar c) ++ default [] (contacts c).

(** The one failure of the export that prints nothing: no memory for the
    buffer of one of the raw items. *)
Definition silent_failure (w : world) : Prop :=
  exists item, In item (raw_items (w_ctx w))
               /\ w_malloc w (item_len item) = false.

(** What a step of the export with result [r] may do to the world, [fd]
    being the file it writes to, if any: move the cursor of the backup
    stream, nothing else of the context; add diagnostics, none for the
    result 0 and, but for the silent failure, at least one for [-1]; and
    leave every path that exists, but [fd], as it is. *)
Definition export_step (fd : option string) (w : world) (r : Z) (w' : world)
    : Prop :=
  (exists q, w_ctx w' = set_pos q (w_ctx w))
  /\ (exists es, w_stderr w' = w_stderr w ++ es
                 /\ (r = 0 /\ es = []
                     \/ r = -1 /\ (es <> [] \/ silent_failure w)))
  /\ (forall p n, Some p <> fd -> w_fs w !! p = Some n ->
                  w_fs w' !! p = Some n)
  /\ w_malloc w' = w_malloc w.

(** A reading function changes the cursor of the stream only, also when
    it fails. *)
Definition cursor_only {A} (m : M A) : Prop :=
  forall c, exists q, result_ctx (m c) = set_pos q c.

(** Every path that [w'] has and [w] has not is one of [allowed]. *)
Definition creates_in (allowed : string -> Prop) (w w' : world) : Prop :=
  forall p, w_fs w !! p = None -> w_fs w' !! p <> None -> allowed p.

(** The paths of an export to the directory [path]: the directory, what
    lies in it, and what lies in its directories of the memos and of the
    messages. *)
Definition export_path (path : string) (p : string) : Prop :=
  p = path \/ dirname p = path
  \/ dirname p = path_at path NBU_MEMOS_DIR
  \/ dirname p = path_at path NBU_MESSAGES_DIR.

(** The string that [nbu_read_utf16] finds at offset [p] of the file of
    [c], with its terminator, and the offset behind it. *)
Definition string_at (c : nbu_ctx) (p : Z) : list Z :=
  utf16_at c (p + 2) (Z.to_nat (peek c p 2)) ++ [0].

Definition string_end (c : nbu_ctx) (p : Z) : Z := p + 2 + 2 * peek c p 2.

(** The length of a memo as [nbu_read_memo] records it: an even number
    of bytes that fits 16 bits. *)
Definition memo_length (it : nbu_item) : Prop :=
  item_len it mod 2 = 0 /\ 0 <= item_len it < 65536.

(** The items of [n] memo records that lie one behind the other from
    the offset [p] on: a record is four bytes, a 16-bit count of UTF-16
    units and the units; its item is the units. *)
Fixpoint memo_records (c : nbu_ctx) (p : Z) (n : nat) : list nbu_item :=
  match n with
  | O => []
  | S n' =>
    let len := 2 * peek c (p + 4) 2 in
    {| item_pos := p + 6; item_len := len |}
    :: memo_records c (p + 6 + len) n'
  end.

(** The [n] memo records from [p] on can be read: the six leading bytes
    of each are in the file and no count exceeds half of [UINT16_MAX]. *)
Fixpoint memos_fit (c : nbu_ctx) (p : Z) (n : nat) : Prop :=
  match n with
  | O => True
  | S n' =>
    p + 6 <= file_size c /\ peek c (p + 4) 2 <= UINT16_MAX / 2
    /\ memos_fit c (p + 6 + 2 * peek c (p + 4) 2) n'
  end.

(** The failures that reading a backup can report. *)
Definition parse_error (e : nbu_error) : Prop :=
  e = Unexpected_end_of_file \/ e = Fseek_failed \/ e = Ftell_failed
  \/ e = Section_contains_folders \/ e = Memo_too_large
  \/ e = Unsupported_section.

(** Every successful run of [m] returns a value in [Q]. *)
Definition yields {A} (m : M A) (Q : A -> Prop) : Prop :=
  forall c a c', m c = Ok a c' -> Q a.

(** A string of UTF-16 units as [nbu_read_utf16] returns it: 16-bit
    units, at most 0xffff of them and the terminator. *)
Definition file_string (s : list Z) : Prop :=
  Forall is_uint16 s /\ Z.of_nat (length s) <= 65536.







(** ** Concrete inputs *)

Fixpoint le_bytes (n : nat) (z : Z) : list byte :=
  match n with
  | O => []
  | S n' => byte_of_Z z :: le_bytes n' (z / 256)
  end.

Definition zeros (n : nat) : list byte := replicate n Byte.x00.

(** A header whose info anchor is at offset 8: the pointer at offset 20,
    the file time at 28, five empty strings, twenty skipped bytes; the
    section count follows at offset 66. *)
Definition sample_header : list byte :=
  zeros 20 ++ le_bytes 8 8 ++ le_bytes 8 0 ++ zeros 10 ++ zeros 20.

(** A backup of 122 bytes with one calendar section: the section entry
    at offset 70 declares position 66, its two counts follow at 102, and
    at 66 + 44 = 110 the item table holds one record whose first check
    word is not 0x10 and whose length word says 1000. *)
Definition sample_calendar_overrun : list byte :=
  sample_header ++ le_bytes 4 1
  ++ map byte_of_Z guid_calendar ++ le_bytes 8 66 ++ le_bytes 8 0
  ++ le_bytes 4 1 ++ le_bytes 4 0
  ++ le_bytes 4 1 ++ le_bytes 4 0 ++ le_bytes 4 1000.

(** A backup of 176 bytes with one memos section: the section entry at
    offset 70 declares position 120; the word behind the entry, at 102, is
    0, the word at the declared position is 1, and a memo record of one
    unit lies at 120 + 48 = 168. *)
Definition sample_memos : list byte :=
  sample_header ++ le_bytes 4 1
  ++ map byte_of_Z guid_memos ++ le_bytes 8 120 ++ le_bytes 8 0
  ++ le_bytes 4 0 ++ zeros 14
  ++ le_bytes 4 1 ++ zeros 48 ++ le_bytes 2 1 ++ le_bytes 2 0x48.

(** A backup of 124 bytes with one memos section that declares position
    58: the word behind the entry, at 102, counts two memos, and the memo
    records lie at 58 + 48 = 106: four bytes, the count of units and the
    units, one unit for the first memo and two for the second. *)
Definition sample_two_memos : list byte :=
  sample_header ++ le_bytes 4 1
  ++ map byte_of_Z guid_memos ++ le_bytes 8 58 ++ le_bytes 8 0
  ++ le_bytes 4 2
  ++ zeros 4 ++ le_bytes 2 1 ++ le_bytes 2 0x48
  ++ zeros 4 ++ le_bytes 2 2 ++ le_bytes 2 0x69 ++ le_bytes 2 0x21.

(** The bytes of a calendar entry, with its two line feeds. *)
Definition sample_event : list byte :=
  String.list_byte_of_string "BEGIN:VEVENT" ++ [Byte.x0a]
  ++ String.list_byte_of_string "END:VEVENT" ++ [Byte.x0a].

(** A backup with one calendar section whose item table, at offset 110,
    holds [items]: the count, then for every item the check words 0x10
    and 0, the length and the payload. *)
Definition sample_calendar (items : list (list byte)) : list byte :=
  sample_header ++ le_bytes 4 1
  ++ map byte_of_Z guid_calendar ++ le_bytes 8 66 ++ le_bytes 8 0
  ++ le_bytes 4 (Z.of_nat (length items)) ++ le_bytes 4 0
  ++ le_bytes 4 (Z.of_nat (length items))
  ++ flat_map (fun payload =>
                 le_bytes 4 0x10 ++ le_bytes 4 0
                 ++ le_bytes 4 (Z.of_nat (length payload)) ++ payload) items.

(** A backup with one section whose identifier is not in the table. *)
Definition sample_unknown_section : list byte :=
  sample_header ++ le_bytes 4 1
  ++ zeros 16 ++ le_bytes 8 66 ++ le_bytes 8 0 ++ zeros 8.

End Nbu.

(* ================================================================== *)
(** * Properties *)

(** ** Unicode transcoder *)

Module UtfFacts.
Import Utf.

Lemma SIZE_MAX_val : SIZE_MAX = 18446744073709551615.
Proof. reflexivity. Qed.

Lemma lor_lt_pow2 (a b n : Z) :
  0 <= a < 2 ^ n -> 0 <= b < 2 ^ n -> 0 <= Z.lor a b < 2 ^ n.
Proof.
  intros Ha Hb.
  assert (Hnn : 0 <= Z.lor a b) by (apply Z.lor_nonneg; lia).
  split; [exact Hnn|].
  destruct (Z.eq_dec (Z.lor a b) 0) as [E|E]; [rewrite E; lia|].
  assert (Hn : 0 < n).
  { destruct (Z_lt_le_dec 0 n) as [|Hle]; [assumption|exfalso].
    assert (2 ^ n <= 1).
    { destruct (Z.eq_dec n 0) as [->|]; [simpl; lia|].
      rewrite Z.pow_neg_r by lia. lia. }
    assert (a = 0) by lia. assert (b = 0) by lia. subst. now apply E. }
  apply Z.log2_lt_pow2; [lia|].
  rewrite Z.log2_lor by lia.
  apply Z.max_lub_lt.
  - destruct (Z.eq_dec a 0) as [->|]; [simpl; lia|].
    apply Z.log2_lt_pow2; lia.
  - destruct (Z.eq_dec b 0) as [->|]; [simpl; lia|].
    apply Z.log2_lt_pow2; lia.
Qed.

Lemma land_mask_bounds (a m : Z) : 0 <= m -> 0 <= Z.land a m <= m.
Proof.
  intros Hm. split.
  - apply Z.land_nonneg. now right.
  - destruct (Z.eq_dec m 0) as [->|Hm0]; [rewrite Z.land_0_r; lia|].
    assert (H := Z.add_lor_land (Z.land a m) (Z.ldiff m a)).
    assert (Z.land (Z.land a m) (Z.ldiff m a) = 0) as E.
    { apply Z.bits_inj'. intros k Hk.
      rewrite !Z.land_spec, Z.ldiff_spec, Z.bits_0.
      destruct (Z.testbit a k), (Z.testbit m k); reflexivity. }
    assert (Z.lor (Z.land a m) (Z.ldiff m a) = m) as E2.
    { apply Z.bits_inj'. intros k Hk.
      rewrite Z.lor_spec, Z.land_spec, Z.ldiff_spec.
      destruct (Z.testbit a k), (Z.testbit m k); reflexivity. }
    rewrite E, E2 in H.
    assert (0 <= Z.ldiff m a) by (apply Z.ldiff_nonneg; lia).
    lia.
Qed.

Lemma surrogate_pair_range (hi lo : Z) :
  0x10000 <= utf16_decode_surrogate_pair hi lo <= 0x10ffff.
Proof.
  unfold utf16_decode_surrogate_pair, to_uint32.
  assert (Hh := land_mask_bounds hi 0x3ff ltac:(lia)).
  assert (Hl := land_mask_bounds lo 0x3ff ltac:(lia)).
  rewrite Z.shiftl_mul_pow2 by lia.
  rewrite (Z.mod_small (Z.land hi 1023 * 2 ^ 10)) by lia.
  assert (Hor : 0 <= Z.lor (Z.land hi 1023 * 2 ^ 10) (Z.land lo 1023) < 2 ^ 20)
    by (apply lor_lt_pow2; lia).
  rewrite (Z.mod_small (Z.lor _ _)) by lia.
  rewrite Z.mod_small by lia.
  lia.
Qed.

Lemma high_is_surrogate (u : Z) :
  utf16_is_high_surrogate u = true -> utf16_is_surrogate u = true.
Proof.
  unfold utf16_is_high_surrogate, utf16_is_surrogate.
  rewrite !Z.eqb_eq. intros H.
  replace 0xf800 with (Z.land 0xfc00 0xf800) by reflexivity.
  rewrite Z.land_assoc, H. reflexivity.
Qed.

Lemma utf8_encode_length (cp : Z) :
  Z.of_nat (length (fst (utf8_encode cp))) = snd (utf8_encode cp).
Proof.
  unfold utf8_encode.
  repeat match goal with |- context [if ?b then _ else _] => destruct b end;
    reflexivity.
Qed.

Lemma utf8_encode_range (cp : Z) : 0 <= snd (utf8_encode cp) <= 4.
Proof.
  unfold utf8_encode.
  repeat match goal with |- context [if ?b then _ else _] => destruct b end;
    simpl; lia.
Qed.

Lemma utf8_size_nonneg (cps : list Z) : 0 <= utf8_size cps.
Proof.
  induction cps as [|cp cps IH]; simpl; [lia|].
  pose proof (utf8_encode_range cp). lia.
Qed.

Lemma utf8_bytes_length (cps : list Z) :
  Z.of_nat (length (utf8_bytes cps)) = utf8_size cps.
Proof.
  induction cps as [|cp cps IH]; simpl; [reflexivity|].
  rewrite length_app, Nat2Z.inj_add, IH, utf8_encode_length. reflexivity.
Qed.

Lemma next_units_length (n0 : Z) (rest : list Z) :
  (length (next_units n0 rest) <= length rest)%nat.
Proof.
  destruct rest as [|u rest']; simpl; [lia|].
  destruct (_ =? 2); simpl; lia.
Qed.

Lemma convert_loop_cons (buf : bool) (bufsize u1 : Z) (rest out : list Z)
    (buflen : Z) :
  u1 <> 0 ->
  convert_loop buf bufsize (u1 :: rest) out buflen =
  let cp := fst (utf16_decode u1 (hd 0 rest)) in
  let next := next_units (snd (utf16_decode u1 (hd 0 rest))) rest in
  if negb buf then
    if snd (utf8_encode cp) >? SIZE_MAX - buflen then (out, SIZE_MAX)
    else convert_loop buf bufsize next out (buflen + snd (utf8_encode cp))
  else
    let room := to_size_t (to_size_t (bufsize - buflen) - 1) in
    if (room <? 4) && (snd (utf8_encode cp) >? room) then (out, buflen)
    else convert_loop buf bufsize next (out ++ fst (utf8_encode cp))
           (to_size_t (buflen + snd (utf8_encode cp))).
Proof.
  intros Hu. cbn [convert_loop].
  apply Z.eqb_neq in Hu. rewrite Hu.
  destruct (utf16_decode u1 (hd 0 rest)) as [cp n0]. reflexivity.
Qed.

Lemma utf16_codepoints_cons (u1 : Z) (rest : list Z) :
  u1 <> 0 ->
  utf16_codepoints (u1 :: rest) =
  fst (utf16_decode u1 (hd 0 rest))
  :: utf16_codepoints (next_units (snd (utf16_decode u1 (hd 0 rest))) rest).
Proof.
  intros Hu. cbn [utf16_codepoints].
  apply Z.eqb_neq in Hu. rewrite Hu.
  destruct (utf16_decode u1 (hd 0 rest)) as [cp n0]. reflexivity.
Qed.

Lemma convert_loop_stop (buf : bool) (bufsize : Z) (rest out : list Z)
    (buflen : Z) :
  convert_loop buf bufsize (0 :: rest) out buflen = (out, buflen).
Proof. reflexivity. Qed.

Lemma size_pass_loop (n : nat) :
  forall (bufsize : Z) (utf16 out : list Z) (buflen : Z),
    (length utf16 <= n)%nat ->
    0 <= buflen <= SIZE_MAX ->
    convert_loop false bufsize utf16 out buflen =
    (out, Z.min (buflen + utf8_size (utf16_codepoints utf16)) SIZE_MAX).
Proof.
  induction n as [|n IH]; intros bufsize utf16 out buflen Hlen Hb.
  - destruct utf16; [|simpl in Hlen; lia].
    simpl. f_equal. lia.
  - destruct utf16 as [|u1 rest]; [simpl; f_equal; lia|].
    destruct (Z.eq_dec u1 0) as [->|Hu].
    + simpl. f_equal. lia.
    + rewrite convert_loop_cons, utf16_codepoints_cons by assumption.
      cbn zeta. cbn [negb utf8_size fold_right].
      fold (utf8_size (utf16_codepoints
              (next_units (snd (utf16_decode u1 (hd 0 rest))) rest))).
      set (cp := fst (utf16_decode u1 (hd 0 rest))).
      set (next := next_units _ rest).
      pose proof (utf8_encode_range cp) as Hs.
      pose proof (utf8_size_nonneg (utf16_codepoints next)) as Hr.
      destruct (Z.gtb_spec (snd (utf8_encode cp)) (SIZE_MAX - buflen)).
      * f_equal. lia.
      * rewrite IH.
        -- f_equal. f_equal. lia.
        -- pose proof (next_units_length (snd (utf16_decode u1 (hd 0 rest))) rest).
           simpl in Hlen. subst next. lia.
        -- lia.
Qed.

Lemma fill_pass_loop (n : nat) :
  forall (bufsize : Z) (utf16 out : list Z) (buflen : Z),
    (length utf16 <= n)%nat ->
    0 <= buflen ->
    buflen + utf8_size (utf16_codepoints utf16) + 1 <= bufsize <= SIZE_MAX ->
    convert_loop true bufsize utf16 out buflen =
    (out ++ utf8_bytes (utf16_codepoints utf16),
     buflen + utf8_size (utf16_codepoints utf16)).
Proof.
  induction n as [|n IH]; intros bufsize utf16 out buflen Hlen Hb Hsz.
  - destruct utf16; [|simpl in Hlen; lia].
    simpl. rewrite app_nil_r. f_equal. lia.
  - destruct utf16 as [|u1 rest];
      [simpl; rewrite app_nil_r; f_equal; lia|].
    destruct (Z.eq_dec u1 0) as [->|Hu].
    + simpl. rewrite app_nil_r. f_equal. lia.
    + rewrite convert_loop_cons by assumption.
      rewrite utf16_codepoints_cons in * by assumption.
      cbn zeta. cbn [negb utf8_size utf8_bytes flat_map fold_right] in *.
      fold (utf8_size (utf16_codepoints
              (next_units (snd (utf16_decode u1 (hd 0 rest))) rest))) in *.
      fold (utf8_bytes (utf16_codepoints
              (next_units (snd (utf16_decode u1 (hd 0 rest))) rest))).
      set (cp := fst (utf16_decode u1 (hd 0 rest))) in *.
      set (next := next_units _ rest) in *.
      pose proof (utf8_encode_range cp) as Hs.
      pose proof (utf8_size_nonneg (utf16_codepoints next)) as Hr.
      unfold to_size_t. unfold SIZE_MAX in *.
      rewrite (Z.mod_small (bufsize - buflen)) by lia.
      rewrite (Z.mod_small (bufsize - buflen - 1)) by lia.
      rewrite (Z.mod_small (buflen + _)) by lia.
      replace ((bufsize - buflen - 1 <? 4)
               && (snd (utf8_encode cp) >? bufsize - buflen - 1)) with false.
      2:{ symmetry. apply andb_false_iff. right.
          destruct (Z.gtb_spec (snd (utf8_encode cp)) (bufsize - buflen - 1));
            [lia|reflexivity]. }
      rewrite IH.
      * rewrite <- app_assoc. f_equal. lia.
      * pose proof (next_units_length (snd (utf16_decode u1 (hd 0 rest))) rest).
        simpl in Hlen. subst next. lia.
      * lia.
      * unfold SIZE_MAX. lia.
Qed.

(** C5, as the code has it: a high surrogate followed by a low surrogate
    decodes to a code point from 0x10000 on and reports two units; a
    surrogate that is not completed by a low surrogate decodes to U+FFFD
    and reports zero units (the marker of an invalid sequence, which the
    string conversion steps over as one unit); any other unit decodes to
    itself and reports one unit. *)
Theorem utf16_decode_cases (u1 u2 : Z) :
  (utf16_is_high_surrogate u1 = true -> utf16_is_low_surrogate u2 = true ->
   0x10000 <= fst (utf16_decode u1 u2) <= 0x10ffff
   /\ snd (utf16_decode u1 u2) = 2)
  /\ (utf16_is_surrogate u1 = true ->
      utf16_is_high_surrogate u1 && utf16_is_low_surrogate u2 = false ->
      utf16_decode u1 u2 = (UTF_REPLACEMENT_CHAR, 0)
      /\ next_units (snd (utf16_decode u1 u2)) [u2] = [u2])
  /\ (utf16_is_surrogate u1 = false -> utf16_decode u1 u2 = (u1, 1)).
Proof.
  unfold utf16_decode. repeat split.
  - rewrite (high_is_surrogate u1), H, H0 by assumption. simpl.
    apply surrogate_pair_range.
  - rewrite (high_is_surrogate u1), H, H0 by assumption. simpl.
    apply surrogate_pair_range.
  - rewrite (high_is_surrogate u1), H, H0 by assumption. reflexivity.
  - rewrite H, H0. reflexivity.
  - rewrite H, H0. reflexivity.
  - intros ->. reflexivity.
Qed.

Lemma utf16_decode_cases_witness :
  (0x10000 <= fst (utf16_decode 0xd83d 0xde00) <= 0x10ffff
   /\ snd (utf16_decode 0xd83d 0xde00) = 2)
  /\ utf16_decode 0xdc00 0x41 = (UTF_REPLACEMENT_CHAR, 0)
  /\ utf16_decode 0x20ac 0x41 = (0x20ac, 1).
Proof.
  split; [|split].
  - apply (proj1 (utf16_decode_cases 0xd83d 0xde00)); reflexivity.
  - apply (proj1 (proj2 (utf16_decode_cases 0xdc00 0x41))); reflexivity.
  - apply (proj2 (proj2 (utf16_decode_cases 0x20ac 0x41))); reflexivity.
Defined.

(** C5 as stated fails: for the unpaired surrogate 0xD800 followed by
    0x0041 the decoder reports zero units, not one. *)
Lemma utf16_decode_unpaired_reports_zero :
  utf16_is_surrogate 0xd800 = true
  /\ utf16_is_high_surrogate 0xd800 && utf16_is_low_surrogate 0x41 = false
  /\ fst (utf16_decode 0xd800 0x41) = UTF_REPLACEMENT_CHAR
  /\ snd (utf16_decode 0xd800 0x41) <> 1.
Proof. repeat split. discriminate. Qed.

(** C9: the size pass (NULL destination) returns the byte count of the
    encodings of the decoded code points, saturated at [SIZE_MAX]; when it
    is below [SIZE_MAX], the fill pass into a buffer of that size plus the
    terminator stores exactly those encodings and the terminator, and
    returns the same count. *)
Theorem size_then_fill_consistent (utf16 : list Z) :
  let size := snd (utf16_convert_string_to_utf8 false 0 utf16) in
  let cps := utf16_codepoints utf16 in
  size = Z.min (utf8_size cps) SIZE_MAX
  /\ (size < SIZE_MAX ->
      utf16_convert_string_to_utf8 true (to_size_t (size + 1)) utf16
      = (utf8_bytes cps ++ [0], size)
      /\ Z.of_nat (length (utf8_bytes cps)) = size).
Proof.
  cbn zeta.
  pose proof SIZE_MAX_val as HM.
  pose proof (utf8_size_nonneg (utf16_codepoints utf16)) as Hnn.
  assert (Hsize : snd (utf16_convert_string_to_utf8 false 0 utf16)
                  = Z.min (utf8_size (utf16_codepoints utf16)) SIZE_MAX).
  { unfold utf16_convert_string_to_utf8. cbn [andb].
    rewrite (size_pass_loop (length utf16)) by lia.
    cbn [snd]. rewrite Z.add_0_l. reflexivity. }
  rewrite Hsize. split; [reflexivity|]. intros Hlt.
  rewrite Z.min_l by lia.
  unfold to_size_t. rewrite Z.mod_small by lia.
  unfold utf16_convert_string_to_utf8.
  replace (utf8_size (utf16_codepoints utf16) + 1 =? 0) with false
    by (symmetry; apply Z.eqb_neq; lia).
  cbn [andb].
  rewrite (fill_pass_loop (length utf16)) by lia.
  rewrite Z.add_0_l. cbn [app]. split; [reflexivity|].
  apply utf8_bytes_length.
Qed.

Lemma size_then_fill_consistent_witness :
  utf16_convert_string_to_utf8 true 12 [0x48; 0xd83d; 0xde00; 0xd800; 0x20ac]
  = ([0x48; 0xf0; 0x9f; 0x98; 0x80; 0xef; 0xbf; 0xbd; 0xe2; 0x82; 0xac; 0], 11).
Proof.
  exact (proj1 (proj2 (size_then_fill_consistent
                         [0x48; 0xd83d; 0xde00; 0xd800; 0x20ac])
                  ltac:(vm_compute; reflexivity))).
Defined.

End UtfFacts.

(** ** Primitive reader *)

Module ReaderFacts.
Import UtfFacts.
Import Utf Nbu.

Lemma LONG_MAX_val : LONG_MAX = 9223372036854775807.
Proof. reflexivity. Qed.

Lemma byte_to_Z_range (b : byte) : 0 <= byte_to_Z b < 256.
Proof.
  unfold byte_to_Z. pose proof (Byte.to_N_bounded b). lia.
Qed.

Lemma le_decode_range (bs : list byte) :
  0 <= le_decode bs < 256 ^ Z.of_nat (length bs).
Proof.
  induction bs as [|b bs IH]; [simpl; lia|].
  cbn [le_decode length]. rewrite Nat2Z.inj_succ, Z.pow_succ_r by lia.
  pose proof (byte_to_Z_range b). lia.
Qed.

Lemma peek_range (c : nbu_ctx) (p size : Z) :
  0 <= size -> 0 <= peek c p size < 256 ^ size.
Proof.
  intros Hs. unfold peek.
  set (bs := take _ _).
  pose proof (le_decode_range bs) as H.
  assert (Z.of_nat (length bs) <= size).
  { subst bs. rewrite length_take. lia. }
  assert (256 ^ Z.of_nat (length bs) <= 256 ^ size)
    by (apply Z.pow_le_mono_r; lia).
  lia.
Qed.

(** *** Contexts *)

Lemma set_pos_set_pos (p q : Z) (c : nbu_ctx) :
  set_pos q (set_pos p c) = set_pos q c.
Proof. reflexivity. Qed.

Lemma set_pos_same (c : nbu_ctx) : set_pos (f_pos (fp c)) c = c.
Proof. destruct c as [[d p] ? ? ? ? ? ? ? ? ? ? ? ?]. reflexivity. Qed.

Lemma peek_set_pos (q : Z) (c : nbu_ctx) (p size : Z) :
  peek (set_pos q c) p size = peek c p size.
Proof. reflexivity. Qed.

(** *** The monad *)

Lemma bind_Ok {A B} (m : M A) (k : A -> M B) (c : nbu_ctx) (b : B)
    (c' : nbu_ctx) :
  bind m k c = Ok b c' <-> exists a c1, m c = Ok a c1 /\ k a c1 = Ok b c'.
Proof.
  unfold bind. destruct (m c) as [a c1|e c1].
  - split; [intros H; eauto|]. intros (a' & c2 & E & H). inversion E; subst; assumption.
  - split; [discriminate|]. intros (a' & c2 & E & H). discriminate.
Qed.

Lemma bind_Err {A B} (m : M A) (k : A -> M B) (c : nbu_ctx)
    (e : nbu_error) (c' : nbu_ctx) :
  bind m k c = Err e c' <->
  m c = Err e c' \/ exists a c1, m c = Ok a c1 /\ k a c1 = Err e c'.
Proof.
  unfold bind. destruct (m c) as [a c1|e1 c1].
  - split; [intros H; eauto|]. intros [E|(a' & c2 & E & H)]; [discriminate|].
    inversion E; subst; assumption.
  - split; [intros E; left; inversion E; reflexivity|].
    intros [E|(a' & c2 & E & H)]; [inversion E; reflexivity|discriminate].
Qed.

Lemma bind_step {A B} (m : M A) (k : A -> M B) (c : nbu_ctx) (a : A)
    (c1 : nbu_ctx) :
  m c = Ok a c1 -> bind m k c = k a c1.
Proof. unfold bind. now intros ->. Qed.

Lemma bind_fail {A B} (m : M A) (k : A -> M B) (c : nbu_ctx)
    (e : nbu_error) (c1 : nbu_ctx) :
  m c = Err e c1 -> bind m k c = Err e c1.
Proof. unfold bind. now intros ->. Qed.

Lemma bind_assoc {A B C} (m : M A) (k1 : A -> M B) (k2 : B -> M C)
    (c : nbu_ctx) :
  bind (bind m k1) k2 c = bind m (fun a => bind (k1 a) k2) c.
Proof. unfold bind. destruct (m c); reflexivity. Qed.

Lemma bind_ret {A B} (a : A) (k : A -> M B) (c : nbu_ctx) :
  bind (ret a) k c = k a c.
Proof. reflexivity. Qed.

(** Run the first action of a sequence whose outcome [E] is known. *)
Ltac mstep E :=
  rewrite ?bind_assoc;
  first [ rewrite (bind_step _ _ _ _ _ E) | rewrite (bind_fail _ _ _ _ _ E) ];
  rewrite ?bind_ret.

(** Arithmetic side conditions on positions and the file size. *)
Ltac fsize := unfold file_size in *; cbn in *; lia.

(** *** Reads, seeks and tells *)

Lemma nbu_read_enough (size : Z) (c : nbu_ctx) :
  0 < size -> f_pos (fp c) + size <= file_size c ->
  nbu_read size c =
  Ok (take (Z.to_nat size) (drop (Z.to_nat (f_pos (fp c))) (f_data (fp c))))
     (set_pos (f_pos (fp c) + size) c).
Proof.
  intros Hs Hle. unfold nbu_read.
  destruct (Z.leb_spec size 0); [lia|].
  destruct (Z.leb_spec (f_pos (fp c) + size) (file_size c)); [reflexivity|lia].
Qed.

Lemma nbu_read_short (size : Z) (c : nbu_ctx) :
  file_size c < f_pos (fp c) + size ->
  exists c', nbu_read size c = Err Unexpected_end_of_file c'.
Proof.
  intros Hlt. unfold nbu_read.
  destruct (Z.leb_spec size 0); [eauto|].
  destruct (Z.leb_spec (f_pos (fp c) + size) (file_size c)); [lia|eauto].
Qed.

Lemma nbu_read_inv (size : Z) (c : nbu_ctx) (bs : list byte) (c' : nbu_ctx) :
  nbu_read size c = Ok bs c' ->
  0 < size /\ f_pos (fp c) + size <= file_size c
  /\ bs = take (Z.to_nat size) (drop (Z.to_nat (f_pos (fp c))) (f_data (fp c)))
  /\ c' = set_pos (f_pos (fp c) + size) c.
Proof.
  unfold nbu_read.
  destruct (Z.leb_spec size 0); [discriminate|].
  destruct (Z.leb_spec (f_pos (fp c) + size) (file_size c)); [|discriminate].
  intros E. inversion E; subst. repeat split; lia.
Qed.

Lemma nbu_read_err (size : Z) (c : nbu_ctx) (e : nbu_error) (c' : nbu_ctx) :
  nbu_read size c = Err e c' -> e = Unexpected_end_of_file.
Proof.
  unfold nbu_read.
  repeat match goal with |- context [if ?b then _ else _] => destruct b end;
    intros E; now inversion E.
Qed.

Lemma read_uint_enough (size : Z) (c : nbu_ctx) :
  0 < size -> f_pos (fp c) + size <= file_size c ->
  read_uint size c
  = Ok (peek c (f_pos (fp c)) size) (set_pos (f_pos (fp c) + size) c).
Proof.
  intros Hs Hle. unfold read_uint.
  rewrite (bind_step _ _ _ _ _ (nbu_read_enough size c Hs Hle)). reflexivity.
Qed.

Lemma read_uint_short (size : Z) (c : nbu_ctx) :
  file_size c < f_pos (fp c) + size ->
  exists c', read_uint size c = Err Unexpected_end_of_file c'.
Proof.
  intros Hlt. destruct (nbu_read_short size c Hlt) as [c' E].
  exists c'. unfold read_uint. now rewrite (bind_fail _ _ _ _ _ E).
Qed.

Lemma read_uint_inv (size : Z) (c : nbu_ctx) (v : Z) (c' : nbu_ctx) :
  read_uint size c = Ok v c' ->
  0 < size /\ f_pos (fp c) + size <= file_size c
  /\ v = peek c (f_pos (fp c)) size
  /\ c' = set_pos (f_pos (fp c) + size) c.
Proof.
  unfold read_uint. intros H. apply bind_Ok in H as (bs & c1 & E & H).
  apply nbu_read_inv in E as (Hs & Hle & -> & ->).
  inversion H; subst. repeat split; assumption.
Qed.

Lemma read_uint_err (size : Z) (c : nbu_ctx) (e : nbu_error) (c' : nbu_ctx) :
  read_uint size c = Err e c' -> e = Unexpected_end_of_file.
Proof.
  unfold read_uint. intros H. apply bind_Err in H as [E|(bs & c1 & _ & E)].
  - eapply nbu_read_err; eassumption.
  - discriminate.
Qed.

Lemma nbu_seek_cur_ok (offset : Z) (c : nbu_ctx) :
  0 <= f_pos (fp c) + offset <= LONG_MAX ->
  nbu_seek offset SEEK_CUR c = Ok tt (set_pos (f_pos (fp c) + offset) c).
Proof.
  intros H. unfold nbu_seek.
  destruct (Z.leb_spec 0 (f_pos (fp c) + offset)); [|lia].
  destruct (Z.leb_spec (f_pos (fp c) + offset) LONG_MAX); [reflexivity|lia].
Qed.

Lemma nbu_seek_set_ok (offset : Z) (c : nbu_ctx) :
  0 <= offset <= LONG_MAX ->
  nbu_seek offset SEEK_SET c = Ok tt (set_pos offset c).
Proof.
  intros H. unfold nbu_seek.
  destruct (Z.leb_spec 0 offset); [|lia].
  destruct (Z.leb_spec offset LONG_MAX); [reflexivity|lia].
Qed.

Lemma nbu_seek_inv (offset : Z) (w : whence) (c : nbu_ctx) (u : unit)
    (c' : nbu_ctx) :
  nbu_seek offset w c = Ok u c' ->
  let target := match w with
                | SEEK_SET => offset
                | SEEK_CUR => f_pos (fp c) + offset
                end in
  0 <= target <= LONG_MAX /\ c' = set_pos target c.
Proof.
  unfold nbu_seek. cbn zeta.
  set (target := match w with SEEK_SET => _ | SEEK_CUR => _ end).
  destruct (Z.leb_spec 0 target); [|discriminate].
  destruct (Z.leb_spec target LONG_MAX); [|discriminate].
  intros E. inversion E; subst. split; [lia|reflexivity].
Qed.

Lemma nbu_seek_err (offset : Z) (w : whence) (c : nbu_ctx) (e : nbu_error)
    (c' : nbu_ctx) :
  nbu_seek offset w c = Err e c' -> e = Fseek_failed /\ c' = c.
Proof.
  unfold nbu_seek.
  match goal with |- context [if ?b then _ else _] => destruct b end;
    intros E; now inversion E.
Qed.

Lemma nbu_tell_ok (c : nbu_ctx) :
  0 <= f_pos (fp c) -> nbu_tell c = Ok (f_pos (fp c)) c.
Proof.
  intros H. unfold nbu_tell. cbn zeta.
  destruct (Z.eqb_spec (f_pos (fp c)) (-1)); [lia|reflexivity].
Qed.

Lemma nbu_tell_inv (c : nbu_ctx) (p : Z) (c' : nbu_ctx) :
  nbu_tell c = Ok p c' -> p = f_pos (fp c) /\ c' = c.
Proof.
  unfold nbu_tell. cbn zeta.
  destruct (Z.eqb_spec (f_pos (fp c)) (-1)); [discriminate|].
  intros E. now inversion E.
Qed.

Lemma nbu_tell_err (c : nbu_ctx) (e : nbu_error) (c' : nbu_ctx) :
  nbu_tell c = Err e c' -> e = Ftell_failed /\ f_pos (fp c) = -1.
Proof.
  unfold nbu_tell. cbn zeta.
  destruct (Z.eqb_spec (f_pos (fp c)) (-1)); [|discriminate].
  intros E. inversion E; subst. split; [reflexivity|assumption].
Qed.

(** *** UTF-16 strings *)

Lemma utf16_at_S (c : nbu_ctx) (p : Z) (n : nat) :
  utf16_at c p (S n) = peek c p 2 :: utf16_at c (p + 2) n.
Proof.
  unfold utf16_at. cbn [seq map]. f_equal.
  - f_equal. lia.
  - rewrite <- seq_shift, map_map. apply map_ext. intros i. f_equal. lia.
Qed.

Lemma utf16_at_length (c : nbu_ctx) (p : Z) (n : nat) :
  length (utf16_at c p n) = n.
Proof. unfold utf16_at. now rewrite length_map, length_seq. Qed.

Lemma read_units_enough (n : nat) :
  forall (c : nbu_ctx) (acc : list Z),
    0 <= f_pos (fp c) ->
    f_pos (fp c) + 2 * Z.of_nat n <= file_size c ->
    for_loop n (fun utf16 => u <- nbu_read_uint16 ;; ret (utf16 ++ [u])) acc c
    = Ok (acc ++ utf16_at c (f_pos (fp c)) n)
         (set_pos (f_pos (fp c) + 2 * Z.of_nat n) c).
Proof.
  induction n as [|n IH]; intros c acc Hp Hle.
  - cbn [for_loop]. unfold ret, utf16_at. cbn [seq map].
    rewrite app_nil_r, Z.add_0_r, set_pos_same. reflexivity.
  - cbn [for_loop].
    assert (E : nbu_read_uint16 c
                = Ok (peek c (f_pos (fp c)) 2) (set_pos (f_pos (fp c) + 2) c))
      by (apply (read_uint_enough 2); lia).
    mstep E. rewrite IH.
    + cbn [fp set_pos set_fp f_pos f_data]. rewrite utf16_at_S.
      rewrite <- app_assoc. cbn [app].
      f_equal. unfold set_pos, set_fp. cbn. f_equal. f_equal. lia.
    + cbn. lia.
    + cbn -[Z.of_nat Z.mul] in *. unfold file_size in *. cbn in *. lia.
Qed.

Lemma read_units_short (n : nat) :
  forall (c : nbu_ctx) (acc : list Z),
    (0 < n)%nat -> 0 <= f_pos (fp c) ->
    file_size c < f_pos (fp c) + 2 * Z.of_nat n ->
    exists c',
      for_loop n (fun utf16 => u <- nbu_read_uint16 ;; ret (utf16 ++ [u])) acc c
      = Err Unexpected_end_of_file c'.
Proof.
  induction n as [|n IH]; intros c acc Hn Hp Hlt; [lia|].
  cbn [for_loop].
  destruct (Z_le_gt_dec (f_pos (fp c) + 2) (file_size c)) as [Hle|Hgt].
  - assert (E : nbu_read_uint16 c
                = Ok (peek c (f_pos (fp c)) 2) (set_pos (f_pos (fp c) + 2) c))
      by (apply (read_uint_enough 2); lia).
    mstep E. apply IH.
    + unfold file_size in *. cbn in *. lia.
    + cbn. lia.
    + unfold file_size in *. cbn in *. lia.
  - destruct (read_uint_short 2 c ltac:(lia)) as [c' E].
    exists c'. mstep E. reflexivity.
Qed.

Lemma read_units_err (n : nat) :
  forall (c : nbu_ctx) (acc : list Z) (e : nbu_error) (c' : nbu_ctx),
    for_loop n (fun utf16 => u <- nbu_read_uint16 ;; ret (utf16 ++ [u])) acc c
    = Err e c' -> e = Unexpected_end_of_file.
Proof.
  induction n as [|n IH]; intros c acc e c' H; [discriminate|].
  cbn [for_loop] in H. apply bind_Err in H as [H|(a & c1 & _ & H)].
  - apply bind_Err in H as [H|(u & c1 & _ & H)]; [|discriminate].
    eapply (read_uint_err 2); eassumption.
  - eapply IH; eassumption.
Qed.

(** The outcome of [nbu_read_utf16_n] for a length that is not
    [SIZE_MAX]. *)
Lemma nbu_read_utf16_n_enough (len : Z) (c : nbu_ctx) :
  0 <= len < SIZE_MAX -> 0 <= f_pos (fp c) ->
  f_pos (fp c) + 2 * len <= file_size c ->
  nbu_read_utf16_n len c
  = Ok (utf16_at c (f_pos (fp c)) (Z.to_nat len) ++ [0])
       (set_pos (f_pos (fp c) + 2 * len) c).
Proof.
  intros Hlen Hp Hle. unfold nbu_read_utf16_n.
  destruct (Z.eqb_spec len SIZE_MAX); [lia|].
  pose proof (read_units_enough (Z.to_nat len) c [] Hp ltac:(lia)) as E.
  mstep E. unfold ret. cbn [app]. rewrite Z2Nat.id by lia. reflexivity.
Qed.

Lemma nbu_read_utf16_n_short (len : Z) (c : nbu_ctx) :
  0 < len < SIZE_MAX -> 0 <= f_pos (fp c) ->
  file_size c < f_pos (fp c) + 2 * len ->
  exists c', nbu_read_utf16_n len c = Err Unexpected_end_of_file c'.
Proof.
  intros Hlen Hp Hlt. unfold nbu_read_utf16_n.
  destruct (Z.eqb_spec len SIZE_MAX); [lia|].
  destruct (read_units_short (Z.to_nat len) c [] ltac:(lia) Hp ltac:(lia))
    as [c' E].
  exists c'. mstep E. reflexivity.
Qed.

Lemma nbu_read_utf16_enough (c : nbu_ctx) :
  let p := f_pos (fp c) in
  let len := peek c p 2 in
  0 <= p -> p + 2 + 2 * len <= file_size c ->
  nbu_read_utf16 c
  = Ok (utf16_at c (p + 2) (Z.to_nat len) ++ [0]) (set_pos (p + 2 + 2 * len) c).
Proof.
  cbn zeta. intros Hp Hle.
  pose proof (peek_range c (f_pos (fp c)) 2 ltac:(lia)) as Hr.
  pose proof SIZE_MAX_val.
  unfold nbu_read_utf16.
  assert (E : nbu_read_uint16 c
              = Ok (peek c (f_pos (fp c)) 2) (set_pos (f_pos (fp c) + 2) c))
    by (apply (read_uint_enough 2); lia).
  mstep E.
  rewrite nbu_read_utf16_n_enough.
  - cbn [fp set_pos set_fp f_pos f_data]. f_equal.
  - lia.
  - cbn. lia.
  - unfold file_size in *. cbn in *. lia.
Qed.

Lemma nbu_read_utf16_err (c : nbu_ctx) (e : nbu_error) (c' : nbu_ctx) :
  nbu_read_utf16 c = Err e c' -> e = Unexpected_end_of_file.
Proof.
  unfold nbu_read_utf16. intros H.
  apply bind_Err in H as [H|(len & c1 & E & H)].
  - eapply (read_uint_err 2); eassumption.
  - apply (read_uint_inv 2) in E as (_ & _ & -> & ->).
    pose proof (peek_range c (f_pos (fp c)) 2 ltac:(lia)) as Hr.
    pose proof SIZE_MAX_val.
    unfold nbu_read_utf16_n in H.
    destruct (Z.eqb_spec (peek c (f_pos (fp c)) 2) SIZE_MAX); [lia|].
    apply bind_Err in H as [H|(a & c2 & _ & H)]; [|discriminate].
    eapply read_units_err; eassumption.
Qed.

(** C4, as the code has it: the guard of the string read compares the
    count with [SIZE_MAX], which no 16-bit prefix reaches, so the read of
    a length-prefixed string never fails as "string too long".  For every
    prefix [len] from 0 to 0xFFFF, when the [2 * len] bytes of the units
    are in the file the read returns the [len] units followed by a NUL and
    leaves the stream behind them; when they are not, it fails with an
    unexpected end of file. *)
Theorem nbu_read_utf16_by_count (c : nbu_ctx) :
  let p := f_pos (fp c) in
  let len := peek c p 2 in
  0 <= p -> p + 2 <= file_size c ->
  0 <= len <= 0xffff
  /\ (forall c', nbu_read_utf16 c <> Err String_too_long c')
  /\ (p + 2 + 2 * len <= file_size c ->
      nbu_read_utf16 c
      = Ok (utf16_at c (p + 2) (Z.to_nat len) ++ [0])
           (set_pos (p + 2 + 2 * len) c)
      /\ length (utf16_at c (p + 2) (Z.to_nat len)) = Z.to_nat len)
  /\ (file_size c < p + 2 + 2 * len ->
      exists c', nbu_read_utf16 c = Err Unexpected_end_of_file c').
Proof.
  cbn zeta. intros Hp Hle.
  pose proof (peek_range c (f_pos (fp c)) 2 ltac:(lia)) as Hr.
  pose proof SIZE_MAX_val.
  split; [lia|]. split; [|split].
  - intros c' E. apply nbu_read_utf16_err in E. discriminate.
  - intros Hend. split; [|apply utf16_at_length].
    apply nbu_read_utf16_enough; assumption.
  - intros Hend. unfold nbu_read_utf16.
    assert (E : nbu_read_uint16 c
                = Ok (peek c (f_pos (fp c)) 2) (set_pos (f_pos (fp c) + 2) c))
      by (apply (read_uint_enough 2); lia).
    destruct (nbu_read_utf16_n_short (peek c (f_pos (fp c)) 2)
                (set_pos (f_pos (fp c) + 2) c)) as [c' E'].
    + lia.
    + cbn. lia.
    + unfold file_size in *. cbn in *. lia.
    + exists c'. mstep E. exact E'.
Qed.

Lemma nbu_read_utf16_by_count_witness :
  nbu_read_utf16 (nbu_ctx_init (le_bytes 2 3 ++ le_bytes 2 0x48
                                ++ le_bytes 2 0x20ac ++ le_bytes 2 0x21))
  = Ok [0x48; 0x20ac; 0x21; 0]
       (set_pos 8 (nbu_ctx_init (le_bytes 2 3 ++ le_bytes 2 0x48
                                 ++ le_bytes 2 0x20ac ++ le_bytes 2 0x21))).
Proof.
  exact (proj1 (proj1 (proj2 (proj2
    (nbu_read_utf16_by_count
       (nbu_ctx_init (le_bytes 2 3 ++ le_bytes 2 0x48
                      ++ le_bytes 2 0x20ac ++ le_bytes 2 0x21))
       ltac:(vm_compute; discriminate) ltac:(vm_compute; discriminate))))
    ltac:(vm_compute; discriminate))).
Defined.

(** C4 as stated fails: on a stream whose prefix is 0xFFFF and which holds
    the 65535 units, the read succeeds, it does not fail as "string too
    long". *)
Lemma nbu_read_utf16_count_ffff_succeeds :
  let c := nbu_ctx_init (le_bytes 2 0xffff ++ zeros (Z.to_nat 131070)) in
  peek c 0 2 = 0xffff
  /\ exists s c', nbu_read_utf16 c = Ok s c'
                  /\ Z.of_nat (length s) = 0xffff + 1.
Proof.
  cbn zeta. set (c := nbu_ctx_init _).
  assert (Hpeek : peek c 0 2 = 65535) by (vm_compute; reflexivity).
  assert (Hsize : file_size c = 131072) by (vm_compute; reflexivity).
  split; [exact Hpeek|].
  pose proof (nbu_read_utf16_enough c) as H. cbn zeta in H.
  change (f_pos (fp c)) with 0 in H. rewrite Hpeek, Hsize in H.
  eexists _, _. split; [apply H; lia|].
  rewrite length_app, utf16_at_length. cbn [length]. lia.
Qed.

End ReaderFacts.

(** ** Memos, calendar and contacts handlers *)

Module HandlerFacts.
Import Utf Nbu UtfFacts ReaderFacts.

Lemma bind_modify {B} (f : nbu_ctx -> nbu_ctx) (k : unit -> M B)
    (c : nbu_ctx) :
  bind (modify f) k c = k tt (f c).
Proof. reflexivity. Qed.

Lemma file_size_set_pos (p : Z) (c : nbu_ctx) :
  file_size (set_pos p c) = file_size c.
Proof. reflexivity. Qed.

Lemma file_size_set_memos (l : option (list nbu_item)) (c : nbu_ctx) :
  file_size (set_memos l c) = file_size c.
Proof. reflexivity. Qed.

Lemma peek16_range (c : nbu_ctx) (p : Z) : 0 <= peek c p 2 < 65536.
Proof. exact (peek_range c p 2 ltac:(lia)). Qed.

Lemma peek32_range (c : nbu_ctx) (p : Z) : 0 <= peek c p 4 < 4294967296.
Proof. exact (peek_range c p 4 ltac:(lia)). Qed.

Lemma peek64_range (c : nbu_ctx) (p : Z) :
  0 <= peek c p 8 < 18446744073709551616.
Proof. exact (peek_range c p 8 ltac:(lia)). Qed.

Lemma to_uint16_small (z : Z) : 0 <= z < 65536 -> to_uint16 z = z.
Proof. intros H. unfold to_uint16. apply Z.mod_small. exact H. Qed.

Lemma to_long_small (z : Z) : 0 <= z <= LONG_MAX -> to_long z = z.
Proof.
  intros H. pose proof LONG_MAX_val.
  unfold to_long, to_uint64.
  rewrite Z.mod_small by (change (2 ^ 64) with 18446744073709551616; lia).
  destruct (Z.leb_spec z LONG_MAX); [reflexivity|lia].
Qed.

(** The primitives from a context whose stream is at [q]. *)
Lemma read_uint_at (size q : Z) (c : nbu_ctx) :
  0 < size -> q + size <= file_size c ->
  read_uint size (set_pos q c) = Ok (peek c q size) (set_pos (q + size) c).
Proof. intros Hs Hle. rewrite read_uint_enough by fsize. reflexivity. Qed.

Lemma nbu_tell_at (q : Z) (c : nbu_ctx) :
  0 <= q -> nbu_tell (set_pos q c) = Ok q (set_pos q c).
Proof. intros Hq. rewrite nbu_tell_ok by (cbn; lia). reflexivity. Qed.

Lemma nbu_seek_cur_at (offset q : Z) (c : nbu_ctx) :
  0 <= q + offset <= LONG_MAX ->
  nbu_seek offset SEEK_CUR (set_pos q c) = Ok tt (set_pos (q + offset) c).
Proof. intros H. rewrite nbu_seek_cur_ok by (cbn; lia). reflexivity. Qed.

Lemma nbu_seek_set_at (offset q : Z) (c : nbu_ctx) :
  0 <= offset <= LONG_MAX ->
  nbu_seek offset SEEK_SET (set_pos q c) = Ok tt (set_pos offset c).
Proof. intros H. rewrite nbu_seek_set_ok by lia. reflexivity. Qed.

(** Closes an equation between two outcomes that differ in the writing of
    a position. *)
Ltac same_outcome := repeat (f_equal; try lia).

Lemma start_at {A} (m : M A) (c : nbu_ctx) :
  m c = m (set_pos (f_pos (fp c)) c).
Proof. now rewrite set_pos_same. Qed.

Lemma bind_read_at {B} (size q : Z) (k : Z -> M B) (c : nbu_ctx) :
  0 < size -> q + size <= file_size c ->
  bind (read_uint size) k (set_pos q c)
  = k (peek c q size) (set_pos (q + size) c).
Proof.
  intros Hs Hle. now rewrite (bind_step _ _ _ _ _ (read_uint_at size q c Hs Hle)).
Qed.

Lemma bind_tell_at {B} (q : Z) (k : Z -> M B) (c : nbu_ctx) :
  0 <= q -> bind nbu_tell k (set_pos q c) = k q (set_pos q c).
Proof. intros Hq. now rewrite (bind_step _ _ _ _ _ (nbu_tell_at q c Hq)). Qed.

Lemma bind_seek_cur_at {B} (offset q : Z) (k : unit -> M B) (c : nbu_ctx) :
  0 <= q + offset <= LONG_MAX ->
  bind (nbu_seek offset SEEK_CUR) k (set_pos q c) = k tt (set_pos (q + offset) c).
Proof.
  intros H. now rewrite (bind_step _ _ _ _ _ (nbu_seek_cur_at offset q c H)).
Qed.

Lemma bind_seek_set_at {B} (offset q : Z) (k : unit -> M B) (c : nbu_ctx) :
  0 <= offset <= LONG_MAX ->
  bind (nbu_seek offset SEEK_SET) k (set_pos q c) = k tt (set_pos offset c).
Proof.
  intros H. now rewrite (bind_step _ _ _ _ _ (nbu_seek_set_at offset q c H)).
Qed.

Lemma nbu_read_memo_ok (c : nbu_ctx) (l : list nbu_item) :
  let p := f_pos (fp c) in
  let len := peek c (p + 4) 2 in
  memos c = Some l ->
  0 <= p -> p + 6 <= file_size c -> file_size c <= LONG_MAX ->
  len <= UINT16_MAX / 2 -> p + 6 + 2 * len <= LONG_MAX ->
  nbu_read_memo c
  = Ok tt (set_pos (p + 6 + 2 * len)
             (set_memos (Some (l ++ [{| item_pos := p + 6;
                                        item_len := 2 * len |}])) c)).
Proof.
  cbn zeta. intros Hm Hp Hle Hmax Hlen Hend.
  pose proof LONG_MAX_val as HL.
  pose proof (peek16_range c (f_pos (fp c) + 4)) as Hr.
  assert (E1 : nbu_seek 4 SEEK_CUR c = Ok tt (set_pos (f_pos (fp c) + 4) c))
    by (apply nbu_seek_cur_ok; lia).
  assert (E2 : nbu_read_uint16 (set_pos (f_pos (fp c) + 4) c)
               = Ok (peek c (f_pos (fp c) + 4) 2)
                    (set_pos (f_pos (fp c) + 4 + 2) c)).
  { unfold nbu_read_uint16. rewrite read_uint_enough by fsize. reflexivity. }
  assert (Hhalf : UINT16_MAX / 2 = 32767) by reflexivity.
  unfold nbu_read_memo. mstep E1. mstep E2.
  destruct (Z.gtb_spec (peek c (f_pos (fp c) + 4) 2) (UINT16_MAX / 2));
    [lia|].
  assert (E3 : nbu_tell (set_pos (f_pos (fp c) + 4 + 2) c)
               = Ok (f_pos (fp c) + 4 + 2) (set_pos (f_pos (fp c) + 4 + 2) c))
    by (apply nbu_tell_ok; cbn; lia).
  mstep E3. rewrite bind_modify.
  rewrite Hhalf in *.
  rewrite to_uint16_small by lia.
  rewrite nbu_seek_cur_ok by (cbn; lia).
  cbn [memos set_pos set_fp]. rewrite Hm. cbn [insert_tail].
  f_equal. unfold set_pos, set_memos, set_fp. cbn.
  repeat (f_equal; try lia).
Qed.

Lemma peek_data (c c0 : nbu_ctx) (p size : Z) :
  f_data (fp c0) = f_data (fp c) -> peek c0 p size = peek c p size.
Proof. unfold peek. now intros ->. Qed.

Lemma memo_records_data (c c0 : nbu_ctx) (n : nat) :
  f_data (fp c0) = f_data (fp c) ->
  forall p, memo_records c0 p n = memo_records c p n.
Proof.
  intros Hd. induction n as [|n IH]; intros p; cbn [memo_records];
    [reflexivity|].
  cbn zeta. now rewrite (peek_data c c0) by exact Hd; rewrite IH.
Qed.

Lemma memos_fit_data (c c0 : nbu_ctx) (n : nat) :
  f_data (fp c0) = f_data (fp c) ->
  forall p, memos_fit c0 p n -> memos_fit c p n.
Proof.
  intros Hd. induction n as [|n IH]; intros p; cbn [memos_fit];
    [trivial|].
  unfold file_size. rewrite (peek_data c c0), Hd by exact Hd.
  intros (H1 & H2 & H3). repeat split; [assumption..|]. now apply IH.
Qed.

Lemma memo_loop_reads (n : nat) :
  forall (c : nbu_ctx) (l : list nbu_item),
    memos c = Some l ->
    0 <= f_pos (fp c) -> file_size c + 65536 <= LONG_MAX ->
    memos_fit c (f_pos (fp c)) n ->
    exists c',
      for_loop n (fun _ => nbu_read_memo) tt c = Ok tt c'
      /\ memos c' = Some (l ++ memo_records c (f_pos (fp c)) n)
      /\ f_data (fp c') = f_data (fp c).
Proof.
  induction n as [|n IH]; intros c l Hm Hp Hmax Hfit.
  - exists c. cbn [for_loop memo_records]. rewrite app_nil_r. now split.
  - cbn [memos_fit] in Hfit. destruct Hfit as (Hhead & Hlen & Hfit).
    pose proof (peek16_range c (f_pos (fp c) + 4)) as Hr.
    assert (UINT16_MAX / 2 = 32767) as Hhalf by reflexivity.
    cbn [for_loop].
    rewrite (bind_step _ _ _ _ _
               (nbu_read_memo_ok c l Hm Hp Hhead ltac:(lia) Hlen ltac:(lia))).
    set (item := {| item_pos := f_pos (fp c) + 6;
                    item_len := 2 * peek c (f_pos (fp c) + 4) 2 |}).
    set (c1 := set_pos _ _).
    destruct (IH c1 (l ++ [item])) as (c' & Hrun & Hmemos & Hdata).
    + reflexivity.
    + cbn. lia.
    + exact Hmax.
    + apply (memos_fit_data c1 c); [reflexivity|]. exact Hfit.
    + exists c'. split; [exact Hrun|]. split; [|exact Hdata].
      rewrite Hmemos, <- app_assoc. cbn [memo_records app]. cbn zeta.
      f_equal. f_equal. f_equal. now apply memo_records_data.
Qed.

(** C8: the memos section.  In a memo record whose six leading bytes
    are in the file, the handler skips four bytes and reads a 16-bit count
    of UTF-16 units; it fails with "memo too large" exactly when the count
    exceeds [UINT16_MAX / 2]; otherwise the list of the memos has one more
    item at its end, at the position behind the count and with a byte
    length of twice the count, and the stream lies that many bytes behind
    the count; nothing else changes.  The loop over the memos starts at
    the section's position plus 48: when the records from there on can be
    read, the section handler succeeds and the list of the memos holds
    their items, in the order of the file. *)
Theorem nbu_read_memo_spec (c : nbu_ctx) :
  let p := f_pos (fp c) in
  0 <= p -> file_size c <= LONG_MAX ->
  (p + 6 <= file_size c ->
   let len := peek c (p + 4) 2 in
   ((exists c', nbu_read_memo c = Err Memo_too_large c')
    <-> len > UINT16_MAX / 2)
   /\ (len <= UINT16_MAX / 2 -> p + 6 + 2 * len <= LONG_MAX ->
       forall l, memos c = Some l ->
       exists c',
         nbu_read_memo c = Ok tt c'
         /\ memos c'
            = Some (l ++ [{| item_pos := p + 6; item_len := 2 * len |}])
         /\ f_pos (fp c') = p + 6 + 2 * len
         /\ c' = set_pos (f_pos (fp c')) (set_memos (memos c') c)))
  /\ (forall section_pos,
        let n := Z.to_nat (peek c p 4) in
        p + 4 <= file_size c ->
        0 <= section_pos -> section_pos + 48 <= LONG_MAX ->
        file_size c + 65536 <= LONG_MAX ->
        memos_fit c (section_pos + 48) n ->
        exists c',
          nbu_read_memos_section section_pos c = Ok tt c'
          /\ memos c' = Some (memo_records c (section_pos + 48) n)
          /\ f_pos (fp c') = p + 8).
Proof.
  cbn zeta. intros Hp Hmax.
  pose proof LONG_MAX_val as HL. split.
  - intros Hle.
    pose proof (peek16_range c (f_pos (fp c) + 4)) as Hr.
    assert (E1 : nbu_seek 4 SEEK_CUR c = Ok tt (set_pos (f_pos (fp c) + 4) c))
      by (apply nbu_seek_cur_ok; lia).
    assert (E2 : nbu_read_uint16 (set_pos (f_pos (fp c) + 4) c)
                 = Ok (peek c (f_pos (fp c) + 4) 2)
                      (set_pos (f_pos (fp c) + 4 + 2) c)).
    { unfold nbu_read_uint16. rewrite read_uint_enough by fsize.
      reflexivity. }
    split.
    + unfold nbu_read_memo. mstep E1. mstep E2.
      destruct (Z.gtb_spec (peek c (f_pos (fp c) + 4) 2) (UINT16_MAX / 2))
        as [Hgt|Hngt].
      * split; [lia|]. intros _. eexists. reflexivity.
      * split; [|lia]. intros [c' E].
        apply bind_Err in E as [E|(q & c1 & Et & E)].
        -- apply nbu_tell_err in E as [E _]. discriminate.
        -- rewrite bind_modify in E. apply nbu_seek_err in E as [E _].
           discriminate.
    + intros Hlen Hend l Hm. eexists. split.
      * now apply (nbu_read_memo_ok c l).
      * cbn [memos set_memos set_pos set_fp fp f_pos]. repeat split.
  - intros section_pos Hle4 Hs Hs48 Hroom Hfit.
    unfold nbu_read_memos_section. rewrite bind_modify.
    assert (E3 : nbu_read_uint32 (set_memos (Some []) c)
                 = Ok (peek c (f_pos (fp c)) 4)
                      (set_pos (f_pos (fp c) + 4) (set_memos (Some []) c)))
      by (unfold nbu_read_uint32; rewrite read_uint_enough by fsize;
          reflexivity).
    mstep E3.
    assert (E4 : nbu_tell (set_pos (f_pos (fp c) + 4) (set_memos (Some []) c))
                 = Ok (f_pos (fp c) + 4)
                      (set_pos (f_pos (fp c) + 4) (set_memos (Some []) c)))
      by (apply nbu_tell_ok; cbn; lia).
    mstep E4. cbn zeta.
    rewrite to_long_small by lia.
    assert (E5 : nbu_seek (section_pos + 48) SEEK_SET
                   (set_pos (f_pos (fp c) + 4) (set_memos (Some []) c))
                 = Ok tt (set_pos (section_pos + 48) (set_memos (Some []) c)))
      by (rewrite nbu_seek_set_ok by lia; reflexivity).
    mstep E5.
    destruct (memo_loop_reads (Z.to_nat (peek c (f_pos (fp c)) 4))
                (set_pos (section_pos + 48) (set_memos (Some []) c)) [])
      as (c1 & Hrun & Hmemos & Hdata).
    + reflexivity.
    + cbn. lia.
    + exact Hroom.
    + apply (memos_fit_data _ c); [reflexivity|exact Hfit].
    + rewrite (bind_step _ _ _ _ _ Hrun).
      rewrite nbu_seek_set_ok by lia.
      eexists. split; [reflexivity|]. cbn [memos set_pos set_fp fp f_pos].
      split; [|lia]. rewrite Hmemos. cbn [app]. f_equal.
      now apply memo_records_data.
Qed.

Lemma nbu_read_memo_spec_witness :
  let c := nbu_ctx_init
             (le_bytes 4 2 ++ zeros 44
              ++ zeros 4 ++ le_bytes 2 1 ++ le_bytes 2 0x48
              ++ zeros 4 ++ le_bytes 2 2 ++ le_bytes 2 0x69
              ++ le_bytes 2 0x21) in
  exists c',
    nbu_read_memos_section 0 c = Ok tt c'
    /\ memos c' = Some [{| item_pos := 54; item_len := 2 |};
                        {| item_pos := 62; item_len := 4 |}]
    /\ f_pos (fp c') = 8.
Proof.
  intros c.
  apply (proj2 (nbu_read_memo_spec c ltac:(vm_compute; discriminate)
                  ltac:(vm_compute; discriminate)) 0).
  - vm_compute. discriminate.
  - lia.
  - vm_compute. discriminate.
  - vm_compute. discriminate.
  - vm_compute. repeat split; discriminate.
Defined.

(** *** Failures of the reading functions *)

Lemma fails_only_bind {A B} (m : M A) (k : A -> M B)
    (E : nbu_error -> Prop) :
  fails_only (fun _ => True) m E ->
  (forall a, fails_only (fun _ => True) (k a) E) ->
  fails_only (fun _ => True) (bind m k) E.
Proof.
  intros Hm Hk c e c' _ H.
  apply bind_Err in H as [H|(a & c1 & _ & H)].
  - eapply Hm; [exact I|eassumption].
  - eapply Hk; [exact I|eassumption].
Qed.

Lemma fails_only_ret {A} (a : A) (E : nbu_error -> Prop) :
  fails_only (fun _ => True) (ret a) E.
Proof. intros c e c' _ H. discriminate. Qed.

Lemma fails_only_modify (f : nbu_ctx -> nbu_ctx) (E : nbu_error -> Prop) :
  fails_only (fun _ => True) (modify f) E.
Proof. intros c e c' _ H. discriminate. Qed.

Lemma fails_only_for_loop {A} (n : nat) (body : A -> M A)
    (E : nbu_error -> Prop) :
  (forall a, fails_only (fun _ => True) (body a) E) ->
  forall a, fails_only (fun _ => True) (for_loop n body a) E.
Proof.
  intros Hb. induction n as [|n IH]; intros a.
  - apply fails_only_ret.
  - cbn [for_loop]. apply fails_only_bind; [apply Hb|exact IH].
Qed.

Lemma read_uint_io (size : Z) : fails_only (fun _ => True) (read_uint size) io_error.
Proof. intros c e c' _ H. apply read_uint_err in H. left. exact H. Qed.

Lemma nbu_seek_io (offset : Z) (w : whence) :
  fails_only (fun _ => True) (nbu_seek offset w) io_error.
Proof.
  intros c e c' _ H. apply nbu_seek_err in H as [-> _]. right. left.
  reflexivity.
Qed.

Lemma nbu_tell_io : fails_only (fun _ => True) nbu_tell io_error.
Proof.
  intros c e c' _ H. apply nbu_tell_err in H as [-> _]. right. right. left.
  reflexivity.
Qed.

Lemma nbu_read_vcard_io (l : list nbu_item) :
  fails_only (fun _ => True) (nbu_read_vcard l) io_error.
Proof.
  unfold nbu_read_vcard.
  apply fails_only_bind; [apply read_uint_io|intros test].
  apply fails_only_bind.
  { destruct (negb (test =? 16)); [apply fails_only_ret|].
    apply fails_only_bind; [apply read_uint_io|intros; apply fails_only_ret]. }
  intros _. apply fails_only_bind; [apply read_uint_io|intros len].
  apply fails_only_bind; [apply nbu_tell_io|intros pos].
  apply fails_only_bind; [apply nbu_seek_io|intros; apply fails_only_ret].
Qed.

Lemma nbu_read_vcards_io (l : list nbu_item) :
  fails_only (fun _ => True) (nbu_read_vcards l) io_error.
Proof.
  unfold nbu_read_vcards.
  apply fails_only_bind; [apply read_uint_io|intros nitems].
  apply fails_only_for_loop. apply nbu_read_vcard_io.
Qed.

Lemma on_error_Err {A} (m : M A) (cleanup : nbu_ctx -> nbu_ctx)
    (c : nbu_ctx) (e : nbu_error) :
  (exists c', on_error m cleanup c = Err e c') <-> (exists c', m c = Err e c').
Proof.
  unfold on_error. destruct (m c) as [a c1|e1 c1].
  - split; intros [c' H]; discriminate.
  - split; intros [c' H]; inversion H; subst; eauto.
Qed.

(** The folder test of [nbu_read_vcard_section] for a list member
    [set_list] that leaves the stream alone. *)
Lemma vcard_section_folders (section_pos : Z)
    (set_list : option (list nbu_item) -> nbu_ctx -> nbu_ctx) (c : nbu_ctx) :
  (forall l c0, fp (set_list l c0) = fp c0) ->
  0 <= f_pos (fp c) -> f_pos (fp c) + 8 <= file_size c ->
  (exists c', nbu_read_vcard_section section_pos set_list c
              = Err Section_contains_folders c')
  <-> peek c (f_pos (fp c) + 4) 4 <> 0.
Proof.
  intros Hset Hp Hle. unfold nbu_read_vcard_section.
  rewrite on_error_Err. rewrite bind_modify.
  set (c0 := set_list (Some []) c).
  assert (Hfp : fp c0 = fp c) by apply Hset.
  assert (Hpeek : forall q n, peek c0 q n = peek c q n)
    by (intros; unfold peek; now rewrite Hfp).
  assert (E1 : nbu_read_uint32 c0
               = Ok (peek c (f_pos (fp c)) 4) (set_pos (f_pos (fp c) + 4) c0)).
  { unfold nbu_read_uint32. rewrite read_uint_enough.
    - now rewrite Hpeek, Hfp.
    - lia.
    - unfold file_size in *. rewrite Hfp. lia. }
  assert (E2 : nbu_read_uint32 (set_pos (f_pos (fp c) + 4) c0)
               = Ok (peek c (f_pos (fp c) + 4) 4)
                    (set_pos (f_pos (fp c) + 8) c0)).
  { unfold nbu_read_uint32. rewrite read_uint_enough.
    - rewrite peek_set_pos, Hpeek, set_pos_set_pos.
      cbn [f_pos fp set_pos set_fp].
      now replace (f_pos (fp c) + 4 + 4) with (f_pos (fp c) + 8) by lia.
    - lia.
    - unfold file_size in *. cbn. rewrite Hfp. lia. }
  mstep E1. mstep E2.
  destruct (Z.eqb_spec (peek c (f_pos (fp c) + 4) 4) 0) as [Hz|Hnz];
    cbn [negb].
  - split; [|intros H; now elim H]. intros [c' H]. exfalso.
    assert (Hio : fails_only (fun _ => True)
              (pos <- nbu_tell ;;
               nbu_seek (to_long (section_pos + 44)) SEEK_SET ;;;
               l <- nbu_read_vcards [] ;;
               modify (set_list (Some l)) ;;;
               nbu_seek pos SEEK_SET) io_error).
    { apply fails_only_bind; [apply nbu_tell_io|intros pos].
      apply fails_only_bind; [apply nbu_seek_io|intros _].
      apply fails_only_bind; [apply nbu_read_vcards_io|intros l].
      apply fails_only_bind; [apply fails_only_modify|intros _].
      apply nbu_seek_io. }
    apply Hio in H; [|exact I].
    destruct H as [H|[H|[H|H]]]; discriminate.
  - split; [intros _; assumption|]. intros _. eexists. reflexivity.
Qed.

(** C7: the calendar and the contacts handler fail with "section
    unexpectedly contains folders" exactly when the second 32-bit word
    they read, the folder count, is not zero (the two words being in the
    file).  In an item record no value of the two check words makes the
    read fail: when the first word is not 0x10 the next word is already
    the length, when it is 0x10 a second word is read, whatever its value,
    before the length; the only failures are those of the stream. *)
Theorem vcard_section_checks (c : nbu_ctx) :
  let p := f_pos (fp c) in
  0 <= p -> file_size c + 2 ^ 32 <= LONG_MAX ->
  (forall section_pos, p + 8 <= file_size c ->
     ((exists c', nbu_read_calendar_section section_pos c
                  = Err Section_contains_folders c')
      <-> peek c (p + 4) 4 <> 0)
     /\ ((exists c', nbu_read_contacts_section section_pos c
                     = Err Section_contains_folders c')
         <-> peek c (p + 4) 4 <> 0))
  /\ (forall l, peek c p 4 <> 0x10 -> p + 8 <= file_size c ->
        nbu_read_vcard l c
        = Ok (l ++ [{| item_pos := p + 8; item_len := peek c (p + 4) 4 |}])
             (set_pos (p + 8 + peek c (p + 4) 4) c))
  /\ (forall l, peek c p 4 = 0x10 -> p + 12 <= file_size c ->
        nbu_read_vcard l c
        = Ok (l ++ [{| item_pos := p + 12; item_len := peek c (p + 8) 4 |}])
             (set_pos (p + 12 + peek c (p + 8) 4) c))
  /\ (forall l e c', nbu_read_vcard l c = Err e c' ->
        e = Unexpected_end_of_file \/ e = Fseek_failed).
Proof.
  cbn zeta. intros Hp Hmax.
  pose proof LONG_MAX_val as HL.
  change (2 ^ 32) with 4294967296 in Hmax.
  split; [|split; [|split]].
  - intros section_pos Hle. split.
    + apply vcard_section_folders; [reflexivity|assumption|assumption].
    + apply vcard_section_folders; [reflexivity|assumption|assumption].
  - intros l Hne Hle. rewrite start_at. unfold nbu_read_vcard, nbu_read_uint32.
    pose proof (peek32_range c (f_pos (fp c) + 4)) as Hr.
    rewrite bind_read_at by fsize.
    destruct (Z.eqb_spec (peek c (f_pos (fp c)) 4) 16); [contradiction|].
    cbn [negb]. rewrite bind_ret.
    rewrite bind_read_at by fsize.
    rewrite bind_tell_at by lia. cbn zeta.
    rewrite bind_seek_cur_at by fsize.
    unfold ret, nbu_add_item. same_outcome.
  - intros l Heq Hle. rewrite start_at. unfold nbu_read_vcard, nbu_read_uint32.
    pose proof (peek32_range c (f_pos (fp c) + 4 + 4)) as Hr.
    rewrite bind_read_at by fsize.
    destruct (Z.eqb_spec (peek c (f_pos (fp c)) 4) 16); [|contradiction].
    cbn [negb]. rewrite bind_assoc.
    rewrite bind_read_at by fsize. rewrite bind_ret.
    rewrite bind_read_at by fsize.
    rewrite bind_tell_at by lia. cbn zeta.
    rewrite bind_seek_cur_at by fsize.
    unfold ret, nbu_add_item. same_outcome.
  - intros l e c' H. unfold nbu_read_vcard in H.
    apply bind_Err in H as [H|(test & c1 & E1 & H)];
      [left; eapply (read_uint_err 4); eassumption|].
    apply (read_uint_inv 4) in E1 as (_ & Hle1 & _ & ->).
    apply bind_Err in H as [H|([] & c2 & E2 & H)].
    { destruct (negb (test =? 16)); [discriminate|].
      apply bind_Err in H as [H|(? & ? & _ & H)]; [|discriminate].
      left; eapply (read_uint_err 4); eassumption. }
    assert (Hp2 : 0 <= f_pos (fp c2)).
    { destruct (negb (test =? 16)).
      - inversion E2; subst. cbn. lia.
      - apply bind_Ok in E2 as (t2 & c3 & E2 & E3).
        apply (read_uint_inv 4) in E2 as (_ & _ & _ & ->).
        inversion E3; subst. cbn. lia. }
    apply bind_Err in H as [H|(len & c3 & E3 & H)];
      [left; eapply (read_uint_err 4); eassumption|].
    apply (read_uint_inv 4) in E3 as (_ & _ & _ & ->).
    apply bind_Err in H as [H|(pos & c4 & E4 & H)].
    { apply nbu_tell_err in H as [_ H]. cbn in H. lia. }
    apply bind_Err in H as [H|(? & ? & _ & H)]; [|discriminate].
    apply nbu_seek_err in H as [-> _]. right. reflexivity.
Qed.

Lemma vcard_section_checks_witness :
  nbu_read_vcard []
    (nbu_ctx_init (le_bytes 4 0x10 ++ le_bytes 4 7 ++ le_bytes 4 3
                   ++ zeros 3))
  = Ok [{| item_pos := 12; item_len := 3 |}]
       (set_pos 15
          (nbu_ctx_init (le_bytes 4 0x10 ++ le_bytes 4 7 ++ le_bytes 4 3
                         ++ zeros 3))).
Proof.
  exact (proj1 (proj2 (proj2
    (vcard_section_checks
       (nbu_ctx_init (le_bytes 4 0x10 ++ le_bytes 4 7 ++ le_bytes 4 3
                      ++ zeros 3))
       ltac:(vm_compute; discriminate) ltac:(vm_compute; discriminate))))
    [] ltac:(vm_compute; reflexivity) ltac:(vm_compute; discriminate)).
Defined.

End HandlerFacts.

(** ** Export engine *)

Module ExportFacts.
Import Utf Nbu UtfFacts ReaderFacts HandlerFacts.

(** C10: an item of odd byte length is refused by the UTF-16 export
    before anything else happens: the call returns [-1], prints "Invalid
    item size" and leaves the stream and the files as they are; so a call
    that returns [0] had an item of even length.  In the memo export,
    which has created the file of the memo before, that file stays
    empty. *)
Theorem odd_item_size_rejected (item : nbu_item) (w : world) :
  (forall fd, item_len item mod 2 <> 0 ->
     nbu_export_utf16_item_to_fd item fd w = (-1, warn Invalid_item_size w))
  /\ (forall fd, fst (nbu_export_utf16_item_to_fd item fd w) = 0 ->
        item_len item mod 2 = 0)
  /\ (forall dfd path fd w1,
        item_len item mod 2 <> 0 -> openat dfd path w = (Some fd, w1) ->
        nbu_export_utf16_item item dfd path w = (-1, warn Invalid_item_size w1)
        /\ w_fs (warn Invalid_item_size w1) !! fd = Some (File [])
        /\ w_ctx (warn Invalid_item_size w1) = w_ctx w).
Proof.
  assert (Hodd : forall fd w0, item_len item mod 2 <> 0 ->
            nbu_export_utf16_item_to_fd item fd w0
            = (-1, warn Invalid_item_size w0)).
  { intros fd w0 H. unfold nbu_export_utf16_item_to_fd.
    destruct (Z.eqb_spec (item_len item mod 2) 0); [contradiction|].
    reflexivity. }
  split; [|split].
  - intros fd H. apply Hodd, H.
  - intros fd H.
    destruct (Z.eq_dec (item_len item mod 2) 0) as [|Hne]; [assumption|].
    rewrite Hodd in H by assumption. discriminate.
  - intros dfd path fd w1 H Hopen. unfold nbu_export_utf16_item.
    rewrite Hopen, Hodd by assumption. cbn [Z.eqb].
    split; [reflexivity|].
    unfold openat in Hopen. cbn zeta in Hopen.
    destruct (name_too_long path); [discriminate|].
    destruct (w_fs w !! path_at dfd path); [discriminate|].
    destruct (is_dir (w_fs w) (dirname (path_at dfd path))); [|discriminate].
    inversion Hopen; subst. cbn. split; [|reflexivity].
    apply lookup_insert_eq.
Qed.

Lemma odd_item_size_rejected_witness :
  nbu_export_utf16_item_to_fd {| item_pos := 0; item_len := 5 |} "out/m"
    {| w_ctx := nbu_ctx_init (zeros 8);
       w_fs := <["out/m" := File []]> ∅; w_stderr := [];
              w_malloc := enough_memory |}
  = (-1, {| w_ctx := nbu_ctx_init (zeros 8);
            w_fs := <["out/m" := File []]> ∅;
            w_stderr := [Invalid_item_size];
            w_malloc := enough_memory |}).
Proof.
  exact (proj1 (odd_item_size_rejected {| item_pos := 0; item_len := 5 |}
                  {| w_ctx := nbu_ctx_init (zeros 8);
                     w_fs := <["out/m" := File []]> ∅; w_stderr := [];
              w_malloc := enough_memory |})
           "out/m" ltac:(vm_compute; discriminate)).
Defined.

(** *** The export never looks at the bookmarks and the MMS folders *)










Lemma warn_ignores (e : nbu_error) (b m : option (list nbu_folder)) (w : world) :
  warn e (world_with_folders b m w) = world_with_folders b m (warn e w).
Proof. reflexivity. Qed.






















(** *** Failure isolation *)

Lemma attempt_all_length {X} (f : X -> world -> Z * world) (xs : list X) :
  forall w, length (fst (attempt_all f xs w)) = length xs.
Proof.
  induction xs as [|x xs IH]; intros w; [reflexivity|].
  cbn [attempt_all]. destruct (f x w) as [r w1].
  specialize (IH w1). destruct (attempt_all f xs w1) as [rs w2].
  cbn [fst length] in *. now rewrite IH.
Qed.

Lemma export_messages_loop_attempts (dfd : string) (l : list nbu_folder) :
  forall ret w,
    export_messages_loop l ret dfd w
    = (if any_failed
            (fst (attempt_all
                    (fun folder =>
                       nbu_export_message_folder folder dfd NBU_MESSAGES_DIR)
                    l w))
       then -1 else ret,
       snd (attempt_all
              (fun folder =>
                 nbu_export_message_folder folder dfd NBU_MESSAGES_DIR) l w)).
Proof.
  induction l as [|folder l IH]; intros ret w; [reflexivity|].
  cbn [export_messages_loop attempt_all].
  destruct (nbu_export_message_folder folder dfd NBU_MESSAGES_DIR w)
    as [r w1].
  rewrite IH.
  destruct (attempt_all _ l w1) as [rs w2]. cbn [fst snd any_failed existsb].
  fold (any_failed rs).
  destruct (r =? -1); cbn [orb]; [|reflexivity].
  destruct (any_failed rs); reflexivity.
Qed.

Lemma export_memos_loop_attempts (dfd : string) (l : list nbu_item) :
  forall i ret w,
    export_memos_loop l i ret dfd w
    = (if any_failed
            (fst (attempt_all
                    (fun p => nbu_export_utf16_item (snd p) dfd
                                (memo_name (fst p)))
                    (numbered i l) w))
       then -1 else ret,
       snd (attempt_all
              (fun p => nbu_export_utf16_item (snd p) dfd (memo_name (fst p)))
              (numbered i l) w)).
Proof.
  induction l as [|item l IH]; intros i ret w; [reflexivity|].
  cbn [export_memos_loop numbered attempt_all fst snd]. cbn zeta.
  change (NBU_MEMOS_DIR +:+ "/memo-" +:+ decimal i +:+ ".txt")
    with (memo_name i).
  destruct (nbu_export_utf16_item item dfd (memo_name i) w) as [r w1].
  rewrite IH.
  destruct (attempt_all _ (numbered (i + 1) l) w1) as [rs w2].
  cbn [fst snd any_failed existsb].
  fold (any_failed rs).
  destruct (r =? -1); cbn [orb]; [|reflexivity].
  destruct (any_failed rs); reflexivity.
Qed.

Lemma numbered_length {X} (l : list X) :
  forall i, length (numbered i l) = length l.
Proof.
  induction l as [|x l IH]; intros i; cbn [numbered length];
    [reflexivity|]. now rewrite IH.
Qed.

Lemma any_failed_In (rs : list Z) : any_failed rs = true <-> In (-1) rs.
Proof.
  unfold any_failed. rewrite existsb_exists. split.
  - intros (r & Hin & Hr). apply Z.eqb_eq in Hr. now subst.
  - intros Hin. exists (-1). split; [assumption|reflexivity].
Qed.

Lemma failed_result (rs : list Z) (ret : Z) :
  ret <> -1 -> (if any_failed rs then -1 else ret) = -1 <-> In (-1) rs.
Proof.
  intros Hret. rewrite <- any_failed_In.
  destruct (any_failed rs); split; (reflexivity || discriminate || tauto).
Qed.

(** C6: the failures of the export.  [nbu_export] first makes and opens
    the destination directory; when it cannot, it returns [-1] at once,
    with the one diagnostic of that failure and without attempting any
    category.  Behind the opening it runs the four categories one after
    the other, each on the world the one before left, whatever that one
    returned, and returns [-1] exactly when one of the four returned
    [-1].  The export of the messages and the export of the memos first
    make their directory; when they cannot, they return [-1] at once and
    attempt no folder and no memo.  Behind it they attempt every folder,
    every memo, in turn, whatever the ones before returned, and return
    [-1] exactly when one of them failed. *)
Theorem export_failure_isolation (dfd : string) (w : world) :
  (forall r1 w1 r2 w2 r3 w3 r4 w4,
     nbu_export_calendar dfd w = (r1, w1) ->
     nbu_export_contacts dfd w1 = (r2, w2) ->
     nbu_export_memos dfd w2 = (r3, w3) ->
     nbu_export_messages dfd w3 = (r4, w4) ->
     snd (export_categories dfd w) = w4
     /\ (fst (export_categories dfd w) = -1
         <-> r1 = -1 \/ r2 = -1 \/ r3 = -1 \/ r4 = -1)
     /\ (fst (export_categories dfd w) = 0
         <-> r1 <> -1 /\ r2 <> -1 /\ r3 <> -1 /\ r4 <> -1))
  /\ (forall path w0,
        (fst (mkdir path w0) = Mkdir_error ->
         nbu_export path w0 = (-1, warn Mkdir_failed (snd (mkdir path w0))))
        /\ (fst (mkdir path w0) <> Mkdir_error ->
            open_directory path (snd (mkdir path w0)) = None ->
            nbu_export path w0 = (-1, warn Open_failed (snd (mkdir path w0))))
        /\ (fst (mkdir path w0) <> Mkdir_error ->
            open_directory path (snd (mkdir path w0)) = Some dfd ->
            nbu_export path w0 = export_categories dfd (snd (mkdir path w0))))
  /\ (forall folder l,
        messages (w_ctx w) = Some (folder :: l) ->
        fst (mkdirat dfd NBU_MESSAGES_DIR w) = Mkdir_error ->
        nbu_export_messages dfd w
        = (-1, warn Mkdirat_failed (snd (mkdirat dfd NBU_MESSAGES_DIR w))))
  /\ (forall folder l,
        messages (w_ctx w) = Some (folder :: l) ->
        fst (mkdirat dfd NBU_MESSAGES_DIR w) <> Mkdir_error ->
        let attempts :=
          attempt_all
            (fun folder => nbu_export_message_folder folder dfd NBU_MESSAGES_DIR)
            (folder :: l) (snd (mkdirat dfd NBU_MESSAGES_DIR w)) in
        length (fst attempts) = length (folder :: l)
        /\ snd (nbu_export_messages dfd w) = snd attempts
        /\ (fst (nbu_export_messages dfd w) = -1
            <-> In (-1) (fst attempts)))
  /\ (forall item l,
        memos (w_ctx w) = Some (item :: l) ->
        fst (mkdirat dfd NBU_MEMOS_DIR w) = Mkdir_error ->
        nbu_export_memos dfd w
        = (-1, warn Mkdirat_failed (snd (mkdirat dfd NBU_MEMOS_DIR w))))
  /\ (forall item l,
        memos (w_ctx w) = Some (item :: l) ->
        fst (mkdirat dfd NBU_MEMOS_DIR w) <> Mkdir_error ->
        let attempts :=
          attempt_all
            (fun p => nbu_export_utf16_item (snd p) dfd (memo_name (fst p)))
            (numbered 1 (item :: l)) (snd (mkdirat dfd NBU_MEMOS_DIR w)) in
        length (fst attempts) = length (item :: l)
        /\ snd (nbu_export_memos dfd w) = snd attempts
        /\ (fst (nbu_export_memos dfd w) = -1
            <-> In (-1) (fst attempts))).
Proof.
  split; [|split; [|split; [|split; [|split]]]].
  - intros r1 w1 r2 w2 r3 w3 r4 w4 E1 E2 E3 E4.
    unfold export_categories. cbn zeta. rewrite E1, E2, E3, E4. cbn [fst snd].
    split; [reflexivity|].
    destruct (Z.eqb_spec r1 (-1)), (Z.eqb_spec r2 (-1)),
      (Z.eqb_spec r3 (-1)), (Z.eqb_spec r4 (-1)); split; intuition lia.
  - intros path w0. unfold nbu_export.
    destruct (mkdir path w0) as [r w1]. cbn [fst snd].
    split; [|split].
    + intros ->. reflexivity.
    + intros Hmk Hopen. rewrite Hopen.
      destruct r; [reflexivity|reflexivity|contradiction].
    + intros Hmk Hopen. rewrite Hopen.
      destruct r; [reflexivity|reflexivity|contradiction].
  - intros folder l Hm Hmk. unfold nbu_export_messages. rewrite Hm.
    destruct (mkdirat dfd NBU_MESSAGES_DIR w) as [r w1]. cbn [fst] in Hmk.
    subst r. reflexivity.
  - intros folder l Hm Hmk. cbn zeta.
    split; [apply attempt_all_length|].
    unfold nbu_export_messages. rewrite Hm.
    destruct (mkdirat dfd NBU_MESSAGES_DIR w) as [r w1]. cbn [fst snd] in *.
    assert (Hloop := export_messages_loop_attempts dfd (folder :: l) 0 w1).
    destruct r; [| |contradiction]; rewrite Hloop; cbn [fst snd];
      (split; [reflexivity|apply failed_result; discriminate]).
  - intros item l Hm Hmk. unfold nbu_export_memos. rewrite Hm.
    destruct (mkdirat dfd NBU_MEMOS_DIR w) as [r w1]. cbn [fst] in Hmk.
    subst r. reflexivity.
  - intros item l Hm Hmk. cbn zeta.
    split; [now rewrite attempt_all_length, numbered_length|].
    unfold nbu_export_memos. rewrite Hm.
    destruct (mkdirat dfd NBU_MEMOS_DIR w) as [r w1]. cbn [fst snd] in *.
    assert (Hloop := export_memos_loop_attempts dfd (item :: l) 1 0 w1).
    destruct r; [| |contradiction]; rewrite Hloop; cbn [fst snd];
      (split; [reflexivity|apply failed_result; discriminate]).
Qed.

(** A message folder named ".." fails, the folder "In" behind it is
    exported all the same, and the message export reports the failure. *)
Lemma export_failure_isolation_witness :
  let item := {| item_pos := 0; item_len := 4 |} in
  let dots := {| folder_name := [0x2e; 0x2e; 0]; folder_items := [item] |} in
  let inbox := {| folder_name := [0x49; 0x6e; 0]; folder_items := [item] |} in
  let w := {| w_ctx := set_messages (Some [dots; inbox])
                         (nbu_ctx_init (le_bytes 2 0x48 ++ le_bytes 2 0x69));
              w_fs := {["out" := Dir]}; w_stderr := [];
              w_malloc := enough_memory |} in
  fst (nbu_export_messages "out" w) = -1
  /\ w_fs (snd (nbu_export_messages "out" w)) !! "out/messages/In.vmg"
     = Some (File (map byte_of_Z [0x48; 0x69]))
  /\ w_stderr (snd (nbu_export_messages "out" w)) = [Invalid_folder_name].
Proof.
  cbn zeta. split; [|split; vm_compute; reflexivity].
  destruct (export_failure_isolation "out"
       {| w_ctx := set_messages
                     (Some [ {| folder_name := [0x2e; 0x2e; 0];
                                folder_items :=
                                  [{| item_pos := 0; item_len := 4 |}] |};
                             {| folder_name := [0x49; 0x6e; 0];
                                folder_items :=
                                  [{| item_pos := 0; item_len := 4 |}] |} ])
                     (nbu_ctx_init (le_bytes 2 0x48 ++ le_bytes 2 0x69));
          w_fs := {["out" := Dir]}; w_stderr := [];
              w_malloc := enough_memory |})
    as (_ & _ & _ & Hfolders & _).
  destruct (Hfolders _ _ eq_refl ltac:(vm_compute; discriminate))
    as (_ & _ & Hiff).
  apply Hiff. vm_compute. left. reflexivity.
Defined.

(** C6 as stated fails: the export to [a/b] in an empty tree returns
    [-1] with one diagnostic, that of [mkdir], although every category
    on its own succeeds on this backup and none has been attempted.  And
    with the calendar holding an item, whose export must fail in that
    tree, the diagnostic of [mkdir] remains the only one: the failure is
    reported before any category is attempted, not behind them. *)
Lemma export_fails_before_the_categories :
  let w := {| w_ctx := nbu_ctx_init []; w_fs := ∅; w_stderr := [];
              w_malloc := enough_memory |} in
  let w' := set_ctx (set_calendar (Some [{| item_pos := 0; item_len := 1 |}])
                       (w_ctx w)) w in
  nbu_export "a/b" w = (-1, warn Mkdir_failed w)
  /\ nbu_export_calendar "a/b" w = (0, w)
  /\ nbu_export_contacts "a/b" w = (0, w)
  /\ nbu_export_memos "a/b" w = (0, w)
  /\ nbu_export_messages "a/b" w = (0, w)
  /\ nbu_export "a/b" w' = (-1, warn Mkdir_failed w')
  /\ nbu_export_calendar "a/b" w' = (-1, warn Openat_failed w').
Proof. vm_compute. repeat split. Qed.

End ExportFacts.

(** ** The parse invariant *)

Module InvariantFacts.
Import Utf Nbu UtfFacts ReaderFacts HandlerFacts.

Lemma on_error_Ok {A} (m : M A) (cleanup : nbu_ctx -> nbu_ctx) (c : nbu_ctx)
    (a : A) (c' : nbu_ctx) :
  on_error m cleanup c = Ok a c' -> m c = Ok a c'.
Proof. unfold on_error. destruct (m c); [trivial|discriminate]. Qed.

Lemma for_loop_invariant {A} (I : A -> nbu_ctx -> Prop) (body : A -> M A) :
  (forall a c a' c', I a c -> body a c = Ok a' c' -> I a' c') ->
  forall n a c a' c', I a c -> for_loop n body a c = Ok a' c' -> I a' c'.
Proof.
  intros Hb. induction n as [|n IH]; intros a c a' c' Hi H.
  - inversion H; subst. exact Hi.
  - cbn [for_loop] in H. apply bind_Ok in H as (a1 & c1 & E & H).
    eapply IH; [|exact H]. eapply Hb; eassumption.
Qed.

(** Takes the first action off a successful sequence. *)
Ltac mfirst H v c E := apply bind_Ok in H as (v & c & E & H).

Section Invariant.

Variable d : list byte.
Variable ok : nbu_item -> Prop.
Hypothesis ok_in_file :
  forall p l, 0 <= p <= Z.of_nat (length d) ->
              ok {| item_pos := p; item_len := l |}.

Abbreviation good := (good d ok).
Abbreviation within := (within d).

Lemma good_set_pos (p : Z) (c : nbu_ctx) :
  good c -> 0 <= p -> good (set_pos p c).
Proof. intros (Hd & Hp & Hi) Hq. repeat split; assumption. Qed.

Lemma nbu_read_good (size : Z) (c : nbu_ctx) (bs : list byte) (c' : nbu_ctx) :
  good c -> nbu_read size c = Ok bs c' -> good c' /\ within c'.
Proof.
  intros Hg H. apply nbu_read_inv in H as (Hs & Hle & _ & ->).
  destruct Hg as (Hd & Hp & Hi).
  split; [apply good_set_pos; [repeat split; assumption|lia]|].
  unfold within, file_size in *. cbn. rewrite <- Hd. lia.
Qed.

Lemma read_uint_good (size : Z) (c : nbu_ctx) (v : Z) (c' : nbu_ctx) :
  good c -> read_uint size c = Ok v c' -> good c' /\ within c'.
Proof.
  intros Hg H. unfold read_uint in H. mfirst H bs c1 E.
  inversion H; subst. eapply nbu_read_good; eassumption.
Qed.

Lemma nbu_seek_good (offset : Z) (w : whence) (c : nbu_ctx) (u : unit)
    (c' : nbu_ctx) :
  good c -> nbu_seek offset w c = Ok u c' -> good c'.
Proof.
  intros Hg H. apply nbu_seek_inv in H as (Ht & ->).
  apply good_set_pos; [assumption|lia].
Qed.

Lemma nbu_read_utf16_n_good (len : Z) (c : nbu_ctx) (s : list Z)
    (c' : nbu_ctx) :
  good c -> nbu_read_utf16_n len c = Ok s c' -> good c'.
Proof.
  intros Hg H. unfold nbu_read_utf16_n in H.
  destruct (len =? SIZE_MAX); [discriminate|].
  mfirst H utf16 c1 E. inversion H; subst.
  eapply (for_loop_invariant (fun _ c => good c)); [|exact Hg|exact E].
  intros a c0 a' c0' Hg0 H0. mfirst H0 u c2 E0. inversion H0; subst.
  eapply read_uint_good; eassumption.
Qed.

Lemma nbu_read_utf16_good (c : nbu_ctx) (s : list Z) (c' : nbu_ctx) :
  good c -> nbu_read_utf16 c = Ok s c' -> good c'.
Proof.
  intros Hg H. unfold nbu_read_utf16 in H. mfirst H len c1 E.
  apply read_uint_good in E as [Hg1 _]; [|assumption].
  eapply nbu_read_utf16_n_good; eassumption.
Qed.

Lemma nbu_read_file_time_good (c : nbu_ctx) (t : Z) (c' : nbu_ctx) :
  good c -> nbu_read_file_time c = Ok t c' -> good c'.
Proof.
  intros Hg H. unfold nbu_read_file_time in H.
  mfirst H hi c1 E1. mfirst H lo c2 E2. inversion H; subst.
  apply read_uint_good in E1 as [Hg1 _]; [|assumption].
  apply read_uint_good in E2 as [Hg2 _]; assumption.
Qed.

Lemma debug_utf8_inv (utf16 : list Z) (c : nbu_ctx) (u : unit) (c' : nbu_ctx) :
  debug_utf8 utf16 c = Ok u c' -> c' = c.
Proof.
  unfold debug_utf8. destruct (nbu_convert_utf16_to_utf8 utf16);
    intros H; inversion H; reflexivity.
Qed.

(** An item recorded at the position told behind a successful read. *)
Lemma told_item_ok (c : nbu_ctx) (len : Z) :
  good c -> within c -> ok {| item_pos := f_pos (fp c); item_len := len |}.
Proof.
  intros (_ & Hp & _) Hw. apply ok_in_file. unfold Nbu.within in Hw. lia.
Qed.

Lemma nbu_read_vcard_good (l : list nbu_item) (c : nbu_ctx)
    (l' : list nbu_item) (c' : nbu_ctx) :
  good c /\ Forall ok l -> nbu_read_vcard l c = Ok l' c' ->
  good c' /\ Forall ok l'.
Proof.
  intros [Hg Hl] H. unfold nbu_read_vcard in H.
  mfirst H test c1 E1. apply read_uint_good in E1 as [Hg1 _]; [|assumption].
  mfirst H u c2 E2.
  assert (Hg2 : good c2).
  { destruct (negb (test =? 16)).
    - inversion E2; subst. assumption.
    - mfirst E2 test2 c3 E3. inversion E2; subst.
      eapply read_uint_good; eassumption. }
  mfirst H len c3 E3. apply read_uint_good in E3 as [Hg3 Hw3]; [|assumption].
  mfirst H pos c4 E4. apply nbu_tell_inv in E4 as [-> ->].
  mfirst H u5 c5 E5. apply nbu_seek_good in E5; [|assumption].
  inversion H; subst. split; [assumption|].
  unfold nbu_add_item. apply Forall_app. split; [assumption|].
  constructor; [|constructor]. apply told_item_ok; assumption.
Qed.

Lemma nbu_read_vcards_good (l : list nbu_item) (c : nbu_ctx)
    (l' : list nbu_item) (c' : nbu_ctx) :
  good c /\ Forall ok l -> nbu_read_vcards l c = Ok l' c' ->
  good c' /\ Forall ok l'.
Proof.
  intros [Hg Hl] H. unfold nbu_read_vcards in H.
  mfirst H nitems c1 E1. apply read_uint_good in E1 as [Hg1 _]; [|assumption].
  eapply (for_loop_invariant (fun l c => good c /\ Forall ok l));
    [|split; eassumption|exact H].
  intros a c0 a' c0'. apply nbu_read_vcard_good.
Qed.

Lemma nbu_read_vcard_folder_good (folder_pos : Z) (c : nbu_ctx)
    (folder : nbu_folder) (c' : nbu_ctx) :
  good c -> nbu_read_vcard_folder folder_pos c = Ok folder c' ->
  good c' /\ Forall ok (folder_items folder).
Proof.
  intros Hg H. unfold nbu_read_vcard_folder in H.
  mfirst H u1 c1 E1. apply nbu_seek_good in E1; [|assumption].
  mfirst H name c2 E2. apply nbu_read_utf16_good in E2; [|assumption].
  mfirst H u3 c3 E3. apply debug_utf8_inv in E3 as ->.
  mfirst H items c4 E4.
  apply nbu_read_vcards_good in E4 as [Hg4 Hi]; [|split; [assumption|constructor]].
  inversion H; subst. split; assumption.
Qed.

Lemma nbu_read_group_folder_good (folder_pos : Z) (c : nbu_ctx)
    (folder : nbu_folder) (c' : nbu_ctx) :
  good c -> nbu_read_group_folder folder_pos c = Ok folder c' ->
  good c' /\ Forall ok (folder_items folder).
Proof.
  intros Hg H. unfold nbu_read_group_folder in H.
  mfirst H u1 c1 E1. apply nbu_seek_good in E1; [|assumption].
  mfirst H name c2 E2. apply nbu_read_utf16_good in E2; [|assumption].
  mfirst H nitems c3 E3. apply read_uint_good in E3 as [Hg3 _]; [|assumption].
  mfirst H u4 c4 E4. apply debug_utf8_inv in E4 as ->.
  inversion H; subst. split; [assumption|constructor].
Qed.

Lemma nbu_read_message_good (l : list nbu_item) (c : nbu_ctx)
    (l' : list nbu_item) (c' : nbu_ctx) :
  good c /\ Forall ok l -> nbu_read_message l c = Ok l' c' ->
  good c' /\ Forall ok l'.
Proof.
  intros [Hg Hl] H. unfold nbu_read_message in H.
  mfirst H u1 c1 E1. apply nbu_seek_good in E1; [|assumption].
  mfirst H len c2 E2. apply read_uint_good in E2 as [Hg2 Hw2]; [|assumption].
  mfirst H pos c3 E3. apply nbu_tell_inv in E3 as [-> ->].
  mfirst H u4 c4 E4. apply nbu_seek_good in E4; [|assumption].
  inversion H; subst. split; [assumption|].
  unfold nbu_add_item. apply Forall_app. split; [assumption|].
  constructor; [|constructor]. apply told_item_ok; assumption.
Qed.

Lemma nbu_read_message_folder_good (folder_pos : Z) (c : nbu_ctx)
    (folder : nbu_folder) (c' : nbu_ctx) :
  good c -> nbu_read_message_folder folder_pos c = Ok folder c' ->
  good c' /\ Forall ok (folder_items folder).
Proof.
  intros Hg H. unfold nbu_read_message_folder in H.
  mfirst H u1 c1 E1. apply nbu_seek_good in E1; [|assumption].
  mfirst H name c2 E2. apply nbu_read_utf16_good in E2; [|assumption].
  mfirst H nitems c3 E3. apply read_uint_good in E3 as [Hg3 _]; [|assumption].
  mfirst H u4 c4 E4. apply debug_utf8_inv in E4 as ->.
  mfirst H items c5 E5. inversion H; subst. cbn [folder_items].
  eapply (for_loop_invariant (fun l c => good c /\ Forall ok l));
    [|split; [eassumption|constructor]|exact E5].
  intros a c0 a' c0'. apply nbu_read_message_good.
Qed.

Lemma nbu_read_mms_good (l : list nbu_item) (c : nbu_ctx)
    (l' : list nbu_item) (c' : nbu_ctx) :
  good c /\ Forall ok l -> nbu_read_mms l c = Ok l' c' ->
  good c' /\ Forall ok l'.
Proof.
  intros [Hg Hl] H. unfold nbu_read_mms in H.
  mfirst H u1 c1 E1. apply nbu_seek_good in E1; [|assumption].
  mfirst H n c2 E2. apply read_uint_good in E2 as [Hg2 _]; [|assumption].
  mfirst H u3 c3 E3.
  assert (Hg3 : good c3).
  { eapply (for_loop_invariant (fun _ c => good c)); [|exact Hg2|exact E3].
    intros a c0 a' c0' Hg0 H0.
    mfirst H0 v1 k1 F1. apply nbu_seek_good in F1; [|assumption].
    mfirst H0 utf16 k2 F2. apply nbu_read_utf16_good in F2; [|assumption].
    apply debug_utf8_inv in H0 as ->. assumption. }
  mfirst H u4 c4 E4. apply nbu_seek_good in E4; [|assumption].
  mfirst H len c5 E5. apply read_uint_good in E5 as [Hg5 Hw5]; [|assumption].
  mfirst H pos c6 E6. apply nbu_tell_inv in E6 as [-> ->].
  mfirst H u7 c7 E7. apply nbu_seek_good in E7; [|assumption].
  inversion H; subst. split; [assumption|].
  unfold nbu_add_item. apply Forall_app. split; [assumption|].
  constructor; [|constructor]. apply told_item_ok; assumption.
Qed.

Lemma nbu_read_mms_folder_good (folder_pos : Z) (c : nbu_ctx)
    (folder : nbu_folder) (c' : nbu_ctx) :
  good c -> nbu_read_mms_folder folder_pos c = Ok folder c' ->
  good c' /\ Forall ok (folder_items folder).
Proof.
  intros Hg H. unfold nbu_read_mms_folder in H.
  mfirst H u1 c1 E1. apply nbu_seek_good in E1; [|assumption].
  mfirst H name c2 E2. apply nbu_read_utf16_good in E2; [|assumption].
  mfirst H nitems c3 E3. apply read_uint_good in E3 as [Hg3 _]; [|assumption].
  mfirst H u4 c4 E4. apply debug_utf8_inv in E4 as ->.
  mfirst H items c5 E5. inversion H; subst. cbn [folder_items].
  eapply (for_loop_invariant (fun l c => good c /\ Forall ok l));
    [|split; [eassumption|constructor]|exact E5].
  intros a c0 a' c0'. apply nbu_read_mms_good.
Qed.

Lemma ctx_items_Forall (c : nbu_ctx) :
  Forall ok (ctx_items c) <->
  Forall ok (folder_list_items (bookmarks c))
  /\ Forall ok (folder_list_items (messages c))
  /\ Forall ok (folder_list_items (mmses c))
  /\ Forall ok (default [] (calendar c))
  /\ Forall ok (default [] (contacts c))
  /\ Forall ok (default [] (memos c)).
Proof. unfold ctx_items. rewrite !Forall_app. tauto. Qed.

(** Proves the invariant of a context that differs from a good one in
    one collection. *)
Ltac good_update Hg :=
  destruct Hg as (?Hd & ?Hp & ?Hi);
  repeat split; [assumption|assumption|];
  apply ctx_items_Forall; apply ctx_items_Forall in Hi;
  cbn [set_bookmarks set_messages set_mmses set_calendar set_contacts
       set_memos bookmarks messages mmses calendar contacts memos];
  tauto.

Lemma good_set_bookmarks (o : option (list nbu_folder)) (c : nbu_ctx) :
  good c -> Forall ok (folder_list_items o) -> good (set_bookmarks o c).
Proof. intros Hg Ho. good_update Hg. Qed.

Lemma good_set_messages (o : option (list nbu_folder)) (c : nbu_ctx) :
  good c -> Forall ok (folder_list_items o) -> good (set_messages o c).
Proof. intros Hg Ho. good_update Hg. Qed.

Lemma good_set_mmses (o : option (list nbu_folder)) (c : nbu_ctx) :
  good c -> Forall ok (folder_list_items o) -> good (set_mmses o c).
Proof. intros Hg Ho. good_update Hg. Qed.

Lemma good_set_calendar (o : option (list nbu_item)) (c : nbu_ctx) :
  good c -> Forall ok (default [] o) -> good (set_calendar o c).
Proof. intros Hg Ho. good_update Hg. Qed.

Lemma good_set_contacts (o : option (list nbu_item)) (c : nbu_ctx) :
  good c -> Forall ok (default [] o) -> good (set_contacts o c).
Proof. intros Hg Ho. good_update Hg. Qed.

Lemma good_set_memos (o : option (list nbu_item)) (c : nbu_ctx) :
  good c -> Forall ok (default [] o) -> good (set_memos o c).
Proof. intros Hg Ho. good_update Hg. Qed.

Lemma good_collections (c : nbu_ctx) :
  good c ->
  Forall ok (folder_list_items (bookmarks c))
  /\ Forall ok (folder_list_items (messages c))
  /\ Forall ok (folder_list_items (mmses c))
  /\ Forall ok (default [] (memos c)).
Proof. intros (_ & _ & Hi). apply ctx_items_Forall in Hi. tauto. Qed.

Lemma insert_tail_folder_ok (folder : nbu_folder)
    (o : option (list nbu_folder)) :
  Forall ok (folder_list_items o) -> Forall ok (folder_items folder) ->
  Forall ok (folder_list_items (insert_tail folder o)).
Proof.
  intros Ho Hf. destruct o as [l|]; [|assumption].
  unfold folder_list_items in *. cbn [insert_tail default from_option id] in *.
  rewrite flat_map_app. apply Forall_app. split; [assumption|].
  cbn [flat_map]. rewrite app_nil_r. assumption.
Qed.

Lemma insert_tail_item_ok (it : nbu_item) (o : option (list nbu_item)) :
  Forall ok (default [] o) -> ok it ->
  Forall ok (default [] (insert_tail it o)).
Proof.
  intros Ho Hi. destruct o as [l|]; [|assumption].
  cbn [insert_tail default from_option id] in *.
  apply Forall_app. split; [assumption|].
  constructor; [assumption|constructor].
Qed.

(** *** The section handlers keep the invariant *)

Lemma nbu_read_vcard_section_good (section_pos : Z)
    (set_list : option (list nbu_item) -> nbu_ctx -> nbu_ctx)
    (c : nbu_ctx) (u : unit) (c' : nbu_ctx) :
  (forall o c0, good c0 -> Forall ok (default [] o) -> good (set_list o c0)) ->
  good c -> nbu_read_vcard_section section_pos set_list c = Ok u c' -> good c'.
Proof.
  intros Hset Hg H. unfold nbu_read_vcard_section in H.
  apply on_error_Ok in H. rewrite bind_modify in H.
  assert (Hg0 : good (set_list (Some []) c)) by (apply Hset; [assumption|constructor]).
  mfirst H nitems c1 E1. apply read_uint_good in E1 as [Hg1 _]; [|assumption].
  mfirst H nfolders c2 E2. apply read_uint_good in E2 as [Hg2 _]; [|assumption].
  destruct (negb (nfolders =? 0)); [discriminate|].
  mfirst H pos c3 E3. apply nbu_tell_inv in E3 as [-> ->].
  mfirst H u4 c4 E4. apply nbu_seek_good in E4; [|assumption].
  mfirst H l c5 E5.
  apply nbu_read_vcards_good in E5 as [Hg5 Hl]; [|split; [assumption|constructor]].
  rewrite bind_modify in H.
  eapply nbu_seek_good; [|exact H]. apply Hset; assumption.
Qed.

(** The body shared by the loops over the folder entries of a section:
    skip the identifier, read the folder position, remember the cursor,
    read the folder, store it, return to the cursor. *)
Lemma folder_entry_good
    (read_folder : Z -> M nbu_folder)
    (store : nbu_folder -> nbu_ctx -> nbu_ctx)
    (c : nbu_ctx) (u : unit) (c' : nbu_ctx) :
  (forall folder_pos c0 folder c1,
      good c0 -> read_folder folder_pos c0 = Ok folder c1 ->
      good c1 /\ Forall ok (folder_items folder)) ->
  (forall folder c0, good c0 -> Forall ok (folder_items folder) ->
                     good (store folder c0)) ->
  good c ->
  (nbu_seek 4 SEEK_CUR ;;;
   folder_pos <- nbu_read_uint64 ;;
   pos <- nbu_tell ;;
   folder <- read_folder folder_pos ;;
   modify (store folder) ;;;
   nbu_seek pos SEEK_SET) c = Ok u c' ->
  good c'.
Proof.
  intros Hread Hstore Hg H.
  mfirst H u1 c1 E1. apply nbu_seek_good in E1; [|assumption].
  mfirst H folder_pos c2 E2.
  apply read_uint_good in E2 as [Hg2 _]; [|assumption].
  mfirst H pos c3 E3. apply nbu_tell_inv in E3 as [-> ->].
  mfirst H folder c4 E4. apply Hread in E4 as [Hg4 Hf]; [|assumption].
  rewrite bind_modify in H.
  eapply nbu_seek_good; [|exact H]. apply Hstore; assumption.
Qed.

Lemma nbu_read_vcard_folder_section_good (c : nbu_ctx) (u : unit)
    (c' : nbu_ctx) :
  good c -> nbu_read_vcard_folder_section c = Ok u c' -> good c'.
Proof.
  intros Hg H. unfold nbu_read_vcard_folder_section in H.
  apply on_error_Ok in H. rewrite bind_modify in H.
  assert (Hg0 : good (set_bookmarks (Some []) c))
    by (apply good_set_bookmarks; [assumption|constructor]).
  mfirst H nitems c1 E1. apply read_uint_good in E1 as [Hg1 _]; [|assumption].
  mfirst H nfolders c2 E2. apply read_uint_good in E2 as [Hg2 _]; [|assumption].
  eapply (for_loop_invariant (fun _ c => good c)); [|exact Hg2|exact H].
  intros [] c0 [] c0' Hc0 H0.
  eapply (folder_entry_good nbu_read_vcard_folder
            (fun folder c => set_bookmarks (insert_tail folder (bookmarks c)) c));
    [| |exact Hc0|exact H0].
  - intros. eapply nbu_read_vcard_folder_good; eassumption.
  - intros folder k Hk Hf. apply good_set_bookmarks; [assumption|].
    apply insert_tail_folder_ok; [|assumption].
    apply (good_collections k Hk).
Qed.

Lemma nbu_read_messages_section_good (section_pos : Z) (c : nbu_ctx)
    (u : unit) (c' : nbu_ctx) :
  good c -> nbu_read_messages_section section_pos c = Ok u c' -> good c'.
Proof.
  intros Hg H. unfold nbu_read_messages_section in H.
  rewrite bind_modify in H.
  assert (Hg0 : good (set_messages (Some []) c))
    by (apply good_set_messages; [assumption|constructor]).
  mfirst H nmessages c1 E1.
  apply read_uint_good in E1 as [Hg1 _]; [|assumption].
  mfirst H nfolders c2 E2. apply read_uint_good in E2 as [Hg2 _]; [|assumption].
  eapply (for_loop_invariant (fun _ c => good c)); [|exact Hg2|exact H].
  intros [] c0 [] c0' Hc0 H0.
  eapply (folder_entry_good nbu_read_message_folder
            (fun folder c => set_messages (insert_tail folder (messages c)) c));
    [| |exact Hc0|exact H0].
  - intros. eapply nbu_read_message_folder_good; eassumption.
  - intros folder k Hk Hf. apply good_set_messages; [assumption|].
    apply insert_tail_folder_ok; [|assumption].
    apply (good_collections k Hk).
Qed.

Lemma nbu_read_mms_section_good (section_pos : Z) (c : nbu_ctx)
    (u : unit) (c' : nbu_ctx) :
  good c -> nbu_read_mms_section section_pos c = Ok u c' -> good c'.
Proof.
  intros Hg H. unfold nbu_read_mms_section in H.
  rewrite bind_modify in H.
  assert (Hg0 : good (set_mmses (Some []) c))
    by (apply good_set_mmses; [assumption|constructor]).
  mfirst H nmessages c1 E1.
  apply read_uint_good in E1 as [Hg1 _]; [|assumption].
  mfirst H nfolders c2 E2. apply read_uint_good in E2 as [Hg2 _]; [|assumption].
  eapply (for_loop_invariant (fun _ c => good c)); [|exact Hg2|exact H].
  intros [] c0 [] c0' Hc0 H0.
  eapply (folder_entry_good nbu_read_mms_folder
            (fun folder c => set_mmses (insert_tail folder (mmses c)) c));
    [| |exact Hc0|exact H0].
  - intros. eapply nbu_read_mms_folder_good; eassumption.
  - intros folder k Hk Hf. apply good_set_mmses; [assumption|].
    apply insert_tail_folder_ok; [|assumption].
    apply (good_collections k Hk).
Qed.

Lemma nbu_read_groups_section_good (section_pos : Z) (c : nbu_ctx)
    (u : unit) (c' : nbu_ctx) :
  good c -> nbu_read_groups_section section_pos c = Ok u c' -> good c'.
Proof.
  intros Hg H. unfold nbu_read_groups_section in H.
  mfirst H n c1 E1. apply read_uint_good in E1 as [Hg1 _]; [|assumption].
  mfirst H ngroups c2 E2. apply read_uint_good in E2 as [Hg2 _]; [|assumption].
  eapply (for_loop_invariant (fun _ c => good c)); [|exact Hg2|exact H].
  intros [] c0 [] c0' Hc0 H0.
  mfirst H0 u1 k1 F1. apply nbu_seek_good in F1; [|assumption].
  mfirst H0 folder_pos k2 F2.
  apply read_uint_good in F2 as [Hk2 _]; [|assumption].
  mfirst H0 pos k3 F3. apply nbu_tell_inv in F3 as [-> ->].
  mfirst H0 folder k4 F4.
  apply nbu_read_group_folder_good in F4 as [Hk4 _]; [|assumption].
  eapply nbu_seek_good; eassumption.
Qed.

Lemma nbu_read_advanced_settings_section_good (section_pos : Z)
    (c : nbu_ctx) (u : unit) (c' : nbu_ctx) :
  good c -> nbu_read_advanced_settings_section section_pos c = Ok u c' ->
  good c'.
Proof.
  intros Hg H. unfold nbu_read_advanced_settings_section in H.
  mfirst H n c1 E1. apply read_uint_good in E1 as [Hg1 _]; [|assumption].
  mfirst H nfolders c2 E2. apply read_uint_good in E2 as [Hg2 _]; [|assumption].
  eapply (for_loop_invariant (fun _ c => good c)); [|exact Hg2|exact H].
  intros [] c0 [] c0' Hc0 H0.
  mfirst H0 u1 k1 F1. apply nbu_seek_good in F1; [|assumption].
  mfirst H0 folder_pos k2 F2.
  apply read_uint_good in F2 as [Hk2 _]; [|assumption].
  mfirst H0 pos k3 F3. apply nbu_tell_inv in F3 as [-> ->].
  eapply nbu_seek_good; eassumption.
Qed.

Lemma nbu_read_memo_good (c : nbu_ctx) (u : unit) (c' : nbu_ctx) :
  good c -> nbu_read_memo c = Ok u c' -> good c'.
Proof.
  intros Hg H. unfold nbu_read_memo in H.
  mfirst H u1 c1 E1. apply nbu_seek_good in E1; [|assumption].
  mfirst H len c2 E2. apply read_uint_good in E2 as [Hg2 Hw2]; [|assumption].
  destruct (len >? UINT16_MAX / 2); [discriminate|].
  mfirst H memo_pos c3 E3. apply nbu_tell_inv in E3 as [-> ->].
  rewrite bind_modify in H.
  eapply nbu_seek_good; [|exact H].
  apply good_set_memos; [assumption|].
  apply insert_tail_item_ok; [apply (good_collections c2 Hg2)|].
  apply told_item_ok; assumption.
Qed.

Lemma nbu_read_memos_section_good (section_pos : Z) (c : nbu_ctx)
    (u : unit) (c' : nbu_ctx) :
  good c -> nbu_read_memos_section section_pos c = Ok u c' -> good c'.
Proof.
  intros Hg H. unfold nbu_read_memos_section in H.
  rewrite bind_modify in H.
  assert (Hg0 : good (set_memos (Some []) c))
    by (apply good_set_memos; [assumption|constructor]).
  mfirst H nmemos c1 E1. apply read_uint_good in E1 as [Hg1 _]; [|assumption].
  mfirst H pos c2 E2. apply nbu_tell_inv in E2 as [-> ->].
  cbn zeta in H.
  mfirst H u3 c3 E3. apply nbu_seek_good in E3; [|assumption].
  mfirst H u4 c4 E4.
  eapply nbu_seek_good; [|exact H].
  eapply (for_loop_invariant (fun _ c => good c)); [|exact E3|exact E4].
  intros [] c0 [] c0'. apply nbu_read_memo_good.
Qed.

Lemma section_read_good (k : section_kind) (section_pos : Z) (c : nbu_ctx)
    (u : unit) (c' : nbu_ctx) :
  good c -> section_read k section_pos c = Ok u c' -> good c'.
Proof.
  destruct k; cbn [section_read].
  - apply nbu_read_vcard_section_good. apply good_set_calendar.
  - apply nbu_read_groups_section_good.
  - apply nbu_read_advanced_settings_section_good.
  - apply nbu_read_mms_section_good.
  - apply nbu_read_memos_section_good.
  - apply nbu_read_messages_section_good.
  - apply nbu_read_vcard_folder_section_good.
  - apply nbu_read_vcard_section_good. apply good_set_contacts.
Qed.

Lemma nbu_read_section_good (guid : list Z) (pos : Z) (c : nbu_ctx)
    (u : unit) (c' : nbu_ctx) :
  good c -> nbu_read_section guid pos c = Ok u c' -> good c'.
Proof.
  unfold nbu_read_section.
  destruct (find_section guid nbu_sections) as [k|]; [|discriminate].
  apply section_read_good.
Qed.

Lemma nbu_read_section_entry_good (c : nbu_ctx) (u : unit) (c' : nbu_ctx) :
  good c -> nbu_read_section_entry c = Ok u c' -> good c'.
Proof.
  intros Hg H. unfold nbu_read_section_entry in H.
  mfirst H guid c1 E1. apply nbu_read_good in E1 as [Hg1 _]; [|assumption].
  mfirst H pos c2 E2. apply read_uint_good in E2 as [Hg2 _]; [|assumption].
  mfirst H u3 c3 E3. apply nbu_seek_good in E3; [|assumption].
  eapply nbu_read_section_good; eassumption.
Qed.

Lemma nbu_read_sections_good (c : nbu_ctx) (u : unit) (c' : nbu_ctx) :
  good c -> nbu_read_sections c = Ok u c' -> good c'.
Proof.
  intros Hg H. unfold nbu_read_sections in H.
  mfirst H nsections c1 E1.
  apply read_uint_good in E1 as [Hg1 _]; [|assumption].
  eapply (for_loop_invariant (fun _ c => good c)); [|exact Hg1|exact H].
  intros [] c0 [] c0'. apply nbu_read_section_entry_good.
Qed.

Lemma good_same_items (f : nbu_ctx -> nbu_ctx) (c : nbu_ctx) :
  fp (f c) = fp c -> ctx_items (f c) = ctx_items c -> good c -> good (f c).
Proof.
  intros Hfp Hit (Hd & Hp & Hi). unfold Nbu.good. rewrite Hfp, Hit.
  repeat split; assumption.
Qed.

Lemma read_phone_string_good
    (set_string : option (list Z) -> nbu_ctx -> nbu_ctx) (k : M unit)
    (c : nbu_ctx) (u : unit) (c' : nbu_ctx) :
  (forall o c0, fp (set_string o c0) = fp c0) ->
  (forall o c0, ctx_items (set_string o c0) = ctx_items c0) ->
  (forall c0 c0', good c0 -> k c0 = Ok u c0' -> good c0') ->
  good c ->
  (s <- nbu_read_utf16 ;; modify (set_string (Some s)) ;;; k) c = Ok u c' ->
  good c'.
Proof.
  intros Hfp Hit Hk Hg H.
  mfirst H s c1 E1. apply nbu_read_utf16_good in E1; [|assumption].
  rewrite bind_modify in H. eapply Hk; [|exact H].
  apply good_same_items; [apply Hfp|apply Hit|assumption].
Qed.

Lemma nbu_open_good (u : unit) (c' : nbu_ctx) :
  nbu_open d = Ok u c' -> good c'.
Proof.
  unfold nbu_open. intros H.
  assert (Hg : good (nbu_ctx_init d)).
  { repeat split; [cbn; lia|constructor]. }
  mfirst H u1 c1 E1. apply nbu_seek_good in E1; [|assumption].
  mfirst H pos c2 E2. apply read_uint_good in E2 as [Hg2 _]; [|assumption].
  mfirst H u3 c3 E3. apply nbu_seek_good in E3; [|assumption].
  mfirst H t c4 E4. apply nbu_read_file_time_good in E4; [|assumption].
  rewrite bind_modify in H.
  assert (Hg5 : good (set_backup_time t c4))
    by (apply good_same_items; [reflexivity|reflexivity|assumption]).
  revert H.
  apply read_phone_string_good; [reflexivity|reflexivity| |assumption].
  intros k1 k1' Hk1.
  apply read_phone_string_good; [reflexivity|reflexivity| |assumption].
  intros k2 k2' Hk2.
  apply read_phone_string_good; [reflexivity|reflexivity| |assumption].
  intros k3 k3' Hk3.
  apply read_phone_string_good; [reflexivity|reflexivity| |assumption].
  intros k4 k4' Hk4.
  apply read_phone_string_good; [reflexivity|reflexivity| |assumption].
  intros k5 k5' Hk5 H.
  mfirst H u6 k6 E6. apply nbu_seek_good in E6; [|assumption].
  eapply nbu_read_sections_good; eassumption.
Qed.

End Invariant.

(** C2, as the code has it: every item a successful parse has recorded
    starts at a position of the source stream, from 0 to its size; the
    recorded length is not compared with the size at parse time. *)
Theorem parsed_items_start_in_file (data : list byte) (c : nbu_ctx) :
  nbu_open data = Ok tt c ->
  f_data (fp c) = data /\ Forall (item_in data) (ctx_items c).
Proof.
  intros H.
  apply (nbu_open_good data (item_in data)) in H as (Hd & _ & Hi).
  - split; assumption.
  - intros p l Hp. exact Hp.
Qed.

Lemma parsed_items_start_in_file_witness :
  Forall (item_in sample_calendar_overrun)
    (ctx_items (result_ctx (nbu_open sample_calendar_overrun))).
Proof.
  apply (parsed_items_start_in_file sample_calendar_overrun
           (result_ctx (nbu_open sample_calendar_overrun))).
  vm_compute. reflexivity.
Defined.

(** C2 as stated fails: the parse of [sample_calendar_overrun], a file of
    122 bytes, succeeds and records a calendar item at position 122 with
    length 1000. *)
Lemma parsed_item_overruns_file :
  exists c,
    nbu_open sample_calendar_overrun = Ok tt c
    /\ calendar c = Some [{| item_pos := 122; item_len := 1000 |}]
    /\ Z.of_nat (length sample_calendar_overrun) = 122
    /\ ~ (122 + 1000 <= Z.of_nat (length sample_calendar_overrun)).
Proof.
  eexists. split; [vm_compute; reflexivity|].
  split; [reflexivity|]. split; [reflexivity|].
  vm_compute. intros H. apply H. reflexivity.
Qed.

(** The overrun shows when the item is exported: the read is short. *)
Lemma overrunning_item_fails_at_export :
  let w := {| w_ctx := result_ctx (nbu_open sample_calendar_overrun);
              w_fs := ∅; w_stderr := [];
              w_malloc := enough_memory |} in
  fst (nbu_export "out" w) = -1
  /\ w_stderr (snd (nbu_export "out" w)) = [Unexpected_end_of_file].
Proof. vm_compute. split; reflexivity. Qed.

End InvariantFacts.

(** ** Section dispatcher *)

Module DispatcherFacts.
Import Utf Nbu UtfFacts ReaderFacts HandlerFacts InvariantFacts.

(** The stream still holds [d] and its position is not negative. *)
Abbreviation kept d := (good d (fun _ => True)).

Lemma kept_iff (d : list byte) (c : nbu_ctx) :
  kept d c <-> f_data (fp c) = d /\ 0 <= f_pos (fp c).
Proof.
  unfold good. split.
  - intros (Hd & Hp & _). split; assumption.
  - intros (Hd & Hp). repeat split; try assumption.
    apply Forall_forall. intros. exact I.
Qed.

Lemma kept_start (c : nbu_ctx) : 0 <= f_pos (fp c) -> kept (f_data (fp c)) c.
Proof. intros Hp. apply kept_iff. split; [reflexivity|assumption]. Qed.

Lemma kept_same_stream (d : list byte) (c c0 : nbu_ctx) :
  fp c0 = fp c -> kept d c -> kept d c0.
Proof. rewrite !kept_iff. intros ->. trivial. Qed.

Lemma kept_set_pos (d : list byte) (p : Z) (c : nbu_ctx) :
  kept d c -> 0 <= p -> kept d (set_pos p c).
Proof. rewrite !kept_iff. cbn. intros [Hd _] Hp. split; assumption. Qed.

Lemma peek_same_data (c c0 : nbu_ctx) (p size : Z) :
  f_data (fp c0) = f_data (fp c) -> peek c0 p size = peek c p size.
Proof. unfold peek. now intros ->. Qed.

Lemma for_loop_advance (d : list byte) (body : unit -> M unit) (step : Z) :
  (forall c c',
      kept d c -> body tt c = Ok tt c' ->
      kept d c' /\ f_pos (fp c') = f_pos (fp c) + step) ->
  forall n c c',
    kept d c -> for_loop n body tt c = Ok tt c' ->
    kept d c' /\ f_pos (fp c') = f_pos (fp c) + step * Z.of_nat n.
Proof.
  intros Hb. induction n as [|n IH]; intros c c' Hk H.
  - inversion H; subst. split; [assumption|lia].
  - cbn [for_loop] in H. mfirst H u c1 E. destruct u.
    apply Hb in E as [Hk1 Hp1]; [|assumption].
    apply IH in H as [Hk' Hp']; [|assumption].
    split; [assumption|lia].
Qed.

(** The shared body of the loops over folder entries leaves the stream
    twelve bytes behind where it found it, wherever the folder lies. *)
Lemma folder_entry_cursor (d : list byte)
    (read_folder : Z -> M nbu_folder)
    (store : nbu_folder -> nbu_ctx -> nbu_ctx) (c c' : nbu_ctx) :
  (forall folder_pos c0 folder c1,
      kept d c0 -> read_folder folder_pos c0 = Ok folder c1 -> kept d c1) ->
  (forall folder c0, fp (store folder c0) = fp c0) ->
  kept d c ->
  (nbu_seek 4 SEEK_CUR ;;;
   folder_pos <- nbu_read_uint64 ;;
   pos <- nbu_tell ;;
   folder <- read_folder folder_pos ;;
   modify (store folder) ;;;
   nbu_seek pos SEEK_SET) c = Ok tt c' ->
  kept d c' /\ f_pos (fp c') = f_pos (fp c) + 12.
Proof.
  intros Hread Hstore Hk H.
  mfirst H u1 c1 E1. apply nbu_seek_inv in E1 as (Ht1 & ->). cbn zeta in Ht1.
  mfirst H folder_pos c2 E2.
  apply (read_uint_inv 8) in E2 as (_ & Hle2 & _ & ->).
  mfirst H pos c3 E3. apply nbu_tell_inv in E3 as [-> ->].
  mfirst H folder c4 E4.
  apply Hread in E4;
    [|apply kept_set_pos; [apply kept_set_pos; [assumption|lia]|cbn; lia]].
  rewrite bind_modify in H. apply nbu_seek_inv in H as (Ht & ->).
  cbn in Ht |- *. split; [|lia].
  apply kept_set_pos; [|lia].
  eapply kept_same_stream; [apply Hstore|exact E4].
Qed.

Lemma vcard_section_cursor (section_pos : Z)
    (set_list : option (list nbu_item) -> nbu_ctx -> nbu_ctx)
    (c c' : nbu_ctx) :
  (forall o c0, fp (set_list o c0) = fp c0) ->
  0 <= f_pos (fp c) ->
  nbu_read_vcard_section section_pos set_list c = Ok tt c' ->
  f_data (fp c') = f_data (fp c) /\ f_pos (fp c') = f_pos (fp c) + 8.
Proof.
  intros Hset Hp H. unfold nbu_read_vcard_section in H.
  apply on_error_Ok in H. rewrite bind_modify in H.
  pose proof (kept_start c Hp) as Hk.
  apply (kept_same_stream _ c (set_list (Some []) c) (Hset _ _)) in Hk.
  mfirst H nitems c1 E1.
  apply (read_uint_inv 4) in E1 as (_ & _ & _ & ->).
  mfirst H nfolders c2 E2.
  apply (read_uint_inv 4) in E2 as (_ & _ & _ & ->).
  destruct (negb (nfolders =? 0)); [discriminate|].
  mfirst H pos c3 E3. apply nbu_tell_inv in E3 as [-> ->].
  mfirst H u4 c4 E4. apply nbu_seek_inv in E4 as (Ht4 & ->). cbn zeta in Ht4.
  mfirst H l c5 E5.
  apply (nbu_read_vcards_good (f_data (fp c)) (fun _ => True)) in E5 as [Hk5 _];
    [|intros; exact I
     |split; [apply kept_set_pos; [apply kept_set_pos;
                [apply kept_set_pos; [assumption|]|]|]|constructor]].
  - rewrite bind_modify in H. apply nbu_seek_inv in H as (Ht & ->).
    apply kept_iff in Hk5 as [Hd5 _].
    cbn in Ht |- *. rewrite !Hset in *. split; [assumption|lia].
  - rewrite Hset. lia.
  - cbn. rewrite Hset. lia.
  - lia.
Qed.

Lemma memos_section_cursor (section_pos : Z) (c c' : nbu_ctx) :
  0 <= f_pos (fp c) ->
  nbu_read_memos_section section_pos c = Ok tt c' ->
  f_data (fp c') = f_data (fp c) /\ f_pos (fp c') = f_pos (fp c) + 8.
Proof.
  intros Hp H. unfold nbu_read_memos_section in H.
  rewrite bind_modify in H.
  pose proof (kept_start c Hp) as Hk.
  apply (kept_same_stream _ c (set_memos (Some []) c) eq_refl) in Hk.
  mfirst H nmemos c1 E1.
  apply (read_uint_inv 4) in E1 as (_ & _ & _ & ->).
  mfirst H pos c2 E2. apply nbu_tell_inv in E2 as [-> ->]. cbn zeta in H.
  mfirst H u3 c3 E3. apply nbu_seek_inv in E3 as (Ht3 & ->). cbn zeta in Ht3.
  mfirst H u4 c4 E4.
  apply (for_loop_invariant (fun _ c0 => kept (f_data (fp c)) c0)) in E4.
  - apply nbu_seek_inv in H as (Ht & ->).
    apply kept_iff in E4 as [Hd4 _]. cbn in Ht |- *.
    split; [assumption|lia].
  - intros [] c0 [] c0'.
    apply (nbu_read_memo_good (f_data (fp c)) (fun _ => True) (fun _ _ _ => I)).
  - apply kept_set_pos; [apply kept_set_pos; [assumption|cbn; lia]|lia].
Qed.

(** The handlers that walk over a table of folder entries. *)
Lemma folder_table_cursor (d : list byte) (body : unit -> M unit)
    (c c' : nbu_ctx) :
  (forall c0 c1,
      kept d c0 -> body tt c0 = Ok tt c1 ->
      kept d c1 /\ f_pos (fp c1) = f_pos (fp c0) + 12) ->
  kept d c ->
  (n <- nbu_read_uint32 ;;
   nfolders <- nbu_read_uint32 ;;
   for_loop (Z.to_nat nfolders) body tt) c = Ok tt c' ->
  f_data (fp c') = d
  /\ f_pos (fp c') = f_pos (fp c) + 8 + 12 * peek c (f_pos (fp c) + 4) 4.
Proof.
  intros Hb Hk H.
  pose proof (proj1 (kept_iff d c) Hk) as [Hd Hp].
  mfirst H n c1 E1. apply (read_uint_inv 4) in E1 as (_ & _ & _ & ->).
  mfirst H nfolders c2 E2.
  apply (read_uint_inv 4) in E2 as (_ & _ & -> & ->).
  pose proof (peek32_range c (f_pos (fp c) + 4)) as Hr.
  apply (for_loop_advance d body 12 Hb) in H as [Hk' Hp'].
  - apply kept_iff in Hk' as [Hd' _]. split; [assumption|].
    rewrite Hp'. cbn [fp f_pos set_pos set_fp].
    rewrite Z2Nat.id by (cbn; apply Hr).
    rewrite !peek_set_pos. lia.
  - apply kept_set_pos; [apply kept_set_pos; [assumption|lia]|cbn; lia].
Qed.

Lemma messages_section_cursor (section_pos : Z) (c c' : nbu_ctx) :
  0 <= f_pos (fp c) ->
  nbu_read_messages_section section_pos c = Ok tt c' ->
  f_data (fp c') = f_data (fp c)
  /\ f_pos (fp c') = f_pos (fp c) + 8 + 12 * peek c (f_pos (fp c) + 4) 4.
Proof.
  intros Hp H. unfold nbu_read_messages_section in H.
  rewrite bind_modify in H.
  pose proof (kept_start c Hp) as Hk.
  apply (kept_same_stream _ c (set_messages (Some []) c) eq_refl) in Hk.
  apply (folder_table_cursor (f_data (fp c))) in H; [exact H| |exact Hk].
  intros c0 c1 Hk0.
  apply (folder_entry_cursor _ nbu_read_message_folder
           (fun folder c => set_messages (insert_tail folder (messages c)) c));
    [|reflexivity|assumption].
  intros folder_pos k0 folder k1 Hg E.
  apply (nbu_read_message_folder_good (f_data (fp c)) (fun _ => True) (fun _ _ _ => I)) in E as [E _];
    assumption.
Qed.

Lemma mms_section_cursor (section_pos : Z) (c c' : nbu_ctx) :
  0 <= f_pos (fp c) ->
  nbu_read_mms_section section_pos c = Ok tt c' ->
  f_data (fp c') = f_data (fp c)
  /\ f_pos (fp c') = f_pos (fp c) + 8 + 12 * peek c (f_pos (fp c) + 4) 4.
Proof.
  intros Hp H. unfold nbu_read_mms_section in H.
  rewrite bind_modify in H.
  pose proof (kept_start c Hp) as Hk.
  apply (kept_same_stream _ c (set_mmses (Some []) c) eq_refl) in Hk.
  apply (folder_table_cursor (f_data (fp c))) in H; [exact H| |exact Hk].
  intros c0 c1 Hk0.
  apply (folder_entry_cursor _ nbu_read_mms_folder
           (fun folder c => set_mmses (insert_tail folder (mmses c)) c));
    [|reflexivity|assumption].
  intros folder_pos k0 folder k1 Hg E.
  apply (nbu_read_mms_folder_good (f_data (fp c)) (fun _ => True) (fun _ _ _ => I)) in E as [E _];
    assumption.
Qed.

Lemma bookmarks_section_cursor (c c' : nbu_ctx) :
  0 <= f_pos (fp c) ->
  nbu_read_vcard_folder_section c = Ok tt c' ->
  f_data (fp c') = f_data (fp c)
  /\ f_pos (fp c') = f_pos (fp c) + 8 + 12 * peek c (f_pos (fp c) + 4) 4.
Proof.
  intros Hp H. unfold nbu_read_vcard_folder_section in H.
  apply on_error_Ok in H. rewrite bind_modify in H.
  pose proof (kept_start c Hp) as Hk.
  apply (kept_same_stream _ c (set_bookmarks (Some []) c) eq_refl) in Hk.
  apply (folder_table_cursor (f_data (fp c))) in H; [exact H| |exact Hk].
  intros c0 c1 Hk0.
  apply (folder_entry_cursor _ nbu_read_vcard_folder
           (fun folder c => set_bookmarks (insert_tail folder (bookmarks c)) c));
    [|reflexivity|assumption].
  intros folder_pos k0 folder k1 Hg E.
  apply (nbu_read_vcard_folder_good (f_data (fp c)) (fun _ => True) (fun _ _ _ => I)) in E as [E _];
    assumption.
Qed.

Lemma groups_section_cursor (section_pos : Z) (c c' : nbu_ctx) :
  0 <= f_pos (fp c) ->
  nbu_read_groups_section section_pos c = Ok tt c' ->
  f_data (fp c') = f_data (fp c)
  /\ f_pos (fp c') = f_pos (fp c) + 8 + 12 * peek c (f_pos (fp c) + 4) 4.
Proof.
  intros Hp H. unfold nbu_read_groups_section in H.
  apply (folder_table_cursor (f_data (fp c))) in H;
    [exact H| |apply kept_start; assumption].
  intros c0 c1 Hk0 H0.
  mfirst H0 u1 k1 E1. apply nbu_seek_inv in E1 as (Ht1 & ->). cbn zeta in Ht1.
  mfirst H0 folder_pos k2 E2.
  apply (read_uint_inv 8) in E2 as (_ & _ & _ & ->).
  mfirst H0 pos k3 E3. apply nbu_tell_inv in E3 as [-> ->].
  mfirst H0 folder k4 E4.
  apply (nbu_read_group_folder_good (f_data (fp c)) (fun _ => True))
    in E4 as [E4 _];
    [|apply kept_set_pos; [apply kept_set_pos; [assumption|lia]|cbn; lia]].
  apply nbu_seek_inv in H0 as (Ht & ->). cbn in Ht |- *.
  split; [|lia]. apply kept_set_pos; [assumption|lia].
Qed.

Lemma advanced_settings_section_cursor (section_pos : Z) (c c' : nbu_ctx) :
  0 <= f_pos (fp c) ->
  nbu_read_advanced_settings_section section_pos c = Ok tt c' ->
  f_data (fp c') = f_data (fp c)
  /\ f_pos (fp c') = f_pos (fp c) + 8 + 12 * peek c (f_pos (fp c) + 4) 4.
Proof.
  intros Hp H. unfold nbu_read_advanced_settings_section in H.
  apply (folder_table_cursor (f_data (fp c))) in H;
    [exact H| |apply kept_start; assumption].
  intros c0 c1 Hk0 H0.
  mfirst H0 u1 k1 E1. apply nbu_seek_inv in E1 as (Ht1 & ->). cbn zeta in Ht1.
  mfirst H0 folder_pos k2 E2.
  apply (read_uint_inv 8) in E2 as (_ & _ & _ & ->).
  mfirst H0 pos k3 E3. apply nbu_tell_inv in E3 as [-> ->].
  apply nbu_seek_inv in H0 as (Ht & ->). cbn in Ht |- *.
  split; [|lia].
  apply kept_set_pos; [|lia].
  apply kept_set_pos; [apply kept_set_pos; [assumption|lia]|cbn; lia].
Qed.

(** Every handler returns the stream to the cursor behind its two count
    words and its folder entries. *)
Lemma section_read_cursor (k : section_kind) (section_pos : Z)
    (c c' : nbu_ctx) :
  0 <= f_pos (fp c) ->
  section_read k section_pos c = Ok tt c' ->
  f_data (fp c') = f_data (fp c)
  /\ f_pos (fp c')
     = f_pos (fp c) + 8 + 12 * folder_entries k c (f_pos (fp c)).
Proof.
  intros Hp H. destruct k; cbn [section_read folder_entries] in *.
  - apply vcard_section_cursor in H as [Hd Hq]; [|reflexivity|assumption].
    split; [assumption|lia].
  - eapply groups_section_cursor; eassumption.
  - eapply advanced_settings_section_cursor; eassumption.
  - eapply mms_section_cursor; eassumption.
  - apply memos_section_cursor in H as [Hd Hq]; [|assumption].
    split; [assumption|lia].
  - eapply messages_section_cursor; eassumption.
  - apply bookmarks_section_cursor; assumption.
  - apply vcard_section_cursor in H as [Hd Hq]; [|reflexivity|assumption].
    split; [assumption|lia].
Qed.

(** C1, as the code has it: for a section entry at [p] the dispatcher
    reads the 16-byte identifier and the 64-bit position, skips the eight
    bytes of the length and calls the matched handler with the stream
    right behind the entry, at [p + 32]; the declared position is only
    passed as an argument, the dispatcher neither seeks to it nor
    remembers or restores a cursor.  The handler itself returns the stream
    to the cursor behind its two inline count words and its inline folder
    entries, whatever absolute jumps it made meanwhile, and the next entry
    is read from there. *)
Theorem section_entry_cursor (c c' : nbu_ctx) :
  let p := f_pos (fp c) in
  0 <= p -> nbu_read_section_entry c = Ok tt c' ->
  exists k,
    find_section
      (map byte_to_Z (take 16 (drop (Z.to_nat p) (f_data (fp c)))))
      nbu_sections = Some k
    /\ section_read k (peek c (p + 16) 8) (set_pos (p + 32) c) = Ok tt c'
    /\ f_data (fp c') = f_data (fp c)
    /\ f_pos (fp c') = p + 32 + 8 + 12 * folder_entries k c (p + 32).
Proof.
  cbn zeta. intros Hp H. unfold nbu_read_section_entry in H.
  mfirst H guid c1 E1. apply nbu_read_inv in E1 as (_ & _ & -> & ->).
  mfirst H pos c2 E2. apply (read_uint_inv 8) in E2 as (_ & _ & -> & ->).
  mfirst H u3 c3 E3. apply nbu_seek_inv in E3 as (Ht & ->).
  cbn [fp f_pos set_pos set_fp] in H, Ht.
  unfold nbu_read_section in H.
  change (Z.to_nat NBU_GUID_LEN) with 16%nat in H.
  destruct (find_section _ nbu_sections) as [k|]; [|discriminate].
  exists k. split; [reflexivity|].
  assert (Hc3 : set_pos (f_pos (fp c) + NBU_GUID_LEN + 8 + 8)
                  (set_pos (f_pos (fp c) + NBU_GUID_LEN + 8)
                     (set_pos (f_pos (fp c) + NBU_GUID_LEN) c))
                = set_pos (f_pos (fp c) + 32) c).
  { rewrite !set_pos_set_pos. f_equal. unfold NBU_GUID_LEN. lia. }
  rewrite Hc3 in H. rewrite peek_set_pos in H.
  change (f_pos (fp c) + NBU_GUID_LEN) with (f_pos (fp c) + 16) in H.
  split; [exact H|].
  apply section_read_cursor in H as [Hd Hq]; [|cbn; lia].
  cbn [fp f_pos f_data set_pos set_fp] in Hd, Hq.
  split; [assumption|]. rewrite Hq. f_equal.
Qed.

Lemma section_entry_cursor_witness :
  f_pos (fp (result_ctx (nbu_read_section_entry
                           (set_pos 70 (nbu_ctx_init sample_memos)))))
  = 70 + 32 + 8.
Proof.
  destruct (section_entry_cursor
              (set_pos 70 (nbu_ctx_init sample_memos))
              (result_ctx (nbu_read_section_entry
                             (set_pos 70 (nbu_ctx_init sample_memos))))
              ltac:(vm_compute; discriminate)
              ltac:(vm_compute; reflexivity))
    as (k & Hk & _ & _ & Hq).
  vm_compute in Hk. inversion Hk; subst k.
  rewrite Hq. reflexivity.
Defined.

(** C1 as stated fails.  In [sample_memos] the entry at offset 70 declares
    position 120.  The dispatcher calls the memos handler at offset 102,
    where the count is 0, so no memo is recorded although the count at the
    declared position is 1; and it leaves the stream at 110, not at the
    position 102 behind the entry.  The dispatcher of the specification
    would record the memo at 174 and return to 102. *)
Lemma dispatcher_does_not_seek_or_restore :
  let c := set_pos 70 (nbu_ctx_init sample_memos) in
  peek c 86 8 = 120 /\ peek c 102 4 = 0 /\ peek c 120 4 = 1
  /\ (exists c',
         nbu_read_section_entry c = Ok tt c'
         /\ memos c' = Some []
         /\ f_pos (fp c') = 110 /\ f_pos (fp c') <> 70 + 32)
  /\ (exists c'',
         spec_read_section_entry c = Ok tt c''
         /\ memos c'' = Some [{| item_pos := 174; item_len := 2 |}]
         /\ f_pos (fp c'') = 70 + 32).
Proof.
  cbn zeta. repeat split; try (vm_compute; reflexivity).
  - eexists. split; [vm_compute; reflexivity|].
    repeat split; try reflexivity. discriminate.
  - eexists. split; [vm_compute; reflexivity|].
    repeat split; reflexivity.
Qed.

End DispatcherFacts.

(** ** Scenarios *)

Module Scenarios.
Import Nbu.

(** A calendar section with one item is exported as [calendar.ics] with
    exactly the bytes of the item. *)
Example calendar_item_exported :
  let r := nbu_open (sample_calendar [sample_event]) in
  let w := {| w_ctx := result_ctx r; w_fs := ∅; w_stderr := [];
              w_malloc := enough_memory |} in
  calendar (result_ctx r)
  = Some [{| item_pos := 126; item_len := 24 |}]
  /\ fst (nbu_export "out" w) = 0
  /\ w_fs (snd (nbu_export "out" w)) !! "out/calendar.ics"
     = Some (File sample_event).
Proof. vm_compute. repeat split. Qed.

(** An empty calendar leaves no [calendar.ics] at all. *)
Example empty_calendar_leaves_no_file :
  let r := nbu_open (sample_calendar []) in
  let w := {| w_ctx := result_ctx r; w_fs := ∅; w_stderr := [];
              w_malloc := enough_memory |} in
  calendar (result_ctx r) = Some []
  /\ nbu_export "out" w = (0, set_fs {["out" := Dir]} w).
Proof. vm_compute. repeat split. Qed.

(** A section identifier that is not in the table fails the open. *)
Example unknown_section_fails_open :
  exists c, nbu_open sample_unknown_section = Err Unsupported_section c
            /\ ctx_items c = [].
Proof. eexists. vm_compute. split; reflexivity. Qed.

End Scenarios.

(** ** More on the Unicode transcoder *)

Module UtfMore.
Import Utf UtfFacts.

(** *** Bit fields as arithmetic *)

(** Linear arithmetic with quotients and remainders by constants. *)
Ltac dlia := Z.div_mod_to_equations; lia.

Lemma lor_disjoint (a b k : Z) :
  0 <= k -> 0 <= b < 2 ^ k -> Z.land a (Z.ones k) = 0 -> Z.lor a b = a + b.
Proof.
  intros Hk Hb Ha.
  assert (Hbk : Z.land b (Z.ones k) = b)
    by (rewrite Z.land_ones by assumption; apply Z.mod_small; assumption).
  assert (Hz : Z.land a b = 0).
  { rewrite <- Hbk, (Z.land_comm b), Z.land_assoc, Ha. apply Z.land_0_l. }
  pose proof (Z.add_lor_land a b) as H. rewrite Hz in H. lia.
Qed.

Lemma land_mask (x k : Z) : 0 <= k -> Z.land x (2 ^ k - 1) = x mod 2 ^ k.
Proof.
  intros Hk. rewrite <- Z.land_ones by assumption.
  now rewrite Z.ones_equiv, <- Z.sub_1_r.
Qed.

Lemma land_shifted_mask (u m k : Z) :
  0 <= k -> Z.land u (Z.shiftl m k) = Z.shiftl (Z.land (Z.shiftr u k) m) k.
Proof.
  intros Hk. apply Z.bits_inj'. intros n Hn.
  rewrite Z.land_spec, !Z.shiftl_spec, Z.land_spec by assumption.
  destruct (Z_lt_le_dec n k) as [Hlt|Hge].
  - rewrite (Z.testbit_neg_r m) by lia. now rewrite !andb_false_r.
  - rewrite Z.shiftr_spec by lia. now replace (n - k + k) with n by lia.
Qed.

(** The bytes [utf8_encode] stores, as sums. *)
Lemma continuation_byte (x : Z) :
  to_uint8 (Z.lor 0x80 (Z.land x 0x3f)) = 0x80 + x mod 64.
Proof.
  change 0x3f with (2 ^ 6 - 1). rewrite land_mask by lia.
  change (2 ^ 6) with 64. pose proof (Z.mod_pos_bound x 64 ltac:(lia)).
  rewrite (lor_disjoint 0x80 _ 6) by (first [reflexivity | lia | (simpl; lia)]).
  unfold to_uint8. apply Z.mod_small. change (2 ^ 8) with 256. lia.
Qed.

Lemma lead_byte (tag x k : Z) :
  0 <= k < 8 -> 0 <= tag < 256 -> tag + 2 ^ k <= 256 ->
  Z.land tag (Z.ones k) = 0 ->
  to_uint8 (Z.lor tag (Z.land x (2 ^ k - 1))) = tag + x mod 2 ^ k.
Proof.
  intros Hk Htag Hroom Hdis. rewrite land_mask by lia.
  pose proof (Z.mod_pos_bound x (2 ^ k) ltac:(apply Z.pow_pos_nonneg; lia)).
  rewrite (lor_disjoint tag _ k) by (assumption || lia).
  unfold to_uint8. apply Z.mod_small. change (2 ^ 8) with 256. lia.
Qed.

Lemma utf8_encode_1 (cp : Z) :
  0 <= cp <= 0x7f -> utf8_encode cp = ([cp], 1).
Proof.
  intros H. unfold utf8_encode.
  destruct (Z.leb_spec cp 0x7f); [|lia].
  unfold to_uint8. rewrite Z.mod_small by (change (2 ^ 8) with 256; lia).
  reflexivity.
Qed.

Lemma utf8_encode_2 (cp : Z) :
  0x7f < cp <= 0x7ff ->
  utf8_encode cp = ([0xc0 + cp / 64; 0x80 + cp mod 64], 2).
Proof.
  intros H. unfold utf8_encode.
  destruct (Z.leb_spec cp 0x7f); [lia|].
  destruct (Z.leb_spec cp 0x7ff); [|lia].
  rewrite continuation_byte.
  change 0x1f with (2 ^ 5 - 1).
  rewrite (lead_byte 0xc0 _ 5) by (first [reflexivity | lia | (simpl; lia)]).
  rewrite Z.shiftr_div_pow2 by lia. change (2 ^ 6) with 64.
  change (2 ^ 5) with 32. rewrite (Z.mod_small (cp / 64) 32) by dlia.
  reflexivity.
Qed.

Lemma utf8_encode_3 (cp : Z) :
  0x7ff < cp <= 0xffff ->
  utf8_encode cp
  = ([0xe0 + cp / 4096; 0x80 + (cp / 64) mod 64; 0x80 + cp mod 64], 3).
Proof.
  intros H. unfold utf8_encode.
  destruct (Z.leb_spec cp 0x7f); [lia|].
  destruct (Z.leb_spec cp 0x7ff); [lia|].
  destruct (Z.leb_spec cp 0xffff); [|lia].
  rewrite !continuation_byte.
  change 0x0f with (2 ^ 4 - 1).
  rewrite (lead_byte 0xe0 _ 4) by (first [reflexivity | lia | (simpl; lia)]).
  rewrite !Z.shiftr_div_pow2 by lia.
  change (2 ^ 6) with 64. change (2 ^ 12) with 4096. change (2 ^ 4) with 16.
  rewrite (Z.mod_small (cp / 4096) 16) by dlia.
  reflexivity.
Qed.

Lemma utf8_encode_4 (cp : Z) :
  0xffff < cp <= 0x10ffff ->
  utf8_encode cp
  = ([0xf0 + cp / 262144; 0x80 + (cp / 4096) mod 64;
      0x80 + (cp / 64) mod 64; 0x80 + cp mod 64], 4).
Proof.
  intros H. unfold utf8_encode.
  destruct (Z.leb_spec cp 0x7f); [lia|].
  destruct (Z.leb_spec cp 0x7ff); [lia|].
  destruct (Z.leb_spec cp 0xffff); [lia|].
  destruct (Z.leb_spec cp 0x10ffff); [|lia].
  rewrite !continuation_byte.
  change 0x07 with (2 ^ 3 - 1).
  rewrite (lead_byte 0xf0 _ 3) by (first [reflexivity | lia | (simpl; lia)]).
  rewrite !Z.shiftr_div_pow2 by lia.
  change (2 ^ 6) with 64. change (2 ^ 12) with 4096.
  change (2 ^ 18) with 262144. change (2 ^ 3) with 8.
  rewrite (Z.mod_small (cp / 262144) 8) by dlia.
  reflexivity.
Qed.

Lemma utf8_encode_none (cp : Z) :
  0x10ffff < cp -> utf8_encode cp = ([], 0).
Proof.
  intros H. unfold utf8_encode.
  repeat match goal with
         | |- context [Z.leb ?a ?b] => destruct (Z.leb_spec a b); [lia|]
         end.
  reflexivity.
Qed.

(** X1: the encoder gives one byte up to 0x7F, two up to 0x7FF, three up
    to 0xFFFF, four up to 0x10FFFF and nothing above; the lead byte of a
    longer sequence lies in C2..DF, E0..EF or F0..F4, every further byte
    is a continuation byte 80..BF, and a one-byte sequence is the code
    point itself. *)
Theorem utf8_encode_well_formed (cp : Z) :
  0 <= cp ->
  (cp <= 0x7f -> utf8_encode cp = ([cp], 1))
  /\ (0x7f < cp <= 0x7ff ->
      exists b0 b1, utf8_encode cp = ([b0; b1], 2)
                    /\ 0xc2 <= b0 <= 0xdf /\ utf8_continuation b1)
  /\ (0x7ff < cp <= 0xffff ->
      exists b0 b1 b2, utf8_encode cp = ([b0; b1; b2], 3)
                       /\ 0xe0 <= b0 <= 0xef
                       /\ utf8_continuation b1 /\ utf8_continuation b2)
  /\ (0xffff < cp <= 0x10ffff ->
      exists b0 b1 b2 b3, utf8_encode cp = ([b0; b1; b2; b3], 4)
                          /\ 0xf0 <= b0 <= 0xf4
                          /\ utf8_continuation b1 /\ utf8_continuation b2
                          /\ utf8_continuation b3)
  /\ (0x10ffff < cp -> utf8_encode cp = ([], 0)).
Proof.
  intros Hcp. unfold utf8_continuation. repeat split.
  - intros H. apply utf8_encode_1. lia.
  - intros H. eexists _, _. split; [apply utf8_encode_2; assumption|]. dlia.
  - intros H. eexists _, _, _. split; [apply utf8_encode_3; assumption|]. dlia.
  - intros H. eexists _, _, _, _.
    split; [apply utf8_encode_4; assumption|]. dlia.
  - apply utf8_encode_none.
Qed.

Lemma utf8_encode_well_formed_witness :
  exists b0 b1 b2, utf8_encode 0x20ac = ([b0; b1; b2], 3)
                   /\ 0xe0 <= b0 <= 0xef
                   /\ utf8_continuation b1 /\ utf8_continuation b2.
Proof.
  apply (proj1 (proj2 (proj2 (utf8_encode_well_formed 0x20ac ltac:(lia))))).
  lia.
Defined.

(** X2: the bytes of an encoded code point stand for that code point, so
    the encoder is injective on the code points up to 0x10FFFF. *)
Theorem utf8_encode_round_trip (cp : Z) :
  0 <= cp <= 0x10ffff ->
  utf8_value (fst (utf8_encode cp)) = cp
  /\ forall cp', 0 <= cp' <= 0x10ffff ->
                 utf8_encode cp' = utf8_encode cp -> cp' = cp.
Proof.
  assert (Hval : forall x, 0 <= x <= 0x10ffff ->
                           utf8_value (fst (utf8_encode x)) = x).
  { intros x Hx.
    destruct (Z_le_gt_dec x 0x7f);
      [rewrite utf8_encode_1 by lia; reflexivity|].
    destruct (Z_le_gt_dec x 0x7ff);
      [rewrite utf8_encode_2 by lia; cbn [fst utf8_value]; dlia|].
    destruct (Z_le_gt_dec x 0xffff);
      [rewrite utf8_encode_3 by lia; cbn [fst utf8_value]; dlia|].
    rewrite utf8_encode_4 by lia. cbn [fst utf8_value]. dlia. }
  intros Hcp. split; [apply Hval, Hcp|].
  intros cp' Hcp' E. rewrite <- (Hval cp'), <- (Hval cp) by assumption.
  now rewrite E.
Qed.

Lemma utf8_encode_round_trip_witness :
  utf8_value (fst (utf8_encode 0x1f600)) = 0x1f600.
Proof.
  exact (proj1 (utf8_encode_round_trip 0x1f600 ltac:(lia))).
Defined.

(** *** Surrogates *)

Lemma land_f800 (u : Z) : Z.land u 0xf800 = (u / 2048) mod 32 * 2048.
Proof.
  change 0xf800 with (Z.shiftl 31 11). rewrite land_shifted_mask by lia.
  change 31 with (2 ^ 5 - 1). rewrite land_mask by lia.
  rewrite Z.shiftl_mul_pow2, Z.shiftr_div_pow2 by lia. reflexivity.
Qed.

Lemma land_fc00 (u : Z) : Z.land u 0xfc00 = (u / 1024) mod 64 * 1024.
Proof.
  change 0xfc00 with (Z.shiftl 63 10). rewrite land_shifted_mask by lia.
  change 63 with (2 ^ 6 - 1). rewrite land_mask by lia.
  rewrite Z.shiftl_mul_pow2, Z.shiftr_div_pow2 by lia. reflexivity.
Qed.

Lemma is_surrogate_range (u : Z) :
  is_uint16 u -> (utf16_is_surrogate u = true <-> 0xd800 <= u <= 0xdfff).
Proof.
  unfold is_uint16, utf16_is_surrogate. intros Hu.
  rewrite Z.eqb_eq, land_f800. change (2 ^ 11) with 2048.
  change (2 ^ 5) with 32. dlia.
Qed.

Lemma is_high_surrogate_range (u : Z) :
  is_uint16 u -> (utf16_is_high_surrogate u = true <-> 0xd800 <= u <= 0xdbff).
Proof.
  unfold is_uint16, utf16_is_high_surrogate. intros Hu.
  rewrite Z.eqb_eq, land_fc00. change (2 ^ 10) with 1024.
  change (2 ^ 6) with 64. dlia.
Qed.

Lemma is_low_surrogate_range (u : Z) :
  is_uint16 u -> (utf16_is_low_surrogate u = true <-> 0xdc00 <= u <= 0xdfff).
Proof.
  unfold is_uint16, utf16_is_low_surrogate. intros Hu.
  rewrite Z.eqb_eq, land_fc00. change (2 ^ 10) with 1024.
  change (2 ^ 6) with 64. dlia.
Qed.

(** X3: on 16-bit units the three tests are the ranges D800..DFFF,
    D800..DBFF and DC00..DFFF, so a surrogate is either high or low and
    never both. *)
Theorem surrogate_tests_are_ranges (u : Z) :
  is_uint16 u ->
  (utf16_is_surrogate u = true <-> 0xd800 <= u <= 0xdfff)
  /\ (utf16_is_high_surrogate u = true <-> 0xd800 <= u <= 0xdbff)
  /\ (utf16_is_low_surrogate u = true <-> 0xdc00 <= u <= 0xdfff)
  /\ utf16_is_surrogate u
     = xorb (utf16_is_high_surrogate u) (utf16_is_low_surrogate u).
Proof.
  intros Hu.
  pose proof (is_surrogate_range u Hu) as Hs.
  pose proof (is_high_surrogate_range u Hu) as Hh.
  pose proof (is_low_surrogate_range u Hu) as Hl.
  repeat split; try tauto.
  destruct (utf16_is_surrogate u), (utf16_is_high_surrogate u),
    (utf16_is_low_surrogate u); cbn; try reflexivity; exfalso;
    intuition (discriminate || lia).
Qed.

Lemma surrogate_tests_are_ranges_witness :
  utf16_is_high_surrogate 0xd83d = true <-> 0xd800 <= 0xd83d <= 0xdbff.
Proof.
  exact (proj1 (proj2 (surrogate_tests_are_ranges 0xd83d
                          ltac:(unfold is_uint16; lia)))).
Defined.

Lemma surrogate_pair_value (hi lo : Z) :
  utf16_decode_surrogate_pair hi lo
  = 0x10000 + hi mod 1024 * 1024 + lo mod 1024.
Proof.
  unfold utf16_decode_surrogate_pair, to_uint32.
  change 0x3ff with (2 ^ 10 - 1). rewrite !land_mask by lia.
  change (2 ^ 10) with 1024.
  pose proof (Z.mod_pos_bound hi 1024 ltac:(lia)).
  pose proof (Z.mod_pos_bound lo 1024 ltac:(lia)).
  rewrite Z.shiftl_mul_pow2 by lia. change (2 ^ 10) with 1024.
  change (2 ^ 32) with 4294967296.
  rewrite (Z.mod_small (hi mod 1024 * 1024)) by lia.
  rewrite (lor_disjoint _ _ 10); [|lia|change (2 ^ 10) with 1024; lia|].
  - rewrite (Z.mod_small (hi mod 1024 * 1024 + lo mod 1024)) by lia.
    rewrite Z.mod_small by lia. lia.
  - rewrite Z.land_ones by lia. change (2 ^ 10) with 1024.
    apply Z.mod_mul. lia.
Qed.

(** X4: a high surrogate followed by a low surrogate decodes to
    0x10000 + (hi - 0xD800) * 0x400 + (lo - 0xDC00); two different pairs
    decode to different code points. *)
Theorem surrogate_pair_formula (hi lo : Z) :
  is_uint16 hi -> is_uint16 lo ->
  utf16_is_high_surrogate hi = true -> utf16_is_low_surrogate lo = true ->
  utf16_decode hi lo
  = (0x10000 + (hi - 0xd800) * 0x400 + (lo - 0xdc00), 2)
  /\ forall hi' lo',
       is_uint16 hi' -> is_uint16 lo' ->
       utf16_is_high_surrogate hi' = true ->
       utf16_is_low_surrogate lo' = true ->
       utf16_decode hi' lo' = utf16_decode hi lo -> hi' = hi /\ lo' = lo.
Proof.
  assert (Hdec : forall h l,
             is_uint16 h -> is_uint16 l ->
             utf16_is_high_surrogate h = true ->
             utf16_is_low_surrogate l = true ->
             utf16_decode h l
             = (0x10000 + (h - 0xd800) * 0x400 + (l - 0xdc00), 2)
             /\ 0xd800 <= h <= 0xdbff /\ 0xdc00 <= l <= 0xdfff).
  { intros h l Hh Hl Hhigh Hlow. unfold utf16_decode.
    rewrite (high_is_surrogate h Hhigh), Hhigh, Hlow. cbn [negb andb].
    apply is_high_surrogate_range in Hhigh; [|assumption].
    apply is_low_surrogate_range in Hlow; [|assumption].
    rewrite surrogate_pair_value. split; [|split; assumption].
    f_equal. dlia. }
  intros Hhi Hlo Hhigh Hlow.
  destruct (Hdec hi lo Hhi Hlo Hhigh Hlow) as (E & Rh & Rl).
  split; [exact E|].
  intros hi' lo' Hhi' Hlo' Hhigh' Hlow' E'.
  destruct (Hdec hi' lo' Hhi' Hlo' Hhigh' Hlow') as (E2 & Rh' & Rl').
  rewrite E, E2 in E'. inversion E'. lia.
Qed.

Lemma surrogate_pair_formula_witness :
  utf16_decode 0xd83d 0xde00 = (0x1f600, 2).
Proof.
  exact (proj1 (surrogate_pair_formula 0xd83d 0xde00
                  ltac:(unfold is_uint16; lia) ltac:(unfold is_uint16; lia)
                  eq_refl eq_refl)).
Defined.

End UtfMore.

(** ** More on the string conversion *)

Module ConversionFacts.
Import Utf Nbu UtfFacts UtfMore ReaderFacts.

Lemma next_units_Forall (P : Z -> Prop) (n0 : Z) (rest : list Z) :
  Forall P rest -> Forall P (next_units n0 rest).
Proof.
  intros H. destruct rest as [|u rest']; [assumption|]. cbn [next_units].
  destruct (_ =? 2); [|assumption]. now inversion H.
Qed.

Lemma hd_uint16 (rest : list Z) : Forall is_uint16 rest -> is_uint16 (hd 0 rest).
Proof.
  intros H. destruct rest as [|u rest']; [unfold is_uint16; cbn; lia|].
  now inversion H.
Qed.

(** What the decoder gives for a unit that is not NUL. *)
Lemma utf16_decode_unit (u1 u2 : Z) :
  is_uint16 u1 -> is_uint16 u2 -> u1 <> 0 ->
  scalar_value (fst (utf16_decode u1 u2))
  /\ (snd (utf16_decode u1 u2) = 2 ->
      0xffff < fst (utf16_decode u1 u2) /\ u2 <> 0)
  /\ (snd (utf16_decode u1 u2) <> 2 -> fst (utf16_decode u1 u2) <= 0xffff).
Proof.
  intros H1 H2 Hnz. unfold utf16_decode, scalar_value.
  destruct (utf16_is_surrogate u1) eqn:Es; cbn [negb].
  - destruct (utf16_is_high_surrogate u1 && utf16_is_low_surrogate u2) eqn:Ep;
      cbn [fst snd].
    + pose proof (surrogate_pair_range u1 u2) as Hr.
      apply andb_prop in Ep as [_ El].
      apply is_low_surrogate_range in El; [|assumption].
      repeat split; lia.
    + unfold UTF_REPLACEMENT_CHAR. repeat split; lia.
  - cbn [fst snd].
    assert (~ (0xd800 <= u1 <= 0xdfff)) as Hn.
    { intros Hin. apply is_surrogate_range in Hin; [|assumption]. congruence. }
    unfold is_uint16 in H1. repeat split; lia.
Qed.

Lemma codepoints_scalar (n : nat) :
  forall utf16, (length utf16 <= n)%nat -> Forall is_uint16 utf16 ->
                Forall scalar_value (utf16_codepoints utf16).
Proof.
  induction n as [|n IH]; intros utf16 Hlen Hu.
  - destruct utf16; [constructor|simpl in Hlen; lia].
  - destruct utf16 as [|u1 rest]; [constructor|].
    destruct (Z.eq_dec u1 0) as [->|Hnz]; [constructor|].
    rewrite utf16_codepoints_cons by assumption.
    inversion Hu as [|? ? Hu1 Hrest]; subst.
    constructor.
    + apply utf16_decode_unit; [assumption|apply hd_uint16; assumption|assumption].
    + apply IH; [|apply next_units_Forall; assumption].
      pose proof (next_units_length (snd (utf16_decode u1 (hd 0 rest))) rest).
      simpl in Hlen. lia.
Qed.

(** X5: from 16-bit units the conversion loop decodes only Unicode
    scalar values other than NUL: an unpaired surrogate never gets
    through, it is replaced by U+FFFD. *)
Theorem decoded_code_points_are_scalar_values (utf16 : list Z) :
  Forall is_uint16 utf16 -> Forall scalar_value (utf16_codepoints utf16).
Proof. apply (codepoints_scalar (length utf16)). lia. Qed.

Lemma decoded_code_points_are_scalar_values_witness :
  Forall scalar_value (utf16_codepoints [0x48; 0xdc00; 0xd83d; 0xde00]).
Proof.
  apply decoded_code_points_are_scalar_values.
  repeat constructor; unfold is_uint16; lia.
Defined.

Lemma scalar_encoding (cp : Z) :
  scalar_value cp ->
  1 <= snd (utf8_encode cp) <= 4
  /\ (cp <= 0xffff -> snd (utf8_encode cp) <= 3)
  /\ Forall (fun b => 0 < b < 256) (fst (utf8_encode cp)).
Proof.
  intros [Hr _].
  destruct (Z_le_gt_dec cp 0x7f);
    [rewrite utf8_encode_1 by lia; cbn [fst snd];
     repeat split; try lia; repeat constructor; lia|].
  destruct (Z_le_gt_dec cp 0x7ff);
    [rewrite utf8_encode_2 by lia; cbn [fst snd];
     repeat split; try lia; repeat constructor; dlia|].
  destruct (Z_le_gt_dec cp 0xffff);
    [rewrite utf8_encode_3 by lia; cbn [fst snd];
     repeat split; try lia; repeat constructor; dlia|].
  rewrite utf8_encode_4 by lia. cbn [fst snd].
  repeat split; try lia; repeat constructor; dlia.
Qed.

Lemma utf8_bytes_nonzero (cps : list Z) :
  Forall scalar_value cps -> Forall (fun b => 0 < b < 256) (utf8_bytes cps).
Proof.
  induction 1 as [|cp cps Hcp _ IH]; [constructor|].
  cbn [utf8_bytes flat_map]. apply Forall_app. split; [|exact IH].
  apply scalar_encoding, Hcp.
Qed.

Lemma strlen_terminated (out : list Z) :
  Forall (fun b => 0 < b < 256) out ->
  strlen (out ++ [0]) = Z.of_nat (length out)
  /\ take (Z.to_nat (strlen (out ++ [0]))) (out ++ [0]) = out.
Proof.
  induction 1 as [|b out Hb _ [IHl IHt]].
  - split; reflexivity.
  - cbn [app strlen length]. destruct (Z.eqb_spec b 0); [lia|].
    pose proof (Zle_0_nat (length out)).
    split; [lia|].
    rewrite IHl in *. 
    replace (Z.to_nat (1 + Z.of_nat (length out))) with (S (length out)) by lia.
    cbn [take]. f_equal. rewrite Nat2Z.id in IHt. exact IHt.
Qed.

Lemma codepoints_size (n : nat) :
  forall utf16, (length utf16 <= n)%nat -> Forall is_uint16 utf16 ->
                utf8_size (utf16_codepoints utf16) <= 3 * Z.of_nat (length utf16).
Proof.
  induction n as [|n IH]; intros utf16 Hlen Hu.
  - destruct utf16; [cbn; lia|simpl in Hlen; lia].
  - destruct utf16 as [|u1 rest]; [cbn; lia|].
    destruct (Z.eq_dec u1 0) as [->|Hnz]; [cbn [utf16_codepoints Z.eqb utf8_size fold_right]; lia|].
    rewrite utf16_codepoints_cons by assumption.
    inversion Hu as [|? ? Hu1 Hrest]; subst.
    cbn [utf8_size fold_right].
    fold (utf8_size (utf16_codepoints
            (next_units (snd (utf16_decode u1 (hd 0 rest))) rest))).
    destruct (utf16_decode_unit u1 (hd 0 rest) Hu1 (hd_uint16 rest Hrest) Hnz)
      as (Hs & H2 & Hn2).
    destruct (scalar_encoding _ Hs) as (Hlen4 & Hlen3 & _).
    pose proof (next_units_length (snd (utf16_decode u1 (hd 0 rest))) rest)
      as Hnl.
    specialize (IH (next_units (snd (utf16_decode u1 (hd 0 rest))) rest)
                  ltac:(simpl in Hlen; lia)
                  (next_units_Forall _ _ _ Hrest)).
    cbn [length]. rewrite Nat2Z.inj_succ.
    destruct (Z.eq_dec (snd (utf16_decode u1 (hd 0 rest))) 2) as [E2|N2].
    + destruct (H2 E2) as [_ Hu2].
      destruct rest as [|u2 rest']; [cbn in Hu2; lia|].
      rewrite E2 in *. cbn [next_units Z.eqb Pos.eqb] in IH.
      cbn [next_units Z.eqb Pos.eqb length] in *.
      rewrite Nat2Z.inj_succ. lia.
    + specialize (Hlen3 (Hn2 N2)). lia.
Qed.

Lemma nbu_convert_utf16_to_utf8_Some (utf16 : list Z) :
  Forall is_uint16 utf16 -> 3 * Z.of_nat (length utf16) < SIZE_MAX ->
  nbu_convert_utf16_to_utf8 utf16
  = Some (utf8_bytes (utf16_codepoints utf16) ++ [0]).
Proof.
  intros Hu Hlen.
  pose proof (codepoints_size (length utf16) utf16 ltac:(lia) Hu) as Hsz.
  pose proof (utf8_size_nonneg (utf16_codepoints utf16)) as Hnn.
  pose proof SIZE_MAX_val as HM.
  unfold nbu_convert_utf16_to_utf8.
  assert (Hsize : snd (utf16_convert_string_to_utf8 false 0 utf16)
                  = utf8_size (utf16_codepoints utf16)).
  { unfold utf16_convert_string_to_utf8. cbn [andb].
    rewrite (size_pass_loop (length utf16)) by lia.
    cbn [snd]. lia. }
  rewrite Hsize.
  destruct (Z.eqb_spec (utf8_size (utf16_codepoints utf16)) SIZE_MAX); [lia|].
  unfold to_size_t. rewrite Z.mod_small by lia.
  unfold utf16_convert_string_to_utf8.
  replace (utf8_size (utf16_codepoints utf16) + 1 =? 0) with false
    by (symmetry; apply Z.eqb_neq; lia).
  cbn [andb]. rewrite (fill_pass_loop (length utf16)) by lia.
  reflexivity.
Qed.

(** X6: for an array of 16-bit units short enough for [size_t], the
    conversion to UTF-8 does not fail; its bytes before the terminator are
    the encodings of the decoded code points, none of them is NUL, so
    [strlen] gives their number, and there are at most three per unit. *)
Theorem nbu_convert_utf16_to_utf8_total (utf16 : list Z) :
  Forall is_uint16 utf16 -> 3 * Z.of_nat (length utf16) < SIZE_MAX ->
  let out := utf8_bytes (utf16_codepoints utf16) in
  nbu_convert_utf16_to_utf8 utf16 = Some (out ++ [0])
  /\ strlen (out ++ [0]) = Z.of_nat (length out)
  /\ take (Z.to_nat (strlen (out ++ [0]))) (out ++ [0]) = out
  /\ Z.of_nat (length out) <= 3 * Z.of_nat (length utf16).
Proof.
  cbn zeta. intros Hu Hlen.
  pose proof (codepoints_size (length utf16) utf16 ltac:(lia) Hu) as Hsz.
  pose proof (codepoints_scalar (length utf16) utf16 ltac:(lia) Hu) as Hsc.
  destruct (strlen_terminated _ (utf8_bytes_nonzero _ Hsc)) as [Hstr Htake].
  split; [|split; [exact Hstr|split; [exact Htake|]]].
  - apply nbu_convert_utf16_to_utf8_Some; assumption.
  - rewrite utf8_bytes_length. exact Hsz.
Qed.

Lemma nbu_convert_utf16_to_utf8_total_witness :
  nbu_convert_utf16_to_utf8 [0x48; 0x20ac; 0]
  = Some ([0x48; 0xe2; 0x82; 0xac] ++ [0]).
Proof.
  exact (proj1 (nbu_convert_utf16_to_utf8_total [0x48; 0x20ac; 0]
                  ltac:(repeat constructor; unfold is_uint16; lia)
                  ltac:(vm_compute; reflexivity))).
Defined.

(** *** The fill pass stays in its buffer *)

Lemma fill_pass_bounded (n : nat) :
  forall (bufsize : Z) (utf16 out : list Z) (buflen : Z),
    (length utf16 <= n)%nat ->
    0 <= buflen -> buflen + 1 <= bufsize <= SIZE_MAX ->
    exists k,
      convert_loop true bufsize utf16 out buflen
      = (out ++ utf8_bytes (take k (utf16_codepoints utf16)),
         buflen + utf8_size (take k (utf16_codepoints utf16)))
      /\ buflen + utf8_size (take k (utf16_codepoints utf16)) + 1 <= bufsize.
Proof.
  pose proof SIZE_MAX_val as HM.
  induction n as [|n IH]; intros bufsize utf16 out buflen Hlen Hb Hsz.
  - destruct utf16; [|simpl in Hlen; lia].
    exists 0%nat. cbn. rewrite app_nil_r. split; [f_equal; lia|lia].
  - destruct utf16 as [|u1 rest].
    { exists 0%nat. cbn. rewrite app_nil_r. split; [f_equal; lia|lia]. }
    destruct (Z.eq_dec u1 0) as [->|Hu].
    { exists 0%nat. cbn. rewrite app_nil_r. split; [f_equal; lia|lia]. }
    rewrite convert_loop_cons, utf16_codepoints_cons by assumption.
    cbn zeta. cbn [negb].
    set (cp := fst (utf16_decode u1 (hd 0 rest))).
    set (next := next_units _ rest).
    pose proof (utf8_encode_range cp) as Hs.
    unfold to_size_t. rewrite HM.
    rewrite (Z.mod_small (bufsize - buflen)) by lia.
    rewrite (Z.mod_small (bufsize - buflen - 1)) by lia.
    destruct ((bufsize - buflen - 1 <? 4)
              && (snd (utf8_encode cp) >? bufsize - buflen - 1)) eqn:Ebreak.
    + exists 0%nat. cbn. rewrite app_nil_r. split; [f_equal; lia|lia].
    + assert (Hfit : snd (utf8_encode cp) <= bufsize - buflen - 1).
      { apply andb_false_iff in Ebreak as [E|E].
        - apply Z.ltb_ge in E. lia.
        - destruct (Z.gtb_spec (snd (utf8_encode cp)) (bufsize - buflen - 1));
            [discriminate|lia]. }
      rewrite (Z.mod_small (buflen + _)) by lia.
      destruct (IH bufsize next (out ++ fst (utf8_encode cp))
                  (buflen + snd (utf8_encode cp))) as (k & E & Hk).
      * pose proof (next_units_length (snd (utf16_decode u1 (hd 0 rest))) rest).
        simpl in Hlen. subst next. lia.
      * lia.
      * lia.
      * exists (S k). rewrite E. cbn [take utf8_bytes flat_map utf8_size fold_right].
        fold (utf8_bytes (take k (utf16_codepoints next))).
        fold (utf8_size (take k (utf16_codepoints next))).
        rewrite <- app_assoc. split; [f_equal; lia|lia].
Qed.

(** X7: the fill pass never writes outside its buffer.  For a buffer
    of [bufsize] bytes, not empty, it returns a length below [bufsize],
    stores that many bytes and the terminator, and the bytes are the
    whole encodings of the first code points of the string: no sequence
    is cut.  For an empty buffer it stores nothing and returns 0. *)
Theorem fill_pass_stays_in_buffer (bufsize : Z) (utf16 : list Z) :
  0 <= bufsize <= SIZE_MAX ->
  let r := utf16_convert_string_to_utf8 true bufsize utf16 in
  (bufsize = 0 -> r = ([], 0))
  /\ (0 < bufsize ->
      0 <= snd r < bufsize
      /\ Z.of_nat (length (fst r)) = snd r + 1
      /\ exists k, fst r = utf8_bytes (take k (utf16_codepoints utf16)) ++ [0]).
Proof.
  cbn zeta. intros Hb. split.
  - intros ->. reflexivity.
  - intros Hpos. unfold utf16_convert_string_to_utf8.
    destruct (Z.eqb_spec bufsize 0); [lia|]. cbn [andb].
    destruct (fill_pass_bounded (length utf16) bufsize utf16 [] 0)
      as (k & E & Hk); [lia|lia|lia|].
    rewrite E. cbn [fst snd app].
    pose proof (utf8_size_nonneg (take k (utf16_codepoints utf16))).
    split; [lia|]. split; [|exists k; reflexivity].
    rewrite length_app, Nat2Z.inj_add, utf8_bytes_length. cbn. lia.
Qed.

Lemma fill_pass_stays_in_buffer_witness :
  let r := utf16_convert_string_to_utf8 true 4 [0x48; 0x20ac; 0x49] in
  0 <= snd r < 4
  /\ Z.of_nat (length (fst r)) = snd r + 1
  /\ exists k, fst r
               = utf8_bytes (take k (utf16_codepoints [0x48; 0x20ac; 0x49])) ++ [0].
Proof.
  apply (fill_pass_stays_in_buffer 4 [0x48; 0x20ac; 0x49]).
  - vm_compute. split; discriminate.
  - lia.
Defined.

End ConversionFacts.

(** ** More on the reader *)

Module ParserFacts.
Import Utf Nbu UtfFacts UtfMore ConversionFacts ReaderFacts HandlerFacts
       InvariantFacts DispatcherFacts.

(** *** The file time *)

Lemma file_time_value (hi lo : Z) :
  0 <= hi < 4294967296 -> 0 <= lo < 4294967296 ->
  Z.lor (to_uint64 (Z.shiftl hi 32)) lo = hi * 4294967296 + lo.
Proof.
  intros Hhi Hlo. rewrite Z.shiftl_mul_pow2 by lia.
  change (2 ^ 32) with 4294967296.
  unfold to_uint64. change (2 ^ 64) with 18446744073709551616.
  rewrite Z.mod_small by lia.
  apply (lor_disjoint _ _ 32); [lia|change (2 ^ 32) with 4294967296; lia|].
  rewrite Z.land_ones by lia. change (2 ^ 32) with 4294967296.
  apply Z_mod_mult.
Qed.

(** X8: a file time is stored as two little-endian 32-bit words, the
    high-order word first: with eight bytes left the function returns
    [hi * 2^32 + lo], which fits 64 bits, and leaves the stream behind
    them; with fewer it fails with the end-of-file error. *)
Theorem nbu_read_file_time_value (c : nbu_ctx) :
  let p := f_pos (fp c) in
  0 <= p ->
  (p + 8 <= file_size c ->
   nbu_read_file_time c
   = Ok (peek c p 4 * 2 ^ 32 + peek c (p + 4) 4) (set_pos (p + 8) c)
   /\ 0 <= peek c p 4 * 2 ^ 32 + peek c (p + 4) 4 < 2 ^ 64)
  /\ (file_size c < p + 8 ->
      exists c', nbu_read_file_time c = Err Unexpected_end_of_file c').
Proof.
  cbn zeta. intros Hp.
  pose proof (peek32_range c (f_pos (fp c))) as Hhi.
  pose proof (peek32_range c (f_pos (fp c) + 4)) as Hlo.
  split.
  - intros Hsz. split; [|change (2 ^ 32) with 4294967296;
                         change (2 ^ 64) with 18446744073709551616; lia].
    rewrite (start_at nbu_read_file_time). unfold nbu_read_file_time, nbu_read_uint32.
    rewrite bind_read_at by lia. rewrite bind_read_at by lia.
    unfold ret. rewrite file_time_value by assumption.
    change (2 ^ 32) with 4294967296. same_outcome.
  - intros Hsz. unfold nbu_read_file_time, nbu_read_uint32.
    destruct (Z_le_gt_dec (f_pos (fp c) + 4) (file_size c)) as [Hin|Hout].
    + rewrite (start_at (bind _ _)). rewrite bind_read_at by lia.
      destruct (read_uint_short 4 (set_pos (f_pos (fp c) + 4) c)) as [c' E].
      { rewrite file_size_set_pos. cbn. lia. }
      exists c'. now rewrite (bind_fail _ _ _ _ _ E).
    + destruct (read_uint_short 4 c) as [c' E]; [lia|].
      exists c'. now rewrite (bind_fail _ _ _ _ _ E).
Qed.

Lemma nbu_read_file_time_value_witness :
  nbu_read_file_time (nbu_ctx_init (le_bytes 4 0x01d0 ++ le_bytes 4 0x2a))
  = Ok (0x01d0 * 2 ^ 32 + 0x2a)
       (set_pos 8 (nbu_ctx_init (le_bytes 4 0x01d0 ++ le_bytes 4 0x2a))).
Proof.
  apply (proj1 (nbu_read_file_time_value
                  (nbu_ctx_init (le_bytes 4 0x01d0 ++ le_bytes 4 0x2a))
                  ltac:(cbn; lia))).
  vm_compute. discriminate.
Defined.

(** *** The section table *)

Lemma guid_len : Z.to_nat NBU_GUID_LEN = 16%nat.
Proof. reflexivity. Qed.

Lemma find_section_miss (guid : list Z) (table : list (list Z * section_kind)) :
  ~ In (take 16 guid) (map (fun e => take 16 (fst e)) table) ->
  find_section guid table = None.
Proof.
  induction table as [|[g k] table IH]; intros Hn; [reflexivity|].
  cbn [find_section]. unfold guid_eqb. rewrite guid_len.
  rewrite bool_decide_eq_false_2.
  - apply IH. intros Hin. apply Hn. right. exact Hin.
  - intros E. apply Hn. left. cbn [fst]. now symmetry.
Qed.

(** X9: the section table is keyed by the sixteen bytes of the GUID and
    no GUID is in it twice: a GUID of the table reaches the handler of
    its own entry, whatever the order of the search, and every other
    GUID makes the read fail with the unsupported-section error, the
    context untouched. *)
Theorem section_table_dispatch (guid : list Z) (pos : Z) :
  NoDup (map fst nbu_sections)
  /\ (forall g k, In (g, k) nbu_sections -> take 16 guid = g ->
                  nbu_read_section guid pos = section_read k pos)
  /\ (~ In (take 16 guid) (map fst nbu_sections) ->
      forall c, nbu_read_section guid pos c = Err Unsupported_section c).
Proof.
  split; [|split].
  - apply (bool_decide_unpack _). vm_compute. exact I.
  - intros g k Hin Hg. unfold nbu_read_section.
    assert (find_section guid nbu_sections = Some k) as ->; [|reflexivity].
    unfold nbu_sections in *. cbn [find_section].
    unfold guid_eqb. rewrite guid_len, Hg.
    cbn [In] in Hin.
    repeat (destruct Hin as [Hin|Hin];
            [inversion Hin; subst; vm_compute; reflexivity|]).
    destruct Hin.
  - intros Hn c. unfold nbu_read_section.
    rewrite find_section_miss; [reflexivity|].
    intros Hin. apply Hn. exact Hin.
Qed.

Lemma section_table_dispatch_witness :
  nbu_read_section (guid_memos ++ [0x55]) 7 = section_read Memos 7
  /\ nbu_read_section (replicate 16 0) 7 (nbu_ctx_init [])
     = Err Unsupported_section (nbu_ctx_init []).
Proof.
  split.
  - apply (proj1 (proj2 (section_table_dispatch (guid_memos ++ [0x55]) 7))
             guid_memos Memos).
    + vm_compute. tauto.
    + reflexivity.
  - apply (proj2 (proj2 (section_table_dispatch (replicate 16 0) 7))).
    vm_compute. intuition discriminate.
Defined.

(** *** Item lists *)

Lemma read_units_inv (n : nat) :
  forall (c : nbu_ctx) (acc acc' : list Z) (c' : nbu_ctx),
    for_loop n (fun utf16 => u <- nbu_read_uint16 ;; ret (utf16 ++ [u])) acc c
    = Ok acc' c' ->
    exists new, acc' = acc ++ new /\ length new = n /\ Forall is_uint16 new
                /\ f_data (fp c') = f_data (fp c)
                /\ f_pos (fp c') = f_pos (fp c) + 2 * Z.of_nat n.
Proof.
  induction n as [|n IH]; intros c acc acc' c' H.
  - inversion H; subst. exists []. rewrite app_nil_r.
    repeat split; [constructor|lia].
  - cbn [for_loop] in H. mfirst H acc1 c1 E.
    mfirst E u c2 E2. inversion E; subst.
    apply read_uint_inv in E2 as (_ & _ & -> & ->).
    apply IH in H as (new & -> & Hlen & Hu & Hd & Hp).
    exists (peek c (f_pos (fp c)) 2 :: new).
    rewrite <- app_assoc. cbn [app length].
    repeat split; [congruence| |exact Hd|cbn in Hp; lia].
    constructor; [apply peek16_range|assumption].
Qed.

Lemma nbu_read_utf16_inv (c : nbu_ctx) (s : list Z) (c' : nbu_ctx) :
  nbu_read_utf16 c = Ok s c' ->
  file_string s
  /\ f_data (fp c') = f_data (fp c)
  /\ f_pos (fp c') = f_pos (fp c) + 2 + 2 * peek c (f_pos (fp c)) 2.
Proof.
  intros H. unfold nbu_read_utf16 in H. mfirst H len c1 E.
  apply read_uint_inv in E as (_ & _ & -> & ->).
  pose proof (peek16_range c (f_pos (fp c))) as Hr.
  unfold nbu_read_utf16_n in H.
  destruct (_ =? SIZE_MAX); [discriminate|].
  mfirst H utf16 c2 E. inversion H; subst.
  apply read_units_inv in E as (new & -> & Hlen & Hu & Hd & Hp).
  cbn [app] in *. unfold file_string.
  repeat split.
  - apply Forall_app. split; [assumption|].
    repeat constructor; unfold is_uint16; lia.
  - rewrite length_app, Hlen. cbn [length]. lia.
  - exact Hd.
  - cbn in Hp. lia.
Qed.

(** The tail the three item loops share: the length word, the position
    behind it, the new item and the seek over its content. *)
Lemma record_item_inv (items : list nbu_item) (c : nbu_ctx)
    (l' : list nbu_item) (c' : nbu_ctx) :
  (len <- nbu_read_uint32 ;;
   pos <- nbu_tell ;;
   nbu_seek len SEEK_CUR ;;;
   ret (nbu_add_item items pos len)) c = Ok l' c' ->
  exists it, l' = items ++ [it] /\ item_pos it = f_pos (fp c) + 4
             /\ 0 <= item_len it < 2 ^ 32
             /\ f_pos (fp c') = item_end it
             /\ f_data (fp c') = f_data (fp c).
Proof.
  intros H. mfirst H len c1 E1.
  apply read_uint_inv in E1 as (_ & _ & -> & ->).
  mfirst H pos c2 E2. apply nbu_tell_inv in E2 as [-> ->].
  mfirst H u c3 E3. apply nbu_seek_inv in E3 as [_ ->].
  inversion H; subst.
  pose proof (peek32_range c (f_pos (fp c))) as Hr.
  eexists. split; [reflexivity|].
  unfold item_end. cbn. change (2 ^ 32) with 4294967296.
  repeat split; lia.
Qed.

Lemma for_loop_items (body : list nbu_item -> M (list nbu_item)) :
  appends_item body ->
  forall n l c l' c',
    0 <= f_pos (fp c) -> for_loop n body l c = Ok l' c' ->
    exists new, l' = l ++ new /\ length new = n
                /\ items_in_order (f_pos (fp c)) new
                /\ f_pos (fp c') = last_end (f_pos (fp c)) new
                /\ f_data (fp c') = f_data (fp c).
Proof.
  intros Hb. induction n as [|n IH]; intros l c l' c' Hp H.
  - inversion H; subst. exists []. rewrite app_nil_r. repeat split.
  - cbn [for_loop] in H. mfirst H l1 c1 E.
    apply Hb in E as (it & -> & Hpos & Hlen & Hend & Hd); [|assumption].
    apply IH in H as (new & -> & Hn & Hord & Hlast & Hd');
      [|unfold item_end in Hend; lia].
    exists (it :: new). rewrite <- app_assoc. cbn [app length].
    rewrite Hend in *.
    repeat split; try assumption; try lia; congruence.
Qed.

Lemma nbu_read_vcard_appends : appends_item nbu_read_vcard.
Proof.
  intros l c l' c' Hp H. unfold nbu_read_vcard in H.
  mfirst H test c1 E1. apply read_uint_inv in E1 as (_ & _ & _ & ->).
  mfirst H u c2 E2.
  assert (f_data (fp c2) = f_data (fp c)
          /\ f_pos (fp c) + 4 <= f_pos (fp c2)) as [Hd2 Hp2].
  { destruct (negb _).
    - inversion E2; subst. cbn. split; [reflexivity|lia].
    - mfirst E2 test2 c3 E3. inversion E2; subst.
      apply read_uint_inv in E3 as (_ & _ & _ & ->). cbn. split; [reflexivity|lia]. }
  apply record_item_inv in H as (it & -> & Hpos & Hlen & Hend & Hd).
  exists it. repeat split; try assumption; try lia; congruence.
Qed.

Lemma nbu_read_message_appends : appends_item nbu_read_message.
Proof.
  intros l c l' c' Hp H. unfold nbu_read_message in H.
  mfirst H u c1 E1. apply nbu_seek_inv in E1 as [_ ->].
  apply record_item_inv in H as (it & -> & Hpos & Hlen & Hend & Hd).
  exists it. cbn in *. repeat split; try assumption; try lia.
Qed.

Lemma nbu_read_mms_appends : appends_item nbu_read_mms.
Proof.
  intros l c l' c' Hp H. unfold nbu_read_mms in H.
  mfirst H u c1 E1. apply nbu_seek_inv in E1 as [_ ->].
  mfirst H n c2 E2. apply read_uint_inv in E2 as (_ & _ & _ & ->).
  mfirst H u2 c3 E3.
  assert (f_data (fp c3) = f_data (fp c)
          /\ f_pos (fp c) <= f_pos (fp c3)) as [Hd3 Hp3].
  { revert E3.
    apply (for_loop_invariant
             (fun _ c0 => f_data (fp c0) = f_data (fp c)
                          /\ f_pos (fp c) <= f_pos (fp c0))).
    - intros [] c0 [] c0' [Hd0 Hp0] E.
      mfirst E u3 c4 E4. apply nbu_seek_inv in E4 as [_ ->].
      mfirst E s c5 E5. apply nbu_read_utf16_inv in E5 as (_ & Hd5 & Hp5).
      apply debug_utf8_inv in E. subst c0'.
      pose proof (peek16_range (set_pos (f_pos (fp c0) + 8) c0)
                    (f_pos (fp (set_pos (f_pos (fp c0) + 8) c0)))).
      cbn in *. split; [congruence|lia].
    - cbn. split; [reflexivity|lia]. }
  mfirst H u4 c4 E4. apply nbu_seek_inv in E4 as [_ ->].
  apply record_item_inv in H as (it & -> & Hpos & Hlen & Hend & Hd).
  exists it. cbn in *. repeat split; try assumption; try lia; congruence.
Qed.

Lemma item_loop_at (body : list nbu_item -> M (list nbu_item)) (c0 : nbu_ctx)
    (c : nbu_ctx) (l' : list nbu_item) (c' : nbu_ctx) :
  appends_item body ->
  0 <= f_pos (fp c) -> f_data (fp c) = f_data (fp c0) ->
  (nitems <- nbu_read_uint32 ;; for_loop (Z.to_nat nitems) body []) c
  = Ok l' c' ->
  item_list_at c0 (f_pos (fp c)) l' c'.
Proof.
  intros Hb Hp Hd H. mfirst H nitems c1 E.
  apply read_uint_inv in E as (_ & _ & -> & ->).
  pose proof (peek32_range c (f_pos (fp c))) as Hr.
  apply (for_loop_items body Hb) in H as (new & -> & Hn & Hord & Hlast & _);
    [|cbn; lia].
  cbn [app]. cbn in Hord, Hlast. unfold item_list_at.
  rewrite (peek_same_data c c0) by (symmetry; exact Hd).
  repeat split; [lia|assumption|assumption].
Qed.

Lemma folder_header_inv (folder_pos : Z) (c : nbu_ctx) {A} (k : list Z -> M A)
    (a : A) (c' : nbu_ctx) :
  (nbu_seek (to_long (folder_pos + 4)) SEEK_SET ;;;
   name <- nbu_read_utf16 ;; k name) c = Ok a c' ->
  exists name c1,
    k name c1 = Ok a c' /\ file_string name
    /\ f_data (fp c1) = f_data (fp c)
    /\ f_pos (fp c1) = folder_count_pos c folder_pos
    /\ 0 <= f_pos (fp c1).
Proof.
  intros H. mfirst H u c1 E1. apply nbu_seek_inv in E1 as [Hq ->].
  mfirst H name c2 E2. apply nbu_read_utf16_inv in E2 as (Hs & Hd & Hp).
  exists name, c2. cbn in Hd, Hp. rewrite peek_set_pos in Hp.
  pose proof (peek16_range c (to_long (folder_pos + 4))).
  unfold folder_count_pos. cbn zeta.
  split; [exact H|]. split; [exact Hs|]. split; [exact Hd|].
  split; [exact Hp|lia].
Qed.

(** X10: every item list is read in file order.  A list with its count
    word at an offset holds as many items as the word says; each item
    starts behind its own length word, at least four bytes behind the end
    of the item before, so no two items overlap; and the stream is left
    behind the last item.  This holds for the list of a vCard section or
    folder and for the items of a message and of an MMS folder, whose
    count word lies behind the folder name. *)
Theorem item_lists_in_file_order (c : nbu_ctx) :
  (forall l' c', 0 <= f_pos (fp c) -> nbu_read_vcards [] c = Ok l' c' ->
                 item_list_at c (f_pos (fp c)) l' c')
  /\ (forall folder_pos folder c',
        nbu_read_vcard_folder folder_pos c = Ok folder c'
        \/ nbu_read_message_folder folder_pos c = Ok folder c'
        \/ nbu_read_mms_folder folder_pos c = Ok folder c' ->
        item_list_at c (folder_count_pos c folder_pos)
          (folder_items folder) c').
Proof.
  split.
  - intros l' c' Hp H. unfold nbu_read_vcards in H.
    apply (item_loop_at nbu_read_vcard c c l' c' nbu_read_vcard_appends);
      [assumption|reflexivity|exact H].
  - intros folder_pos folder c' [H|[H|H]].
    + unfold nbu_read_vcard_folder in H.
      apply folder_header_inv in H as (name & c1 & H & _ & Hd & Hp & Hp0).
      mfirst H u c2 E. apply debug_utf8_inv in E. subst c2.
      mfirst H items c3 E. inversion H; subst. cbn [folder_items].
      rewrite <- Hp. unfold nbu_read_vcards in E.
      apply (item_loop_at nbu_read_vcard c c1 items c' nbu_read_vcard_appends);
        assumption.
    + unfold nbu_read_message_folder in H.
      apply folder_header_inv in H as (name & c1 & H & _ & Hd & Hp & Hp0).
      rewrite <- Hp.
      apply (item_loop_at nbu_read_message c c1 (folder_items folder) c'
               nbu_read_message_appends); [assumption|assumption|].
      mfirst H nitems c2 E. rewrite (bind_step _ _ _ _ _ E).
      mfirst H u c3 E3. apply debug_utf8_inv in E3. subst c3.
      mfirst H items c4 E4. inversion H; subst. exact E4.
    + unfold nbu_read_mms_folder in H.
      apply folder_header_inv in H as (name & c1 & H & _ & Hd & Hp & Hp0).
      rewrite <- Hp.
      apply (item_loop_at nbu_read_mms c c1 (folder_items folder) c'
               nbu_read_mms_appends); [assumption|assumption|].
      mfirst H nitems c2 E. rewrite (bind_step _ _ _ _ _ E).
      mfirst H u c3 E3. apply debug_utf8_inv in E3. subst c3.
      mfirst H items c4 E4. inversion H; subst. exact E4.
Qed.

Lemma item_lists_in_file_order_witness :
  let c := nbu_ctx_init (le_bytes 4 2 ++ le_bytes 4 0 ++ le_bytes 4 3
                         ++ zeros 3 ++ le_bytes 4 0x10 ++ le_bytes 4 1
                         ++ le_bytes 4 2 ++ zeros 2) in
  item_list_at c 0
    [{| item_pos := 12; item_len := 3 |}; {| item_pos := 27; item_len := 2 |}]
    (set_pos 29 c).
Proof.
  intros c.
  apply (proj1 (item_lists_in_file_order c)
           [{| item_pos := 12; item_len := 3 |};
            {| item_pos := 27; item_len := 2 |}] (set_pos 29 c)).
  - cbn. lia.
  - vm_compute. reflexivity.
Defined.

(** *** The failures of a parse *)

Lemma fails_only_fail {A} (e : nbu_error) (E : nbu_error -> Prop) :
  E e -> fails_only (fun _ => True) (@fail A e) E.
Proof. intros He c e' c' _ H. inversion H; subst. exact He. Qed.

Lemma fails_only_on_error {A} (m : M A) (cleanup : nbu_ctx -> nbu_ctx)
    (E : nbu_error -> Prop) :
  fails_only (fun _ => True) m E ->
  fails_only (fun _ => True) (on_error m cleanup) E.
Proof.
  intros Hm c e c' _ H.
  destruct (proj1 (on_error_Err m cleanup c e) (ex_intro _ c' H)) as [c1 E1].
  exact (Hm c e c1 I E1).
Qed.

Lemma fails_only_bind_yields {A B} (m : M A) (k : A -> M B)
    (E : nbu_error -> Prop) (Q : A -> Prop) :
  fails_only (fun _ => True) m E -> yields m Q ->
  (forall a, Q a -> fails_only (fun _ => True) (k a) E) ->
  fails_only (fun _ => True) (bind m k) E.
Proof.
  intros Hm Hy Hk c e c' _ H. apply bind_Err in H as [H|(a & c1 & E1 & H)].
  - exact (Hm c e c' I H).
  - exact (Hk a (Hy c a c1 E1) c1 e c' I H).
Qed.

Lemma read_uint_parse (size : Z) :
  fails_only (fun _ => True) (read_uint size) parse_error.
Proof.
  intros c e c' _ H. apply read_uint_err in H. subst. left. reflexivity.
Qed.

Lemma nbu_read_parse (size : Z) :
  fails_only (fun _ => True) (nbu_read size) parse_error.
Proof.
  intros c e c' _ H. apply nbu_read_err in H. subst. left. reflexivity.
Qed.

Lemma nbu_seek_parse (offset : Z) (w : whence) :
  fails_only (fun _ => True) (nbu_seek offset w) parse_error.
Proof.
  intros c e c' _ H. apply nbu_seek_err in H as [-> _]. right. left. reflexivity.
Qed.

Lemma nbu_tell_parse : fails_only (fun _ => True) nbu_tell parse_error.
Proof.
  intros c e c' _ H. apply nbu_tell_err in H as [-> _].
  right. right. left. reflexivity.
Qed.

Lemma nbu_read_utf16_parse :
  fails_only (fun _ => True) nbu_read_utf16 parse_error.
Proof.
  intros c e c' _ H. apply nbu_read_utf16_err in H. subst. left. reflexivity.
Qed.

Lemma nbu_read_utf16_yields : yields nbu_read_utf16 file_string.
Proof. intros c s c' H. now apply nbu_read_utf16_inv in H. Qed.

(** The conversion of a string read from the file does not fail. *)
Lemma debug_utf8_file_string (s : list Z) :
  file_string s -> debug_utf8 s = ret tt.
Proof.
  intros [Hu Hlen]. unfold debug_utf8.
  rewrite nbu_convert_utf16_to_utf8_Some; [reflexivity|assumption|].
  rewrite SIZE_MAX_val. lia.
Qed.

Lemma debug_utf8_parse (s : list Z) :
  file_string s -> fails_only (fun _ => True) (debug_utf8 s) parse_error.
Proof.
  intros Hs. rewrite debug_utf8_file_string by assumption.
  apply fails_only_ret.
Qed.

Ltac parse_step :=
  first
    [ apply fails_only_ret | apply fails_only_modify
    | apply read_uint_parse | apply nbu_read_parse
    | apply nbu_seek_parse | apply nbu_tell_parse
    | apply debug_utf8_parse; assumption
    | apply fails_only_fail; unfold parse_error; tauto
    | apply fails_only_on_error
    | apply fails_only_for_loop; intros
    | apply (fails_only_bind_yields _ _ _ file_string);
      [apply nbu_read_utf16_parse|apply nbu_read_utf16_yields|intros ? ?]
    | apply fails_only_bind; [|intros]
    | progress cbn zeta
    | match goal with
      | |- fails_only _ (if ?b then _ else _) _ => destruct b
      end ].

Ltac parse_steps := repeat parse_step.

Lemma nbu_read_vcards_parse (l : list nbu_item) :
  fails_only (fun _ => True) (nbu_read_vcards l) parse_error.
Proof. unfold nbu_read_vcards, nbu_read_vcard. parse_steps. Qed.

Lemma nbu_read_vcard_section_parse (section_pos : Z)
    (set_list : option (list nbu_item) -> nbu_ctx -> nbu_ctx) :
  fails_only (fun _ => True) (nbu_read_vcard_section section_pos set_list)
    parse_error.
Proof.
  unfold nbu_read_vcard_section. parse_steps.
Qed.

Lemma section_read_parse (k : section_kind) (section_pos : Z) :
  fails_only (fun _ => True) (section_read k section_pos) parse_error.
Proof.
  destruct k; cbn [section_read].
  - apply nbu_read_vcard_section_parse.
  - unfold nbu_read_groups_section, nbu_read_group_folder. parse_steps.
  - unfold nbu_read_advanced_settings_section. parse_steps.
  - unfold nbu_read_mms_section, nbu_read_mms_folder, nbu_read_mms. parse_steps.
  - unfold nbu_read_memos_section, nbu_read_memo. parse_steps.
  - unfold nbu_read_messages_section, nbu_read_message_folder, nbu_read_message.
    parse_steps.
  - unfold nbu_read_bookmarks_section, nbu_read_vcard_folder_section,
      nbu_read_vcard_folder.
    parse_steps.
  - apply nbu_read_vcard_section_parse.
Qed.

Lemma nbu_read_sections_parse :
  fails_only (fun _ => True) nbu_read_sections parse_error.
Proof.
  unfold nbu_read_sections, nbu_read_section_entry. parse_steps.
  unfold nbu_read_section. destruct (find_section _ _).
  - apply section_read_parse.
  - parse_steps.
Qed.

(** X11: whatever the file holds, a failed [nbu_open] reports the end
    of the file, a failed seek or tell, a vCard section with folders, a
    memo that is too large or an unsupported section.  It never reports
    a string that is too long: the count of a string of the file has 16
    bits, so the guard of [nbu_read_utf16_n] does not fire, and the
    conversion of such a string for the debugging output has at most
    three bytes per unit and cannot reach [SIZE_MAX]. *)
Theorem nbu_open_failures (data : list byte) (e : nbu_error) (c : nbu_ctx) :
  nbu_open data = Err e c -> parse_error e /\ e <> String_too_long.
Proof.
  intros H.
  assert (fails_only (fun _ => True)
            (nbu_seek 20 SEEK_SET ;;;
             pos <- nbu_read_uint64 ;;
             nbu_seek (to_long (pos + 20)) SEEK_SET ;;;
             t <- nbu_read_file_time ;;
             modify (set_backup_time t) ;;;
             s <- nbu_read_utf16 ;; modify (set_phone_imei (Some s)) ;;;
             s <- nbu_read_utf16 ;; modify (set_phone_model (Some s)) ;;;
             s <- nbu_read_utf16 ;; modify (set_phone_name (Some s)) ;;;
             s <- nbu_read_utf16 ;; modify (set_phone_firmware (Some s)) ;;;
             s <- nbu_read_utf16 ;; modify (set_phone_language (Some s)) ;;;
             nbu_seek 20 SEEK_CUR ;;;
             nbu_read_sections) parse_error) as Hf.
  { unfold nbu_read_file_time.
    repeat first [apply nbu_read_sections_parse | parse_step]. }
  pose proof (Hf (nbu_ctx_init data) e c I H) as He.
  split; [exact He|].
  intros ->. unfold parse_error in He. intuition discriminate.
Qed.

Lemma nbu_open_failures_witness :
  parse_error Unsupported_section /\ Unsupported_section <> String_too_long.
Proof.
  apply (nbu_open_failures sample_unknown_section Unsupported_section
           (result_ctx (nbu_open sample_unknown_section))).
  vm_compute. reflexivity.
Defined.

End ParserFacts.

(** ** More on the export *)

Module ItemExportFacts.
Import Utf Nbu UtfFacts UtfMore ConversionFacts ReaderFacts HandlerFacts
       ExportFacts InvariantFacts DispatcherFacts ParserFacts.

(** *** Items copied as they are *)

Lemma run_seek_set (pos : Z) (w : world) :
  0 <= pos <= LONG_MAX ->
  run (nbu_seek pos SEEK_SET) w = (Some tt, set_ctx (set_pos pos (w_ctx w)) w).
Proof. intros H. unfold run. now rewrite nbu_seek_set_ok. Qed.

Lemma nbu_write_open (fd : string) (buf content : list byte) (w : world) :
  w_fs w !! fd = Some (File content) ->
  nbu_write fd buf w = (0, set_fs (<[fd := File (content ++ buf)]> (w_fs w)) w).
Proof.
  intros H. unfold nbu_write. rewrite H.
  now rewrite (alter_alt_Some _ _ _ _ H).
Qed.

Lemma export_item_copies (item : nbu_item) (fd : string) (w : world)
    (content : list byte) :
  file_size (w_ctx w) <= LONG_MAX ->
  item_allocated w item ->
  item_within (f_data (fp (w_ctx w))) item ->
  w_fs w !! fd = Some (File content) ->
  nbu_export_item_to_fd item fd w
  = (0, set_fs (<[fd := File (content
                               ++ item_bytes (f_data (fp (w_ctx w))) item)]>
                  (w_fs w))
          (set_ctx (set_pos (item_end item) (w_ctx w)) w)).
Proof.
  intros Hsz Hmem (Hp & Hl & He) Hfd. unfold item_end, file_size in *.
  unfold nbu_export_item_to_fd. rewrite Hmem. cbn [negb].
  rewrite run_seek_set by lia.
  unfold run. cbn [w_ctx set_ctx].
  rewrite nbu_read_enough by (unfold file_size; cbn; lia).
  cbn [fp set_pos f_pos f_data set_fp].
  rewrite (nbu_write_open fd _ content) by exact Hfd.
  cbn. unfold item_bytes, item_end. reflexivity.
Qed.

Lemma export_item_no_memory (item : nbu_item) (fd : string) (w : world) :
  ~ item_allocated w item -> nbu_export_item_to_fd item fd w = (-1, w).
Proof.
  unfold item_allocated, nbu_export_item_to_fd. intros H.
  destruct (w_malloc w (item_len item)); [congruence|reflexivity].
Qed.

Lemma export_item_short (item : nbu_item) (fd : string) (w : world) :
  item_allocated w item ->
  item_short (f_data (fp (w_ctx w))) item ->
  exists q,
    nbu_export_item_to_fd item fd w
    = (-1, warn Unexpected_end_of_file
             (set_ctx (set_pos q (w_ctx w)) w)).
Proof.
  intros Hmem (Hp & Hs). unfold nbu_export_item_to_fd.
  rewrite Hmem. cbn [negb].
  rewrite run_seek_set by lia.
  unfold run. cbn [w_ctx set_ctx]. unfold nbu_read.
  cbn [fp set_pos f_pos f_data set_fp]. unfold file_size, item_end in *.
  cbn [fp set_pos f_pos f_data set_fp].
  destruct (Z.leb_spec (item_len item) 0).
  - eexists. reflexivity.
  - destruct (Z.leb_spec (item_pos item + item_len item)
                (Z.of_nat (length (f_data (fp (w_ctx w)))))); [lia|].
    eexists. cbn. reflexivity.
Qed.

(** X12: the raw export of one item, its position being one [fseek]
    accepts and the descriptor an open file.  When [malloc] gives the
    buffer: an item that is not empty and lies in the backup is copied
    byte for byte behind the content of the file, nothing is reported and
    the backup stream rests behind the item; an empty item, like one that
    runs over the end of the backup, makes the export fail with the
    end-of-file diagnostic, the destination untouched.  When [malloc]
    gives no buffer, the export fails at once: it returns [-1], prints
    nothing and leaves the stream and the destination as they are. *)
Theorem raw_item_export (item : nbu_item) (fd : string) (w : world)
    (content : list byte) :
  let d := f_data (fp (w_ctx w)) in
  file_size (w_ctx w) <= LONG_MAX ->
  w_fs w !! fd = Some (File content) ->
  (item_allocated w item -> item_within d item ->
   nbu_export_item_to_fd item fd w
   = (0, set_fs (<[fd := File (content ++ item_bytes d item)]> (w_fs w))
           (set_ctx (set_pos (item_end item) (w_ctx w)) w)))
  /\ (item_allocated w item -> item_short d item ->
      fst (nbu_export_item_to_fd item fd w) = -1
      /\ w_fs (snd (nbu_export_item_to_fd item fd w)) = w_fs w
      /\ w_stderr (snd (nbu_export_item_to_fd item fd w))
         = w_stderr w ++ [Unexpected_end_of_file])
  /\ (~ item_allocated w item ->
      nbu_export_item_to_fd item fd w = (-1, w)).
Proof.
  cbn zeta. intros Hsz Hfd. split; [|split].
  - intros Hmem Hin. now apply export_item_copies.
  - intros Hmem Hs.
    destruct (export_item_short item fd w Hmem Hs) as [q ->].
    repeat split.
  - apply export_item_no_memory.
Qed.

Lemma raw_item_export_witness :
  let w := {| w_ctx := nbu_ctx_init (le_bytes 2 0x48 ++ le_bytes 2 0x69);
              w_fs := {["out/c" := File []]}; w_stderr := [];
              w_malloc := enough_memory |} in
  nbu_export_item_to_fd {| item_pos := 1; item_len := 2 |} "out/c" w
  = (0, set_fs (<["out/c" := File ([] ++ [Byte.x00; Byte.x69])]> (w_fs w))
          (set_ctx (set_pos 3 (w_ctx w)) w))
  /\ fst (nbu_export_item_to_fd {| item_pos := 1; item_len := 0 |} "out/c" w)
     = -1
  /\ nbu_export_item_to_fd {| item_pos := 1; item_len := 2 |} "out/c"
       {| w_ctx := w_ctx w; w_fs := w_fs w; w_stderr := w_stderr w;
          w_malloc := fun n => n <? 2 |}
     = (-1, {| w_ctx := w_ctx w; w_fs := w_fs w; w_stderr := w_stderr w;
               w_malloc := fun n => n <? 2 |}).
Proof.
  intros w. split; [|split].
  - apply (proj1 (raw_item_export {| item_pos := 1; item_len := 2 |}
                    "out/c" w [] ltac:(vm_compute; discriminate)
                    ltac:(reflexivity))).
    + reflexivity.
    + unfold item_within, item_end. cbn. lia.
  - apply (proj1 (proj2 (raw_item_export {| item_pos := 1; item_len := 0 |}
                           "out/c" w [] ltac:(vm_compute; discriminate)
                           ltac:(reflexivity)))).
    + reflexivity.
    + unfold item_short, item_end. cbn. rewrite LONG_MAX_val. lia.
  - apply (proj2 (proj2 (raw_item_export {| item_pos := 1; item_len := 2 |}
                           "out/c"
                           {| w_ctx := w_ctx w; w_fs := w_fs w;
                              w_stderr := w_stderr w;
                              w_malloc := fun n => n <? 2 |} []
                           ltac:(vm_compute; discriminate)
                           ltac:(reflexivity)))).
    unfold item_allocated. cbn. discriminate.
Defined.

(** *** Item lists *)

Lemma world_eta (w : world) :
  set_fs (w_fs w) (set_ctx (w_ctx w) w) = w.
Proof. now destruct w. Qed.

Lemma export_items_copy (items : list nbu_item) (fd : string) :
  forall (w : world) (content : list byte),
    file_size (w_ctx w) <= LONG_MAX ->
    Forall (item_allocated w) items ->
    Forall (item_within (f_data (fp (w_ctx w)))) items ->
    w_fs w !! fd = Some (File content) ->
    exists q,
      export_items nbu_export_item_to_fd items fd w
      = (0, set_fs (<[fd := File (content
                                  ++ concat (map (item_bytes
                                                    (f_data (fp (w_ctx w))))
                                               items))]> (w_fs w))
              (set_ctx (set_pos q (w_ctx w)) w)).
Proof.
  induction items as [|item items IH]; intros w content Hsz Hmem Hin Hfd.
  - exists (f_pos (fp (w_ctx w))). cbn [export_items map concat].
    rewrite app_nil_r, insert_id by exact Hfd.
    now rewrite set_pos_same, world_eta.
  - inversion Hin as [|? ? Hitem Hrest]; subst.
    inversion Hmem as [|? ? Hmitem Hmrest]; subst.
    cbn [export_items].
    rewrite (export_item_copies item fd w content) by assumption.
    cbn [Z.eqb].
    edestruct (IH (set_fs (<[fd := File (content
                                        ++ item_bytes (f_data (fp (w_ctx w)))
                                             item)]> (w_fs w))
                    (set_ctx (set_pos (item_end item) (w_ctx w)) w)))
      as [q ->].
    + exact Hsz.
    + exact Hmrest.
    + exact Hrest.
    + cbn [w_fs set_fs]. apply lookup_insert_eq.
    + exists q. cbn [w_fs w_ctx set_fs set_ctx fp f_data set_pos set_fp].
      rewrite insert_insert_eq, set_pos_set_pos.
      cbn [map concat]. rewrite <- app_assoc. reflexivity.
Qed.

Lemma export_items_stop (l1 : list nbu_item) (bad : nbu_item)
    (l2 : list nbu_item) (fd : string) :
  forall (w : world) (content : list byte),
    file_size (w_ctx w) <= LONG_MAX ->
    Forall (item_allocated w) l1 ->
    Forall (item_within (f_data (fp (w_ctx w)))) l1 ->
    item_short (f_data (fp (w_ctx w))) bad \/ ~ item_allocated w bad ->
    w_fs w !! fd = Some (File content) ->
    exists q,
      export_items nbu_export_item_to_fd (l1 ++ bad :: l2) fd w
      = (-1, (if w_malloc w (item_len bad) then warn Unexpected_end_of_file
              else id)
               (set_fs (<[fd := File (content
                                      ++ concat (map (item_bytes
                                                        (f_data (fp (w_ctx w))))
                                                   l1))]> (w_fs w))
                  (set_ctx (set_pos q (w_ctx w)) w))).
Proof.
  induction l1 as [|item l1 IH]; intros w content Hsz Hmem Hin Hbad Hfd.
  - cbn [app export_items map concat].
    rewrite app_nil_r, insert_id by exact Hfd.
    destruct (w_malloc w (item_len bad)) eqn:Hb.
    + destruct Hbad as [Hbad|Hbad]; [|contradiction].
      destruct (export_item_short bad fd w Hb Hbad) as [q ->].
      exists q. cbn [Z.eqb]. now destruct w.
    + rewrite export_item_no_memory by (unfold item_allocated; congruence).
      exists (f_pos (fp (w_ctx w))). cbn [Z.eqb id].
      now rewrite set_pos_same, world_eta.
  - inversion Hin as [|? ? Hitem Hrest]; subst.
    inversion Hmem as [|? ? Hmitem Hmrest]; subst.
    cbn [app export_items].
    rewrite (export_item_copies item fd w content) by assumption.
    cbn [Z.eqb].
    edestruct (IH (set_fs (<[fd := File (content
                                        ++ item_bytes (f_data (fp (w_ctx w)))
                                             item)]> (w_fs w))
                    (set_ctx (set_pos (item_end item) (w_ctx w)) w)))
      as [q ->].
    + exact Hsz.
    + exact Hmrest.
    + exact Hrest.
    + exact Hbad.
    + cbn [w_fs set_fs]. apply lookup_insert_eq.
    + exists q. cbn [w_fs w_ctx set_fs set_ctx fp f_data set_pos set_fp].
      rewrite insert_insert_eq, set_pos_set_pos.
      cbn [map concat]. rewrite <- app_assoc. reflexivity.
Qed.

Lemma openat_new (dfd path : string) (w : world) :
  name_too_long path = false ->
  w_fs w !! path_at dfd path = None ->
  is_dir (w_fs w) (dirname (path_at dfd path)) = true ->
  openat dfd path w
  = (Some (path_at dfd path),
     set_fs (<[path_at dfd path := File []]> (w_fs w)) w).
Proof. intros Hl Hn Hd. unfold openat. cbn zeta. now rewrite Hl, Hn, Hd. Qed.

(** X13: the export of an item list that is not empty, into a file
    whose name is not too long and that does not exist yet in an existing
    directory: when every item is not empty, lies in the backup and gets
    its buffer, the new file holds the bytes of the items one behind the
    other, in the order of the list, nothing is reported and no other
    path of the destination changes. *)
Theorem item_list_export_concatenates (items : list nbu_item)
    (dfd path : string) (w : world) :
  let d := f_data (fp (w_ctx w)) in
  items <> [] ->
  file_size (w_ctx w) <= LONG_MAX ->
  Forall (item_allocated w) items ->
  Forall (item_within d) items ->
  name_too_long path = false ->
  w_fs w !! path_at dfd path = None ->
  is_dir (w_fs w) (dirname (path_at dfd path)) = true ->
  fst (nbu_export_item_list (Some items) dfd path w) = 0
  /\ w_fs (snd (nbu_export_item_list (Some items) dfd path w))
     = <[path_at dfd path := File (concat (map (item_bytes d) items))]> (w_fs w)
  /\ w_stderr (snd (nbu_export_item_list (Some items) dfd path w))
     = w_stderr w.
Proof.
  cbn zeta. intros Hne Hsz Hmem Hin Hl Hn Hd.
  unfold nbu_export_item_list.
  destruct items as [|item items]; [congruence|].
  rewrite openat_new by assumption.
  edestruct (export_items_copy (item :: items) (path_at dfd path)
               (set_fs (<[path_at dfd path := File []]> (w_fs w)) w) [])
    as [q ->].
  - exact Hsz.
  - exact Hmem.
  - exact Hin.
  - apply lookup_insert_eq.
  - cbn [fst snd w_fs w_stderr set_fs set_ctx w_ctx app].
    rewrite insert_insert_eq. repeat split.
Qed.

Lemma item_list_export_concatenates_witness :
  let w := {| w_ctx := nbu_ctx_init (le_bytes 2 0x48 ++ le_bytes 2 0x69);
              w_fs := {["out" := Dir]}; w_stderr := [];
              w_malloc := enough_memory |} in
  let items := [{| item_pos := 2; item_len := 2 |};
                {| item_pos := 0; item_len := 1 |}] in
  w_fs (snd (nbu_export_item_list (Some items) "out" "calendar.ics" w))
  = <[path_at "out" "calendar.ics"
      := File (concat (map (item_bytes (f_data (fp (w_ctx w)))) items))]>
      (w_fs w).
Proof.
  intros w items.
  refine (proj1 (proj2 (item_list_export_concatenates items "out"
                          "calendar.ics" w _ _ _ _ _ _ _))).
  - discriminate.
  - vm_compute. discriminate.
  - repeat constructor.
  - repeat constructor; unfold item_end; cbn; lia.
  - reflexivity.
  - reflexivity.
  - reflexivity.
Defined.

(** X14: the export of an item list stops at the first item that
    fails.  When the items before it are sound and it is empty, runs over
    the end of the backup or gets no buffer, the export returns [-1], the
    file stays in the destination with the bytes of the items before, and
    the items behind are not looked at: the outcome does not depend on
    them.  There is one end-of-file diagnostic when the failing item got
    its buffer, and none when it did not. *)
Theorem item_list_export_stops (l1 : list nbu_item) (bad : nbu_item)
    (l2 : list nbu_item) (dfd path : string) (w : world) :
  let d := f_data (fp (w_ctx w)) in
  file_size (w_ctx w) <= LONG_MAX ->
  Forall (item_allocated w) l1 ->
  Forall (item_within d) l1 ->
  item_short d bad \/ ~ item_allocated w bad ->
  name_too_long path = false ->
  w_fs w !! path_at dfd path = None ->
  is_dir (w_fs w) (dirname (path_at dfd path)) = true ->
  fst (nbu_export_item_list (Some (l1 ++ bad :: l2)) dfd path w) = -1
  /\ w_fs (snd (nbu_export_item_list (Some (l1 ++ bad :: l2)) dfd path w))
     = <[path_at dfd path := File (concat (map (item_bytes d) l1))]> (w_fs w)
  /\ w_stderr (snd (nbu_export_item_list (Some (l1 ++ bad :: l2)) dfd path w))
     = w_stderr w
       ++ (if w_malloc w (item_len bad) then [Unexpected_end_of_file] else []).
Proof.
  cbn zeta. intros Hsz Hmem Hin Hbad Hl Hn Hd.
  unfold nbu_export_item_list.
  destruct (l1 ++ bad :: l2) as [|item items] eqn:El;
    [now destruct l1|].
  rewrite openat_new by assumption. rewrite <- El.
  edestruct (export_items_stop l1 bad l2 (path_at dfd path)
               (set_fs (<[path_at dfd path := File []]> (w_fs w)) w) [])
    as [q ->].
  - exact Hsz.
  - exact Hmem.
  - exact Hin.
  - exact Hbad.
  - apply lookup_insert_eq.
  - cbn [fst snd w_fs w_stderr w_malloc set_fs set_ctx w_ctx app].
    rewrite insert_insert_eq.
    destruct (w_malloc w (item_len bad)); cbn [id warn snd w_fs w_stderr];
      repeat split. now rewrite app_nil_r.
Qed.

Lemma item_list_export_stops_witness :
  let w := {| w_ctx := nbu_ctx_init (le_bytes 2 0x48 ++ le_bytes 2 0x69);
              w_fs := {["out" := Dir]}; w_stderr := [];
              w_malloc := enough_memory |} in
  let l1 := [{| item_pos := 2; item_len := 2 |}] in
  let bad := {| item_pos := 3; item_len := 2 |} in
  let l2 := [{| item_pos := 0; item_len := 1 |}] in
  fst (nbu_export_item_list (Some (l1 ++ bad :: l2)) "out" "calendar.ics" w)
  = -1.
Proof.
  intros w l1 bad l2.
  refine (proj1 (item_list_export_stops l1 bad l2 "out" "calendar.ics" w
                   _ _ _ _ _ _ _)).
  - vm_compute. discriminate.
  - repeat constructor.
  - repeat constructor; unfold item_end; cbn; lia.
  - left. unfold item_short, item_end. cbn. rewrite LONG_MAX_val. lia.
  - reflexivity.
  - reflexivity.
  - reflexivity.
Defined.

(** *** Items of UTF-16 text *)

Lemma decode_before_nul (u : Z) : snd (utf16_decode u 0) <> 2.
Proof.
  unfold utf16_decode.
  destruct (utf16_is_surrogate u); cbn [negb]; [|cbn [snd]; lia].
  destruct (utf16_is_high_surrogate u); vm_compute; discriminate.
Qed.

(** The conversion ends at the first NUL unit. *)
Lemma utf16_codepoints_cut (n : nat) :
  forall l1 l2, (length l1 <= n)%nat ->
                utf16_codepoints (l1 ++ 0 :: l2) = utf16_codepoints l1.
Proof.
  induction n as [|n IH]; intros l1 l2 Hlen.
  - destruct l1; [reflexivity|simpl in Hlen; lia].
  - destruct l1 as [|u rest]; [reflexivity|].
    destruct (Z.eq_dec u 0) as [->|Hu]; [reflexivity|].
    cbn [app]. rewrite !utf16_codepoints_cons by assumption.
    destruct rest as [|v rest'].
    + cbn [app hd next_units].
      pose proof (decode_before_nul u) as Hn.
      destruct (utf16_decode u 0) as [cp n0]. cbn [fst snd] in *.
      f_equal.
      destruct (Z.eqb_spec n0 0) as [->|Hn0]; [reflexivity|].
      destruct (Z.eqb_spec n0 2); [contradiction|reflexivity].
    + cbn [app hd]. f_equal.
      cbn [next_units].
      destruct (_ =? 2).
      * apply IH. simpl in Hlen. lia.
      * apply (IH (v :: rest')). simpl in Hlen |- *. lia.
Qed.

Lemma utf16_at_uint16 (c : nbu_ctx) (p : Z) (n : nat) :
  Forall is_uint16 (utf16_at c p n).
Proof.
  unfold utf16_at. apply Forall_map, Forall_forall. intros i _.
  apply peek16_range.
Qed.

Lemma utf16_at_same_data (c c0 : nbu_ctx) (p : Z) (n : nat) :
  f_data (fp c0) = f_data (fp c) -> utf16_at c0 p n = utf16_at c p n.
Proof.
  intros H. unfold utf16_at. apply map_ext. intros i.
  now apply peek_same_data.
Qed.

Lemma text_written (units : list Z) :
  Forall is_uint16 units -> 3 * (Z.of_nat (length units) + 1) < SIZE_MAX ->
  exists utf8,
    nbu_convert_utf16_to_utf8 (units ++ [0]) = Some utf8
    /\ take (Z.to_nat (strlen utf8)) utf8
       = utf8_bytes (utf16_codepoints units).
Proof.
  intros Hu Hlen.
  assert (Forall is_uint16 (units ++ [0])) as Hu0.
  { apply Forall_app. split; [assumption|].
    repeat constructor; unfold is_uint16; lia. }
  exists (utf8_bytes (utf16_codepoints (units ++ [0])) ++ [0]). split.
  - apply nbu_convert_utf16_to_utf8_Some; [assumption|].
    rewrite length_app, Nat2Z.inj_add. cbn [length]. lia.
  - pose proof (codepoints_scalar _ _ (Nat.le_refl _) Hu0) as Hsc.
    destruct (strlen_terminated _ (utf8_bytes_nonzero _ Hsc)) as [_ ->].
    now rewrite (utf16_codepoints_cut (length units)).
Qed.

Lemma export_text_item (item : nbu_item) (fd : string) (w : world)
    (content : list byte) :
  file_size (w_ctx w) <= LONG_MAX ->
  text_item_within (w_ctx w) item ->
  w_fs w !! fd = Some (File content) ->
  nbu_export_utf16_item_to_fd item fd w
  = (0, set_fs (<[fd := File (content ++ item_text (w_ctx w) item)]> (w_fs w))
          (set_ctx (set_pos (item_end item) (w_ctx w)) w)).
Proof.
  intros Hsz (Hp & Hl & Heven & He) Hfd. unfold item_end in *.
  pose proof LONG_MAX_val as HL. pose proof SIZE_MAX_val as HS.
  assert (Hlen : item_len item = 2 * (item_len item / 2))
    by (Z.div_mod_to_equations; lia).
  unfold nbu_export_utf16_item_to_fd.
  rewrite Heven. cbn [Z.eqb negb].
  rewrite run_seek_set by lia.
  unfold run at 1. cbn [w_ctx set_ctx].
  rewrite nbu_read_utf16_n_enough;
    [|lia|cbn; lia|rewrite file_size_set_pos; cbn; lia].
  cbn [fp set_pos f_pos f_data set_fp].
  destruct (text_written
              (utf16_at (set_pos (item_pos item) (w_ctx w)) (item_pos item)
                 (Z.to_nat (item_len item / 2))))
    as (utf8 & -> & ->).
  { apply utf16_at_uint16. }
  { rewrite utf16_at_length. lia. }
  rewrite (nbu_write_open fd _ content) by exact Hfd.
  cbn [Z.eqb]. unfold item_text, item_end.
  rewrite (utf16_at_same_data (w_ctx w) (set_pos (item_pos item) (w_ctx w)))
    by reflexivity.
  rewrite set_pos_set_pos, <- Hlen. reflexivity.
Qed.

(** X15: the export of one item of UTF-16 text, of an even number of
    bytes that lie in the backup, to an open file: the UTF-8 encodings of
    the code points of its units are put behind the content of the file,
    nothing is reported and the stream rests behind the item.  An empty
    item succeeds and writes nothing, unlike in the raw export.  The text
    ends at the first NUL unit of the item: what is behind it is not
    written. *)
Theorem utf16_item_export (item : nbu_item) (fd : string) (w : world)
    (content : list byte) :
  file_size (w_ctx w) <= LONG_MAX ->
  text_item_within (w_ctx w) item ->
  w_fs w !! fd = Some (File content) ->
  nbu_export_utf16_item_to_fd item fd w
  = (0, set_fs (<[fd := File (content ++ item_text (w_ctx w) item)]> (w_fs w))
          (set_ctx (set_pos (item_end item) (w_ctx w)) w))
  /\ (item_len item = 0 -> item_text (w_ctx w) item = [])
  /\ (forall l1 l2,
        utf16_at (w_ctx w) (item_pos item) (Z.to_nat (item_len item / 2))
        = l1 ++ 0 :: l2 ->
        item_text (w_ctx w) item
        = map byte_of_Z (utf8_bytes (utf16_codepoints l1))).
Proof.
  intros Hsz Hin Hfd. split; [|split].
  - now apply export_text_item.
  - intros H0. unfold item_text. rewrite H0. reflexivity.
  - intros l1 l2 E. unfold item_text. rewrite E.
    now rewrite (utf16_codepoints_cut (length l1)).
Qed.

Lemma utf16_item_export_witness :
  let w := {| w_ctx := nbu_ctx_init (le_bytes 2 0x48 ++ le_bytes 2 0
                                     ++ le_bytes 2 0x20ac);
              w_fs := {["out/m" := File []]}; w_stderr := [];
              w_malloc := enough_memory |} in
  let item := {| item_pos := 0; item_len := 6 |} in
  nbu_export_utf16_item_to_fd item "out/m" w
  = (0, set_fs (<["out/m" := File ([] ++ item_text (w_ctx w) item)]> (w_fs w))
          (set_ctx (set_pos (item_end item) (w_ctx w)) w))
  /\ item_text (w_ctx w) item
     = map byte_of_Z (utf8_bytes (utf16_codepoints [0x48])).
Proof.
  intros w item.
  destruct (utf16_item_export item "out/m" w []) as (H1 & _ & H3).
  - vm_compute. discriminate.
  - repeat split; vm_compute; congruence.
  - reflexivity.
  - split; [exact H1|]. apply (H3 [0x48] [0x20ac]). reflexivity.
Defined.

(** *** Paths *)

Lemma append_nil (s : string) : "" +:+ s = s.
Proof. reflexivity. Qed.

Lemma append_cons (a : ascii) (s t : string) :
  String a s +:+ t = String a (s +:+ t).
Proof. reflexivity. Qed.

Ltac append_steps := rewrite ?append_cons, ?append_nil.

Lemma has_slash_app (s1 s2 : string) :
  has_slash (s1 +:+ s2) = has_slash s1 || has_slash s2.
Proof.
  induction s1 as [|a s1 IH]; [reflexivity|].
  append_steps. simpl. destruct (Ascii.eqb a "/"%char); [reflexivity|exact IH].
Qed.

(** The directory of a file name put behind a directory. *)
Lemma dirname_path_at (dir name : string) :
  has_slash name = false -> dirname (path_at dir name) = dir.
Proof.
  intros Hn. unfold path_at. induction dir as [|a dir IH].
  - append_steps. simpl. now rewrite Hn.
  - append_steps. simpl. rewrite has_slash_app. append_steps. simpl.
    rewrite ?orb_true_r. f_equal. exact IH.
Qed.

Lemma append_assoc (s t u : string) : (s +:+ t) +:+ u = s +:+ t +:+ u.
Proof.
  induction s as [|a s IH]; [reflexivity|].
  append_steps. now rewrite IH.
Qed.

Lemma path_at_assoc (dir sub name : string) :
  path_at dir (sub +:+ "/" +:+ name) = path_at (path_at dir sub) name.
Proof. unfold path_at. now rewrite !append_assoc. Qed.

Lemma has_slash_digits (d : Decimal.uint) :
  has_slash (NilEmpty.string_of_uint d) = false.
Proof. induction d; cbn; assumption || reflexivity. Qed.

Lemma has_slash_decimal (i : Z) : has_slash (decimal i) = false.
Proof.
  unfold decimal, NilZero.string_of_int, NilZero.string_of_uint.
  destruct (Z.to_int i) as [d|d]; destruct d; cbn;
    try reflexivity; apply has_slash_digits.
Qed.

Lemma decimal_inj (i j : Z) : decimal i = decimal j -> i = j.
Proof.
  assert (Hnil : forall z, Z.to_int z <> Decimal.Pos Decimal.Nil
                           /\ Z.to_int z <> Decimal.Neg Decimal.Nil).
  { intros [|p|p]; cbn; split; try discriminate; intros E; inversion E as [E'];
      exact (DecimalPos.Unsigned.to_uint_nonnil p E'). }
  unfold decimal. intros E.
  apply DecimalZ.to_int_inj.
  pose proof (NilZero.isi (Z.to_int i) (proj1 (Hnil i)) (proj2 (Hnil i))) as Hi.
  pose proof (NilZero.isi (Z.to_int j) (proj1 (Hnil j)) (proj2 (Hnil j))) as Hj.
  rewrite E in Hi. congruence.
Qed.

Lemma length_append (s t : string) :
  String.length (s +:+ t) = (String.length s + String.length t)%nat.
Proof.
  induction s as [|a s IH]; [reflexivity|].
  append_steps. simpl. now rewrite IH.
Qed.

(** *** The length of names *)

Lemma double_digits (d : Decimal.uint) :
  (Decimal.nb_digits (Decimal.Little.double d) <= S (Decimal.nb_digits d))%nat
  /\ (Decimal.nb_digits (Decimal.Little.succ_double d)
      <= S (Decimal.nb_digits d))%nat.
Proof.
  induction d as [|d [IH1 IH2]|d [IH1 IH2]|d [IH1 IH2]|d [IH1 IH2]
                 |d [IH1 IH2]|d [IH1 IH2]|d [IH1 IH2]|d [IH1 IH2]
                 |d [IH1 IH2]|d [IH1 IH2]];
    simpl; lia.
Qed.

Lemma little_digits (p : positive) :
  (Decimal.nb_digits (Pos.to_little_uint p) <= Pos.size_nat p)%nat.
Proof.
  induction p as [p IH|p IH|]; simpl.
  - pose proof (proj2 (double_digits (Pos.to_little_uint p))). lia.
  - pose proof (proj1 (double_digits (Pos.to_little_uint p))). lia.
  - lia.
Qed.

Lemma revapp_digits (d d' : Decimal.uint) :
  Decimal.nb_digits (Decimal.revapp d d')
  = (Decimal.nb_digits d + Decimal.nb_digits d')%nat.
Proof.
  revert d'. induction d; intros d'; simpl; try reflexivity;
    rewrite IHd; simpl; lia.
Qed.

Lemma digits_length (d : Decimal.uint) :
  String.length (NilEmpty.string_of_uint d) = Decimal.nb_digits d.
Proof. induction d; simpl; congruence. Qed.

Lemma size_nat_bound (p : positive) :
  forall n : nat, Z.pos p < 2 ^ Z.of_nat n -> (Pos.size_nat p <= n)%nat.
Proof.
  induction p as [p IH|p IH|]; intros n H; destruct n as [|n];
    cbn [Pos.size_nat]; try (change (2 ^ Z.of_nat 0) with 1 in H; lia).
  - rewrite Nat2Z.inj_succ, Z.pow_succ_r, Pos2Z.inj_xI in H by lia.
    specialize (IH n). lia.
  - rewrite Nat2Z.inj_succ, Z.pow_succ_r, Pos2Z.inj_xO in H by lia.
    specialize (IH n). lia.
Qed.

Lemma decimal_length (i : Z) :
  0 < i < 2 ^ 31 -> (String.length (decimal i) <= 31)%nat.
Proof.
  intros H. destruct i as [|p|p]; try lia.
  unfold decimal. cbn [Z.to_int NilZero.string_of_int].
  unfold NilZero.string_of_uint.
  assert (Decimal.nb_digits (Pos.to_uint p) <= 31)%nat as Hd.
  { unfold Pos.to_uint, Decimal.rev. rewrite revapp_digits. simpl.
    pose proof (little_digits p).
    pose proof (size_nat_bound p 31 ltac:(simpl; lia)).
    lia. }
  destruct (Pos.to_uint p) eqn:E; rewrite <- ?E;
    try (rewrite digits_length; rewrite ?E; exact Hd).
  simpl. lia.
Qed.

Lemma longest_no_slash (s : string) :
  forall cur, has_slash s = false ->
              longest_component s cur = (cur + String.length s)%nat.
Proof.
  induction s as [|a s IH]; intros cur H; simpl in *; [lia|].
  destruct (Ascii.eqb a "/"%char); [discriminate|].
  rewrite IH by assumption. lia.
Qed.

Lemma memo_name_fits (i : Z) :
  0 < i < 2 ^ 31 -> name_too_long (memo_name i) = false.
Proof.
  intros Hi. pose proof (decimal_length i Hi) as Hlen.
  assert (has_slash (decimal i +:+ ".txt") = false) as Hs
      by (rewrite has_slash_app, has_slash_decimal; reflexivity).
  unfold name_too_long, memo_name, NBU_MEMOS_DIR, NAME_MAX, PATH_MAX.
  append_steps. cbn [longest_component String.length].
  repeat match goal with
         | |- context [Ascii.eqb ?a ?b] =>
           let v := eval vm_compute in (Ascii.eqb a b) in
           change (Ascii.eqb a b) with v
         end.
  cbn iota. rewrite (longest_no_slash _ _ Hs), !length_append.
  cbn [String.length].
  apply orb_false_intro; [apply Nat.ltb_ge|apply Nat.leb_gt]; lia.
Qed.

Lemma memo_path (dfd : string) (i : Z) :
  path_at dfd (memo_name i)
  = path_at (path_at dfd NBU_MEMOS_DIR) ("memo-" +:+ decimal i +:+ ".txt").
Proof. unfold memo_name. apply (path_at_assoc dfd NBU_MEMOS_DIR). Qed.

Lemma memo_path_dirname (dfd : string) (i : Z) :
  dirname (path_at dfd (memo_name i)) = path_at dfd NBU_MEMOS_DIR.
Proof.
  rewrite memo_path. apply dirname_path_at.
  rewrite !has_slash_app, has_slash_decimal. reflexivity.
Qed.

Lemma append_inj_r (u : string) :
  forall s t, s +:+ u = t +:+ u -> s = t.
Proof.
  induction s as [|a s IH]; intros [|b t] E.
  - reflexivity.
  - apply (f_equal String.length) in E. rewrite !length_append in E.
    simpl in E. lia.
  - apply (f_equal String.length) in E. rewrite !length_append in E.
    simpl in E. lia.
  - rewrite !append_cons in E. inversion E; subst. f_equal. now apply IH.
Qed.

Lemma memo_path_inj (dfd : string) (i j : Z) :
  path_at dfd (memo_name i) = path_at dfd (memo_name j) -> i = j.
Proof.
  unfold path_at, memo_name. intros E.
  repeat (apply String.app_inj in E).
  apply decimal_inj. exact (append_inj_r _ _ _ E).
Qed.

(** *** Memos *)

Lemma is_dir_insert (fs : gmap string node) (p q : string) (n : node) :
  is_dir fs q = true -> fs !! p = None -> is_dir (<[p := n]> fs) q = true.
Proof.
  unfold is_dir. intros Hq Hp. destruct (decide (p = q)) as [->|Hne].
  - rewrite Hp in Hq. discriminate.
  - rewrite lookup_insert_ne by assumption. exact Hq.
Qed.

Lemma item_text_same_data (c c0 : nbu_ctx) (it : nbu_item) :
  f_data (fp c0) = f_data (fp c) -> item_text c0 it = item_text c it.
Proof. intros H. unfold item_text. now rewrite (utf16_at_same_data c c0). Qed.

Lemma memo_path_not_dir (dfd : string) (k : Z) :
  path_at dfd (memo_name k) <> path_at dfd NBU_MEMOS_DIR.
Proof.
  rewrite memo_path. unfold path_at at 1. intros E.
  apply (f_equal String.length) in E. rewrite !length_append in E.
  simpl in E. lia.
Qed.

Lemma memo_files_cons (dfd : string) (c : nbu_ctx) (i : Z) (item : nbu_item)
    (l : list (Z * nbu_item)) (fs : gmap string node) :
  memo_files dfd c ((i, item) :: l) fs
  = memo_files dfd c l
      (<[path_at dfd (memo_name i) := File (item_text c item)]> fs).
Proof. reflexivity. Qed.

Lemma memo_files_other (dfd : string) (c : nbu_ctx) (l : list nbu_item) :
  forall (i : Z) (fs : gmap string node) (p : string),
    (forall k, i <= k -> path_at dfd (memo_name k) <> p) ->
    memo_files dfd c (numbered i l) fs !! p = fs !! p.
Proof.
  induction l as [|item l IH]; intros i fs p Hp; [reflexivity|].
  cbn [numbered]. rewrite memo_files_cons.
  rewrite IH by (intros k Hk; apply Hp; lia).
  apply lookup_insert_ne, Hp. lia.
Qed.

Lemma memo_files_lookup (dfd : string) (c : nbu_ctx) (l : list nbu_item) :
  forall (i : Z) (fs : gmap string node) (n : nat) (item : nbu_item),
    l !! n = Some item ->
    memo_files dfd c (numbered i l) fs !! path_at dfd (memo_name (i + Z.of_nat n))
    = Some (File (item_text c item)).
Proof.
  induction l as [|x l IH]; intros i fs n item Hn; [discriminate|].
  cbn [numbered]. rewrite memo_files_cons.
  destruct n as [|n].
  - inversion Hn; subst. rewrite Z.add_0_r.
    rewrite memo_files_other; [apply lookup_insert_eq|].
    intros k Hk E. apply memo_path_inj in E. lia.
  - replace (i + Z.of_nat (S n)) with (i + 1 + Z.of_nat n) by lia.
    now apply IH.
Qed.

Lemma memos_loop_writes (dfd : string) (l : list nbu_item) :
  forall (i ret : Z) (w : world),
    0 < i -> i + Z.of_nat (length l) <= 2 ^ 31 ->
    file_size (w_ctx w) <= LONG_MAX ->
    Forall (text_item_within (w_ctx w)) l ->
    is_dir (w_fs w) (path_at dfd NBU_MEMOS_DIR) = true ->
    (forall k, i <= k -> w_fs w !! path_at dfd (memo_name k) = None) ->
    exists q,
      export_memos_loop l i ret dfd w
      = (ret, set_fs (memo_files dfd (w_ctx w) (numbered i l) (w_fs w))
                (set_ctx (set_pos q (w_ctx w)) w)).
Proof.
  induction l as [|item l IH]; intros i ret w Hi Hint Hsz Hin Hdir Hnew.
  - exists (f_pos (fp (w_ctx w))). cbn [export_memos_loop numbered].
    unfold memo_files. cbn [fold_left].
    now rewrite set_pos_same, world_eta.
  - inversion Hin as [|? ? Hitem Hrest]; subst.
    cbn [export_memos_loop]. cbn zeta.
    change (NBU_MEMOS_DIR +:+ "/memo-" +:+ decimal i +:+ ".txt")
      with (memo_name i).
    unfold nbu_export_utf16_item.
    cbn [length] in Hint. rewrite Nat2Z.inj_succ in Hint.
    rewrite openat_new;
      [|apply memo_name_fits; lia|apply Hnew; lia
       |now rewrite memo_path_dirname].
    rewrite (export_text_item item _ _ []);
      [|exact Hsz|exact Hitem|apply lookup_insert_eq].
    cbn [Z.eqb app w_fs w_ctx set_fs set_ctx].
    rewrite insert_insert_eq.
    edestruct (IH (i + 1) ret
                 (set_fs (<[path_at dfd (memo_name i)
                            := File (item_text (w_ctx w) item)]> (w_fs w))
                    (set_ctx (set_pos (item_end item) (w_ctx w)) w)))
      as [q Hq].
    + lia.
    + lia.
    + exact Hsz.
    + exact Hrest.
    + cbn [w_fs set_fs]. apply is_dir_insert; [exact Hdir|apply Hnew; lia].
    + intros k Hk. cbn [w_fs set_fs].
      rewrite lookup_insert_ne; [apply Hnew; lia|].
      intros E. apply memo_path_inj in E. lia.
    + exists q. etransitivity; [exact Hq|].
      cbn [w_fs w_ctx set_fs set_ctx numbered].
      rewrite memo_files_cons, set_pos_set_pos. reflexivity.
Qed.

(** X16: the export of the memos.  The backup holding a list of memos
    that is not empty and whose numbers fit [int], each an item of whole
    UTF-16 units in the backup, the destination directory existing, the
    directory of the memos existing or not, and no file of a memo being
    there: the export returns 0 and reports nothing, the directory of the
    memos exists and the memo number [n] of the list, counted from one, is
    in the file [memos/memo-n.txt] as UTF-8 text.  The names of two memos
    differ. *)
Theorem memos_export (dfd : string) (l : list nbu_item) (w : world) :
  memos (w_ctx w) = Some l -> l <> [] ->
  Z.of_nat (length l) < 2 ^ 31 ->
  file_size (w_ctx w) <= LONG_MAX ->
  Forall (text_item_within (w_ctx w)) l ->
  is_dir (w_fs w) dfd = true ->
  w_fs w !! path_at dfd NBU_MEMOS_DIR = None
  \/ is_dir (w_fs w) (path_at dfd NBU_MEMOS_DIR) = true ->
  (forall k, 1 <= k -> w_fs w !! path_at dfd (memo_name k) = None) ->
  fst (nbu_export_memos dfd w) = 0
  /\ w_stderr (snd (nbu_export_memos dfd w)) = w_stderr w
  /\ is_dir (w_fs (snd (nbu_export_memos dfd w))) (path_at dfd NBU_MEMOS_DIR)
     = true
  /\ (forall n item,
        l !! n = Some item ->
        w_fs (snd (nbu_export_memos dfd w))
          !! path_at dfd (memo_name (1 + Z.of_nat n))
        = Some (File (item_text (w_ctx w) item)))
  /\ (forall i j, memo_name i = memo_name j -> i = j).
Proof.
  intros Hm Hne Hint Hsz Hin Hdfd Hdir Hnew.
  assert (exists w1,
             (mkdirat dfd NBU_MEMOS_DIR w = (Mkdir_ok, w1)
              \/ mkdirat dfd NBU_MEMOS_DIR w = (Mkdir_eexist, w1))
             /\ w_ctx w1 = w_ctx w /\ w_stderr w1 = w_stderr w
             /\ is_dir (w_fs w1) (path_at dfd NBU_MEMOS_DIR) = true
             /\ (forall k, 1 <= k ->
                           w_fs w1 !! path_at dfd (memo_name k) = None))
    as (w1 & Hmk & Hc1 & He1 & Hd1 & Hn1).
  { unfold mkdirat. change (name_too_long NBU_MEMOS_DIR) with false.
    cbn iota. unfold make_directory. destruct Hdir as [Hnone|Hsome].
    - rewrite Hnone. unfold parent_is_dir.
      rewrite (dirname_path_at dfd NBU_MEMOS_DIR) by reflexivity.
      rewrite Hdfd, orb_true_r.
      eexists. split; [left; reflexivity|]. cbn [w_ctx w_stderr w_fs set_fs].
      repeat split.
      + unfold is_dir. now rewrite lookup_insert_eq.
      + intros k Hk. rewrite lookup_insert_ne; [now apply Hnew|].
        intros E. symmetry in E. now apply memo_path_not_dir in E.
    - unfold is_dir in Hsome.
      destruct (w_fs w !! path_at dfd NBU_MEMOS_DIR) as [n|] eqn:E;
        [|discriminate].
      exists w. split; [right; reflexivity|]. repeat split.
      + unfold is_dir. now rewrite E.
      + exact Hnew. }
  destruct (memos_loop_writes dfd l 1 0 w1) as [q Hloop].
  { lia. }
  { lia. }
  { unfold file_size in *. now rewrite Hc1. }
  { now rewrite Hc1. }
  { exact Hd1. }
  { exact Hn1. }
  assert (nbu_export_memos dfd w
          = (0, set_fs (memo_files dfd (w_ctx w) (numbered 1 l) (w_fs w1))
                  (set_ctx (set_pos q (w_ctx w)) w1))) as ->.
  { unfold nbu_export_memos. rewrite Hm.
    destruct l as [|item l']; [congruence|].
    rewrite Hc1 in Hloop. destruct Hmk as [-> | ->]; exact Hloop. }
  cbn [fst snd w_stderr w_fs set_fs set_ctx].
  split; [reflexivity|]. split; [exact He1|]. split; [|split].
  - unfold is_dir. rewrite memo_files_other; [exact Hd1|].
    intros k _. apply memo_path_not_dir.
  - intros n item Hn. now apply memo_files_lookup.
  - intros i j E. apply (memo_path_inj ""). unfold path_at. now rewrite E.
Qed.

Lemma memos_export_witness :
  let c := set_memos (Some [{| item_pos := 0; item_len := 4 |};
                            {| item_pos := 2; item_len := 0 |}])
             (nbu_ctx_init (le_bytes 2 0x48 ++ le_bytes 2 0x69)) in
  let w := {| w_ctx := c; w_fs := {["out" := Dir]}; w_stderr := [];
              w_malloc := enough_memory |} in
  fst (nbu_export_memos "out" w) = 0
  /\ w_fs (snd (nbu_export_memos "out" w)) !! "out/memos/memo-2.txt"
     = Some (File []).
Proof.
  intros c w.
  destruct (memos_export "out"
              [{| item_pos := 0; item_len := 4 |};
               {| item_pos := 2; item_len := 0 |}] w)
    as (H0 & _ & _ & Hfiles & _).
  - reflexivity.
  - discriminate.
  - reflexivity.
  - vm_compute. discriminate.
  - repeat constructor; vm_compute; congruence.
  - reflexivity.
  - left. reflexivity.
  - intros k _. apply lookup_singleton_ne.
    unfold path_at. intros E. apply (f_equal String.length) in E.
    rewrite !length_append in E. simpl in E. lia.
  - split; [exact H0|].
    exact (Hfiles 1%nat {| item_pos := 2; item_len := 0 |} eq_refl).
Defined.

End ItemExportFacts.

(** ** What the export leaves alone *)

Module ExportSafety.
Import Utf Nbu UtfFacts ReaderFacts HandlerFacts ExportFacts InvariantFacts
       ItemExportFacts.

(** *** Steps *)

Lemma raw_items_set_pos (q : Z) (c : nbu_ctx) :
  raw_items (set_pos q c) = raw_items c.
Proof. reflexivity. Qed.

Lemma silent_failure_step (w w1 : world) (q : Z) :
  w_ctx w1 = set_pos q (w_ctx w) -> w_malloc w1 = w_malloc w ->
  silent_failure w1 -> silent_failure w.
Proof.
  intros Hc Hm (item & Hin & Hno). exists item.
  rewrite Hc, raw_items_set_pos in Hin. rewrite Hm in Hno. now split.
Qed.

Lemma step_refl (fd : option string) (w : world) : export_step fd w 0 w.
Proof.
  split; [|split; [|split]].
  - exists (f_pos (fp (w_ctx w))). now rewrite set_pos_same.
  - exists []. rewrite app_nil_r. split; [reflexivity|now left].
  - intros p n _ H. exact H.
  - reflexivity.
Qed.

Lemma step_then (fd : option string) (w w1 w2 : world) (r : Z) :
  export_step fd w 0 w1 -> export_step fd w1 r w2 -> export_step fd w r w2.
Proof.
  intros ([q1 Hc1] & (es1 & He1 & Hr1) & Hf1 & Hm1)
         ([q2 Hc2] & (es2 & He2 & Hr2) & Hf2 & Hm2).
  assert (es1 = []) as -> by (destruct Hr1 as [[_ ?]|[? _]]; [assumption|lia]).
  rewrite app_nil_r in He1.
  split; [|split; [|split]].
  - exists q2. now rewrite Hc2, Hc1, set_pos_set_pos.
  - exists es2. rewrite He2, He1. split; [reflexivity|].
    destruct Hr2 as [?|[? [?|Hs]]]; [now left|right; split; auto..].
    right. exact (silent_failure_step w w1 q1 Hc1 Hm1 Hs).
  - intros p n Hp H. apply Hf2; [assumption|]. now apply Hf1.
  - now rewrite Hm2.
Qed.

Lemma step_after_failure (fd : option string) (w w1 w2 : world) (r : Z) :
  export_step fd w (-1) w1 -> export_step fd w1 r w2 ->
  export_step fd w (-1) w2.
Proof.
  intros ([q1 Hc1] & (es1 & He1 & Hr1) & Hf1 & Hm1)
         ([q2 Hc2] & (es2 & He2 & Hr2) & Hf2 & Hm2).
  assert (es1 <> [] \/ silent_failure w) as Hne
      by (destruct Hr1 as [[? _]|[_ ?]]; [lia|assumption]).
  split; [|split; [|split]].
  - exists q2. now rewrite Hc2, Hc1, set_pos_set_pos.
  - exists (es1 ++ es2). rewrite He2, He1, app_assoc.
    split; [reflexivity|]. right. split; [reflexivity|].
    destruct Hne as [Hne|Hs]; [left|now right].
    destruct es1; [congruence|discriminate].
  - intros p n Hp H. apply Hf2; [assumption|]. now apply Hf1.
  - now rewrite Hm2.
Qed.

Lemma step_warn (fd : option string) (w w1 : world) (r : Z) (e : nbu_error) :
  export_step fd w r w1 -> export_step fd w (-1) (warn e w1).
Proof.
  intros ([q1 Hc1] & (es1 & He1 & Hr1) & Hf1 & Hm1).
  split; [|split; [|split]].
  - exists q1. exact Hc1.
  - exists (es1 ++ [e]). cbn [w_stderr warn]. rewrite He1, app_assoc.
    split; [reflexivity|]. right. split; [reflexivity|]. left.
    destruct es1; discriminate.
  - exact Hf1.
  - exact Hm1.
Qed.

Lemma step_any_file (fd : option string) (w w1 : world) (r : Z) :
  export_step None w r w1 -> export_step fd w r w1.
Proof.
  intros (Hc & He & Hf & Hm). split; [exact Hc|]. split; [exact He|].
  split; [|exact Hm]. intros p n _ H. now apply Hf.
Qed.

Lemma step_result (fd : option string) (w w1 : world) (r : Z) :
  export_step fd w r w1 -> r = 0 \/ r = -1.
Proof. intros (_ & (es & _ & [[? _]|[? _]]) & _); [now left|now right]. Qed.

(** The result [ret] collected so far and the result [r] of one more
    call. *)
Lemma step_collect (w0 w w1 : world) (ret r : Z) :
  export_step None w0 ret w -> export_step None w r w1 ->
  export_step None w0 (if r =? -1 then -1 else ret) w1.
Proof.
  intros H0 H1.
  destruct (step_result _ _ _ _ H1) as [-> | ->]; cbn [Z.eqb].
  - destruct (step_result _ _ _ _ H0) as [-> | ->].
    + now apply (step_then None w0 w w1).
    + now apply (step_after_failure None w0 w w1 0).
  - destruct (step_result _ _ _ _ H0) as [-> | ->].
    + now apply (step_then None w0 w w1).
    + now apply (step_after_failure None w0 w w1 (-1)).
Qed.

(** A file opened by this run was not there before: what was there is
    left alone while the file is written. *)
Lemma step_new_file (fd : string) (w w1 w2 : world) (r : Z) :
  w_fs w !! fd = None ->
  export_step None w 0 w1 -> export_step (Some fd) w1 r w2 ->
  export_step None w r w2.
Proof.
  intros Hnew H1 H2.
  pose proof (step_then (Some fd) w w1 w2 r (step_any_file _ _ _ _ H1) H2)
    as (Hc & He & Hf & Hm).
  split; [exact Hc|]. split; [exact He|]. split; [|exact Hm].
  intros p n _ H. apply Hf; [|exact H].
  intros E. inversion E; subst. congruence.
Qed.

(** *** The library calls *)

Lemma nbu_seek_cursor (offset : Z) (wh : whence) :
  cursor_only (nbu_seek offset wh).
Proof.
  intros c. unfold nbu_seek. cbn zeta. destruct (_ && _); cbn [result_ctx].
  - eexists. reflexivity.
  - exists (f_pos (fp c)). now rewrite set_pos_same.
Qed.

Lemma nbu_read_cursor (size : Z) : cursor_only (nbu_read size).
Proof.
  intros c. unfold nbu_read. destruct (size <=? 0); cbn [result_ctx].
  - exists (f_pos (fp c)). now rewrite set_pos_same.
  - destruct (_ <=? _); cbn [result_ctx]; eexists; reflexivity.
Qed.

Lemma bind_cursor {A B} (m : M A) (k : A -> M B) :
  cursor_only m -> (forall a, cursor_only (k a)) -> cursor_only (bind m k).
Proof.
  intros Hm Hk c. unfold bind. destruct (Hm c) as [q Hq].
  destruct (m c) as [a c1|e c1]; cbn [result_ctx] in *; subst.
  - destruct (Hk a (set_pos q c)) as [q' Hq']. exists q'.
    now rewrite Hq', set_pos_set_pos.
  - exists q. reflexivity.
Qed.

Lemma ret_cursor {A} (a : A) : cursor_only (ret a).
Proof. intros c. exists (f_pos (fp c)). cbn. now rewrite set_pos_same. Qed.

Lemma for_loop_cursor {A} (n : nat) (body : A -> M A) :
  (forall a, cursor_only (body a)) -> forall a, cursor_only (for_loop n body a).
Proof.
  intros Hb. induction n as [|n IH]; intros a; cbn [for_loop].
  - apply ret_cursor.
  - apply bind_cursor; [apply Hb|exact IH].
Qed.

Lemma nbu_read_utf16_n_cursor (len : Z) : cursor_only (nbu_read_utf16_n len).
Proof.
  unfold nbu_read_utf16_n. destruct (len =? SIZE_MAX).
  - intros c. exists (f_pos (fp c)). cbn. now rewrite set_pos_same.
  - apply bind_cursor; [|intros; apply ret_cursor].
    apply for_loop_cursor. intros acc.
    apply bind_cursor; [|intros; apply ret_cursor].
    apply bind_cursor; [apply nbu_read_cursor|intros; apply ret_cursor].
Qed.

Lemma run_step {A} (m : M A) (w : world) :
  cursor_only m ->
  export_step None w (if fst (run m w) is Some _ then 0 else -1)
    (snd (run m w)).
Proof.
  intros Hm. unfold run. destruct (Hm (w_ctx w)) as [q Hq].
  destruct (m (w_ctx w)) as [a c1|e c1]; cbn [result_ctx fst snd] in *; subst.
  - split; [|split; [|split]].
    + exists q. reflexivity.
    + exists []. cbn. rewrite app_nil_r. split; [reflexivity|now left].
    + intros p n _ H. exact H.
    + reflexivity.
  - apply step_warn with (r := 0). split; [|split; [|split]].
    + exists q. reflexivity.
    + exists []. cbn. rewrite app_nil_r. split; [reflexivity|now left].
    + intros p n _ H. exact H.
    + reflexivity.
Qed.

Lemma nbu_write_step (fd : string) (buf : list byte) (w : world) :
  export_step (Some fd) w (fst (nbu_write fd buf w)) (snd (nbu_write fd buf w)).
Proof.
  unfold nbu_write. destruct (w_fs w !! fd) as [[|content]|] eqn:E;
    cbn [fst snd]; try (apply step_warn with (r := 0); apply step_refl).
  split; [|split; [|split]].
  - exists (f_pos (fp (w_ctx w))). cbn. now rewrite set_pos_same.
  - exists []. cbn. rewrite app_nil_r. split; [reflexivity|now left].
  - intros p n Hp H. cbn [w_fs set_fs].
    rewrite lookup_alter_ne; [exact H|]. intros ->. now apply Hp.
  - reflexivity.
Qed.

Lemma openat_step (dfd path : string) (w : world) :
  match openat dfd path w with
  | (Some fd, w1) => w_fs w !! fd = None /\ export_step None w 0 w1
  | (None, w1) => w1 = w
  end.
Proof.
  unfold openat. cbn zeta. destruct (name_too_long path); [reflexivity|].
  destruct (w_fs w !! path_at dfd path) eqn:E; [reflexivity|].
  destruct (is_dir _ _); [|reflexivity].
  split; [exact E|]. split; [|split; [|split]].
  - exists (f_pos (fp (w_ctx w))). cbn. now rewrite set_pos_same.
  - exists []. cbn. rewrite app_nil_r. split; [reflexivity|now left].
  - intros p n _ H. cbn [w_fs set_fs].
    rewrite lookup_insert_ne; [exact H|]. intros <-. congruence.
  - reflexivity.
Qed.

Lemma make_directory_step (full : string) (w : world) :
  export_step None w 0 (snd (make_directory full w)).
Proof.
  unfold make_directory. destruct (w_fs w !! full) eqn:E; cbn [snd];
    [apply step_refl|].
  destruct (parent_is_dir _ _); cbn [snd]; [|apply step_refl].
  split; [|split; [|split]].
  - exists (f_pos (fp (w_ctx w))). cbn. now rewrite set_pos_same.
  - exists []. cbn. rewrite app_nil_r. split; [reflexivity|now left].
  - intros p n _ H. cbn [w_fs set_fs].
    rewrite lookup_insert_ne; [exact H|]. intros <-. congruence.
  - reflexivity.
Qed.

Lemma mkdir_step (path : string) (w : world) :
  export_step None w 0 (snd (mkdir path w)).
Proof.
  unfold mkdir. destruct (name_too_long path); cbn [snd];
    [apply step_refl|apply make_directory_step].
Qed.

Lemma mkdirat_step (dfd path : string) (w : world) :
  export_step None w 0 (snd (mkdirat dfd path w)).
Proof.
  unfold mkdirat. destruct (name_too_long path); cbn [snd];
    [apply step_refl|apply make_directory_step].
Qed.

(** *** The export functions *)

Ltac run_case m w H :=
  pose proof (run_step m w H) as ?Hrun;
  destruct (run m w) as [[?a|] ?w]; cbn [fst snd] in *.

Lemma write_result_step (fd : string) (buf : list byte) (w0 w : world) :
  export_step (Some fd) w0 0 w ->
  export_step (Some fd) w0
    (fst (let '(r, w3) := nbu_write fd buf w in
          if r =? -1 then (-1, w3) else (0, w3)))
    (snd (let '(r, w3) := nbu_write fd buf w in
          if r =? -1 then (-1, w3) else (0, w3))).
Proof.
  intros H0. pose proof (nbu_write_step fd buf w) as Hw.
  destruct (nbu_write fd buf w) as [r w3]. cbn [fst snd] in *.
  destruct (step_result _ _ _ _ Hw) as [-> | ->]; cbn [Z.eqb fst snd];
    now apply (step_then _ w0 w w3).
Qed.

Lemma nbu_export_item_to_fd_step (item : nbu_item) (fd : string) (w : world) :
  In item (raw_items (w_ctx w)) ->
  export_step (Some fd) w (fst (nbu_export_item_to_fd item fd w))
    (snd (nbu_export_item_to_fd item fd w)).
Proof.
  intros Hin. unfold nbu_export_item_to_fd.
  destruct (w_malloc w (item_len item)) eqn:Hmem; cbn [negb fst snd].
  2:{ destruct (step_refl (Some fd) w) as (Hc & _ & Hf & Hm).
      split; [exact Hc|]. split; [|split; [exact Hf|exact Hm]].
      exists []. rewrite app_nil_r. split; [reflexivity|].
      right. split; [reflexivity|]. right. now exists item. }
  run_case (nbu_seek (item_pos item) SEEK_SET) w (nbu_seek_cursor (item_pos item) SEEK_SET);
    [|now apply step_any_file].
  run_case (nbu_read (item_len item)) w0 (nbu_read_cursor (item_len item)).
  - apply write_result_step.
    apply (step_then _ w w0 w1); now apply step_any_file.
  - apply (step_then _ w w0 w1); now apply step_any_file.
Qed.

Lemma nbu_export_utf16_item_to_fd_step (item : nbu_item) (fd : string)
    (w : world) :
  export_step (Some fd) w (fst (nbu_export_utf16_item_to_fd item fd w))
    (snd (nbu_export_utf16_item_to_fd item fd w)).
Proof.
  unfold nbu_export_utf16_item_to_fd.
  destruct (negb _); cbn [fst snd];
    [apply step_warn with (r := 0); apply step_refl|].
  run_case (nbu_seek (item_pos item) SEEK_SET) w (nbu_seek_cursor (item_pos item) SEEK_SET);
    [|now apply step_any_file].
  run_case (nbu_read_utf16_n (item_len item / 2)) w0
    (nbu_read_utf16_n_cursor (item_len item / 2)).
  - assert (export_step (Some fd) w 0 w1) as H01
        by (apply (step_then _ w w0 w1); now apply step_any_file).
    destruct (nbu_convert_utf16_to_utf8 a0); cbn [fst snd].
    + now apply write_result_step.
    + now apply step_warn with (r := 0).
  - apply (step_then _ w w0 w1); now apply step_any_file.
Qed.

Lemma export_items_step
    (export : nbu_item -> string -> world -> Z * world) (fd : string)
    (known : nbu_ctx -> nbu_item -> Prop) :
  (forall item q c, known c item -> known (set_pos q c) item) ->
  (forall item w, known (w_ctx w) item ->
                  export_step (Some fd) w (fst (export item fd w))
                    (snd (export item fd w))) ->
  forall l w, Forall (known (w_ctx w)) l ->
              export_step (Some fd) w (fst (export_items export l fd w))
                (snd (export_items export l fd w)).
Proof.
  intros Hk He. induction l as [|item l IH]; intros w Hl;
    cbn [export_items fst snd].
  - apply step_refl.
  - apply Forall_cons_1 in Hl as [Hitem Hl].
    pose proof (He item w Hitem) as H1. destruct (export item fd w) as [r w1].
    cbn [fst snd] in H1.
    destruct (step_result _ _ _ _ H1) as [-> | ->]; cbn [Z.eqb fst snd].
    + apply (step_then _ w w1); [exact H1|apply IH].
      destruct H1 as ([q Hq] & _). rewrite Hq.
      eapply Forall_impl; [exact Hl|]. intros x Hx. now apply Hk.
    + exact H1.
Qed.

Lemma export_text_items_step (fd : string) (l : list nbu_item) (w : world) :
  export_step (Some fd) w
    (fst (export_items nbu_export_utf16_item_to_fd l fd w))
    (snd (export_items nbu_export_utf16_item_to_fd l fd w)).
Proof.
  apply (export_items_step nbu_export_utf16_item_to_fd fd (fun _ _ => True)).
  - trivial.
  - intros. apply nbu_export_utf16_item_to_fd_step.
  - apply Forall_forall. trivial.
Qed.

Lemma export_raw_items_step (fd : string) (l : list nbu_item) (w : world) :
  Forall (fun item => In item (raw_items (w_ctx w))) l ->
  export_step (Some fd) w
    (fst (export_items nbu_export_item_to_fd l fd w))
    (snd (export_items nbu_export_item_to_fd l fd w)).
Proof.
  apply (export_items_step nbu_export_item_to_fd fd
           (fun c item => In item (raw_items c))).
  - intros item q c H. exact H.
  - intros. now apply nbu_export_item_to_fd_step.
Qed.

Lemma opened_step (dfd path : string) (w : world)
    (k : string -> world -> Z * world) :
  (forall fd w1, export_step None w 0 w1 ->
                 export_step (Some fd) w1 (fst (k fd w1)) (snd (k fd w1))) ->
  export_step None w
    (fst (match openat dfd path w with
          | (None, w1) => (-1, warn Openat_failed w1)
          | (Some fd, w1) => k fd w1
          end))
    (snd (match openat dfd path w with
          | (None, w1) => (-1, warn Openat_failed w1)
          | (Some fd, w1) => k fd w1
          end)).
Proof.
  intros Hk. pose proof (openat_step dfd path w) as Ho.
  destruct (openat dfd path w) as [[fd|] w1].
  - destruct Ho as [Hnew H1]. apply (step_new_file fd w w1); [assumption..|].
    now apply Hk.
  - subst w1. cbn [fst snd]. apply step_warn with (r := 0). apply step_refl.
Qed.

Lemma nbu_export_item_list_step (l : option (list nbu_item))
    (dfd path : string) (w : world) :
  Forall (fun item => In item (raw_items (w_ctx w))) (default [] l) ->
  export_step None w (fst (nbu_export_item_list l dfd path w))
    (snd (nbu_export_item_list l dfd path w)).
Proof.
  intros Hl. unfold nbu_export_item_list.
  destruct l as [[|item items]|]; cbn [fst snd]; try apply step_refl.
  apply (opened_step dfd path w
           (export_items nbu_export_item_to_fd (item :: items))).
  intros fd w1 ([q Hq] & _). apply export_raw_items_step.
  rewrite Hq. exact Hl.
Qed.

Lemma nbu_export_utf16_item_step (item : nbu_item) (dfd path : string)
    (w : world) :
  export_step None w (fst (nbu_export_utf16_item item dfd path w))
    (snd (nbu_export_utf16_item item dfd path w)).
Proof.
  unfold nbu_export_utf16_item.
  apply (opened_step dfd path w
           (fun fd w1 =>
              let '(r, w2) := nbu_export_utf16_item_to_fd item fd w1 in
              if r =? -1 then (-1, w2) else (0, w2))).
  intros fd w1 _.
  pose proof (nbu_export_utf16_item_to_fd_step item fd w1) as H.
  destruct (nbu_export_utf16_item_to_fd item fd w1) as [r w2].
  cbn [fst snd] in H.
  destruct (step_result _ _ _ _ H) as [-> | ->]; exact H.
Qed.

Lemma nbu_export_message_folder_step (folder : nbu_folder)
    (dfd path : string) (w : world) :
  export_step None w (fst (nbu_export_message_folder folder dfd path w))
    (snd (nbu_export_message_folder folder dfd path w)).
Proof.
  unfold nbu_export_message_folder.
  destruct (nbu_convert_utf16_to_utf8 _); cbn [fst snd];
    [|apply step_warn with (r := 0); apply step_refl].
  destruct (invalid_folder_name _); cbn [fst snd];
    [apply step_warn with (r := 0); apply step_refl|].
  apply (opened_step dfd _ w
           (export_items nbu_export_utf16_item_to_fd (folder_items folder))).
  intros fd w1 _. apply export_text_items_step.
Qed.

Lemma export_memos_loop_step (dfd : string) (l : list nbu_item) :
  forall i ret w0 w,
    export_step None w0 ret w ->
    export_step None w0 (fst (export_memos_loop l i ret dfd w))
      (snd (export_memos_loop l i ret dfd w)).
Proof.
  induction l as [|item l IH]; intros i ret w0 w H0; cbn [export_memos_loop].
  - exact H0.
  - cbn zeta.
    pose proof (nbu_export_utf16_item_step item dfd
                  (NBU_MEMOS_DIR +:+ "/memo-" +:+ decimal i +:+ ".txt") w) as H1.
    destruct (nbu_export_utf16_item item dfd _ w) as [r w1].
    apply IH. now apply (step_collect w0 w w1).
Qed.

Lemma export_messages_loop_step (dfd : string) (l : list nbu_folder) :
  forall ret w0 w,
    export_step None w0 ret w ->
    export_step None w0 (fst (export_messages_loop l ret dfd w))
      (snd (export_messages_loop l ret dfd w)).
Proof.
  induction l as [|folder l IH]; intros ret w0 w H0;
    cbn [export_messages_loop].
  - exact H0.
  - pose proof (nbu_export_message_folder_step folder dfd NBU_MESSAGES_DIR w)
      as H1.
    destruct (nbu_export_message_folder folder dfd NBU_MESSAGES_DIR w)
      as [r w1].
    apply IH. now apply (step_collect w0 w w1).
Qed.

Lemma made_directory_step (dfd path : string) (w : world)
    (k : world -> Z * world) :
  (forall w1, export_step None w 0 w1 ->
              export_step None w (fst (k w1)) (snd (k w1))) ->
  export_step None w
    (fst (match mkdirat dfd path w with
          | (Mkdir_error, w1) => (-1, warn Mkdirat_failed w1)
          | (_, w1) => k w1
          end))
    (snd (match mkdirat dfd path w with
          | (Mkdir_error, w1) => (-1, warn Mkdirat_failed w1)
          | (_, w1) => k w1
          end)).
Proof.
  intros Hk. pose proof (mkdirat_step dfd path w) as Hm.
  destruct (mkdirat dfd path w) as [[] w1]; cbn [fst snd] in *.
  - now apply Hk.
  - now apply Hk.
  - now apply step_warn with (r := 0).
Qed.

Lemma nbu_export_memos_step (dfd : string) (w : world) :
  export_step None w (fst (nbu_export_memos dfd w))
    (snd (nbu_export_memos dfd w)).
Proof.
  unfold nbu_export_memos.
  destruct (memos (w_ctx w)) as [[|item l]|]; cbn [fst snd];
    try apply step_refl.
  apply (made_directory_step dfd NBU_MEMOS_DIR w
           (export_memos_loop (item :: l) 1 0 dfd)).
  intros w1 H1. now apply export_memos_loop_step.
Qed.

Lemma nbu_export_messages_step (dfd : string) (w : world) :
  export_step None w (fst (nbu_export_messages dfd w))
    (snd (nbu_export_messages dfd w)).
Proof.
  unfold nbu_export_messages.
  destruct (messages (w_ctx w)) as [[|folder l]|]; cbn [fst snd];
    try apply step_refl.
  apply (made_directory_step dfd NBU_MESSAGES_DIR w
           (export_messages_loop (folder :: l) 0 dfd)).
  intros w1 H1. now apply export_messages_loop_step.
Qed.

Lemma export_categories_step (dfd : string) (w : world) :
  export_step None w (fst (export_categories dfd w))
    (snd (export_categories dfd w)).
Proof.
  unfold export_categories, nbu_export_calendar, nbu_export_contacts.
  cbn zeta.
  assert (Forall (fun item => In item (raw_items (w_ctx w)))
            (default [] (calendar (w_ctx w)))) as Hcal
      by (apply Stdlib.Lists.List.Forall_forall; intros x Hx;
          apply in_or_app; now left).
  pose proof (nbu_export_item_list_step (calendar (w_ctx w)) dfd
                NBU_CALENDAR_FILE w Hcal) as H1.
  destruct (nbu_export_item_list (calendar (w_ctx w)) dfd NBU_CALENDAR_FILE w)
    as [r1 w1]. cbn [fst snd] in H1.
  pose proof (step_collect w w w1 0 r1 (step_refl None w) H1) as A1.
  assert (Forall (fun item => In item (raw_items (w_ctx w1)))
            (default [] (contacts (w_ctx w1)))) as Hcon
      by (apply Stdlib.Lists.List.Forall_forall; intros x Hx;
          apply in_or_app; now right).
  pose proof (nbu_export_item_list_step (contacts (w_ctx w1)) dfd
                NBU_CONTACTS_FILE w1 Hcon) as H2.
  destruct (nbu_export_item_list (contacts (w_ctx w1)) dfd NBU_CONTACTS_FILE w1)
    as [r2 w2]. cbn [fst snd] in H2.
  pose proof (step_collect w w1 w2 _ r2 A1 H2) as A2.
  pose proof (nbu_export_memos_step dfd w2) as H3.
  destruct (nbu_export_memos dfd w2) as [r3 w3]. cbn [fst snd] in H3.
  pose proof (step_collect w w2 w3 _ r3 A2 H3) as A3.
  pose proof (nbu_export_messages_step dfd w3) as H4.
  destruct (nbu_export_messages dfd w3) as [r4 w4]. cbn [fst snd] in H4.
  exact (step_collect w w3 w4 _ r4 A3 H4).
Qed.

Lemma nbu_export_step (path : string) (w : world) :
  export_step None w (fst (nbu_export path w)) (snd (nbu_export path w)).
Proof.
  unfold nbu_export. pose proof (mkdir_step path w) as Hm.
  destruct (mkdir path w) as [res w1]. cbn [snd] in Hm.
  assert (export_step None w
            (fst match open_directory path w1 with
                 | Some dfd => export_categories dfd w1
                 | None => (-1, warn Open_failed w1)
                 end)
            (snd match open_directory path w1 with
                 | Some dfd => export_categories dfd w1
                 | None => (-1, warn Open_failed w1)
                 end)) as Hrest.
  { destruct (open_directory path w1) as [dfd|]; cbn [fst snd].
    - apply (step_then None w w1); [exact Hm|apply export_categories_step].
    - now apply step_warn with (r := 0). }
  destruct res; try exact Hrest.
  cbn [fst snd]. now apply step_warn with (r := 0).
Qed.

(** X17: the export never overwrites or removes anything: every path
    of the destination that exists before [nbu_export], a file with its
    content or a directory, is the same behind it, whatever the backup
    holds and whether the export succeeds or not.  The files are opened
    with [O_CREAT | O_EXCL] and written through their own descriptor
    only. *)
Theorem export_never_overwrites (path : string) (w : world) (p : string)
    (n : node) :
  w_fs w !! p = Some n -> w_fs (snd (nbu_export path w)) !! p = Some n.
Proof.
  destruct (nbu_export_step path w) as (_ & _ & Hf).
  apply Hf. discriminate.
Qed.

Lemma export_never_overwrites_witness :
  let c := set_calendar (Some [{| item_pos := 0; item_len := 2 |}])
             (nbu_ctx_init (le_bytes 2 0x48)) in
  let w := {| w_ctx := c;
              w_fs := <["out/calendar.ics" := File [Byte.x01]]> {["out" := Dir]};
              w_stderr := [];
              w_malloc := enough_memory |} in
  w_fs (snd (nbu_export "out" w)) !! "out/calendar.ics"
  = Some (File [Byte.x01]).
Proof.
  intros c w. apply (export_never_overwrites "out" w). reflexivity.
Defined.

(** X18: [nbu_export] returns 0 or [-1], and the diagnostics that were
    there stay in front.  With the result 0 it has written no diagnostic.
    With the result [-1] it has written at least one, with one exception:
    the buffer for an item of the calendar or of the contacts could not be
    allocated, which ends the export of that file with [-1] and without a
    word.  Of the context it changes the cursor of the backup stream and
    nothing else: the parsed lists are the same behind the export. *)
Theorem export_reports_its_failures (path : string) (w : world) :
  let r := fst (nbu_export path w) in
  let w' := snd (nbu_export path w) in
  (exists q, w_ctx w' = set_pos q (w_ctx w))
  /\ (exists es, w_stderr w' = w_stderr w ++ es
                 /\ (r = 0 /\ es = []
                     \/ r = -1
                        /\ (es <> []
                            \/ exists item,
                                 In item (default [] (calendar (w_ctx w))
                                          ++ default [] (contacts (w_ctx w)))
                                 /\ w_malloc w (item_len item) = false))).
Proof.
  cbn zeta. destruct (nbu_export_step path w) as (Hc & He & _).
  split; assumption.
Qed.

End ExportSafety.

(** ** Where the export writes *)

Module ExportConfinement.
Import Utf Nbu UtfFacts ReaderFacts HandlerFacts ExportFacts InvariantFacts
       ItemExportFacts.

Lemma creates_refl (A : string -> Prop) (w : world) : creates_in A w w.
Proof. intros p Hn Hs. contradiction. Qed.

Lemma creates_same_fs (A : string -> Prop) (w w' : world) :
  w_fs w' = w_fs w -> creates_in A w w'.
Proof. intros E p Hn Hs. rewrite E in Hs. contradiction. Qed.

Lemma creates_trans (A : string -> Prop) (w w1 w2 : world) :
  creates_in A w w1 -> creates_in A w1 w2 -> creates_in A w w2.
Proof.
  intros H1 H2 p Hn Hs.
  destruct (w_fs w1 !! p) eqn:E.
  - apply (H1 p Hn). rewrite E. discriminate.
  - exact (H2 p E Hs).
Qed.

Lemma creates_weaken (A B : string -> Prop) (w w' : world) :
  (forall p, A p -> B p) -> creates_in A w w' -> creates_in B w w'.
Proof. intros HAB H p Hn Hs. apply HAB. exact (H p Hn Hs). Qed.

Lemma creates_warn (A : string -> Prop) (w w' : world) (e : nbu_error) :
  creates_in A w w' -> creates_in A w (warn e w').
Proof. intros H p Hn Hs. exact (H p Hn Hs). Qed.

Lemma run_creates {X} (A : string -> Prop) (m : M X) (w : world) :
  creates_in A w (snd (run m w)).
Proof.
  apply creates_same_fs. unfold run.
  destruct (m (w_ctx w)); reflexivity.
Qed.

Lemma nbu_write_creates (A : string -> Prop) (fd : string) (buf : list byte)
    (w : world) :
  creates_in A w (snd (nbu_write fd buf w)).
Proof.
  unfold nbu_write. destruct (w_fs w !! fd) as [[|content]|] eqn:E;
    cbn [snd]; try (apply creates_warn, creates_refl).
  intros p Hn Hs. cbn [w_fs set_fs] in Hs.
  exfalso. apply Hs. apply lookup_alter_None. exact Hn.
Qed.

Lemma openat_creates (dfd path : string) (w : world) :
  creates_in (eq (path_at dfd path)) w (snd (openat dfd path w)).
Proof.
  unfold openat. cbn zeta. destruct (name_too_long path); [apply creates_refl|].
  destruct (w_fs w !! path_at dfd path); [apply creates_refl|].
  destruct (is_dir _ _); [|apply creates_refl].
  intros p Hn Hs. cbn [snd w_fs set_fs] in Hs.
  destruct (decide (path_at dfd path = p)) as [E|E]; [exact E|].
  rewrite lookup_insert_ne in Hs by exact E. contradiction.
Qed.

Lemma make_directory_creates (path : string) (w : world) :
  creates_in (eq path) w (snd (make_directory path w)).
Proof.
  unfold make_directory. destruct (w_fs w !! path); [apply creates_refl|].
  destruct (parent_is_dir _ _); [|apply creates_refl].
  intros p Hn Hs. cbn [snd w_fs set_fs] in Hs.
  destruct (decide (path = p)) as [E|E]; [exact E|].
  rewrite lookup_insert_ne in Hs by exact E. contradiction.
Qed.

Lemma mkdir_creates (path : string) (w : world) :
  creates_in (eq path) w (snd (mkdir path w)).
Proof.
  unfold mkdir. destruct (name_too_long path);
    [apply creates_refl|apply make_directory_creates].
Qed.

Lemma mkdirat_creates (dfd path : string) (w : world) :
  creates_in (eq (path_at dfd path)) w (snd (mkdirat dfd path w)).
Proof.
  unfold mkdirat. destruct (name_too_long path);
    [apply creates_refl|apply make_directory_creates].
Qed.

Lemma write_result_creates (A : string -> Prop) (fd : string)
    (buf : list byte) (w : world) :
  creates_in A w
    (snd (let '(r, w3) := nbu_write fd buf w in
          if r =? -1 then (-1, w3) else (0, w3))).
Proof.
  pose proof (nbu_write_creates A fd buf w) as H.
  destruct (nbu_write fd buf w) as [r w3]. destruct (r =? -1); exact H.
Qed.

Lemma nbu_export_item_to_fd_creates (A : string -> Prop) (item : nbu_item)
    (fd : string) (w : world) :
  creates_in A w (snd (nbu_export_item_to_fd item fd w)).
Proof.
  unfold nbu_export_item_to_fd.
  destruct (negb _); [apply creates_refl|].
  pose proof (run_creates A (nbu_seek (item_pos item) SEEK_SET) w) as H1.
  destruct (run (nbu_seek (item_pos item) SEEK_SET) w) as [[u|] w1];
    cbn [snd] in *; [|exact H1].
  pose proof (run_creates A (nbu_read (item_len item)) w1) as H2.
  destruct (run (nbu_read (item_len item)) w1) as [[buf|] w2];
    cbn [snd] in *.
  - apply (creates_trans A w w2); [now apply (creates_trans A w w1)|].
    apply write_result_creates.
  - now apply (creates_trans A w w1).
Qed.

Lemma nbu_export_utf16_item_to_fd_creates (A : string -> Prop)
    (item : nbu_item) (fd : string) (w : world) :
  creates_in A w (snd (nbu_export_utf16_item_to_fd item fd w)).
Proof.
  unfold nbu_export_utf16_item_to_fd.
  destruct (negb _); cbn [snd]; [apply creates_warn, creates_refl|].
  pose proof (run_creates A (nbu_seek (item_pos item) SEEK_SET) w) as H1.
  destruct (run (nbu_seek (item_pos item) SEEK_SET) w) as [[u|] w1];
    cbn [snd] in *; [|exact H1].
  pose proof (run_creates A (nbu_read_utf16_n (item_len item / 2)) w1) as H2.
  destruct (run (nbu_read_utf16_n (item_len item / 2)) w1) as [[utf16|] w2];
    cbn [snd] in *; [|now apply (creates_trans A w w1)].
  pose proof (creates_trans A w w1 w2 H1 H2) as H12.
  destruct (nbu_convert_utf16_to_utf8 utf16); cbn [snd].
  - apply (creates_trans A w w2); [exact H12|apply write_result_creates].
  - now apply creates_warn.
Qed.

Lemma export_items_creates (A : string -> Prop)
    (export : nbu_item -> string -> world -> Z * world) (fd : string) :
  (forall item w, creates_in A w (snd (export item fd w))) ->
  forall l w, creates_in A w (snd (export_items export l fd w)).
Proof.
  intros He. induction l as [|item l IH]; intros w; cbn [export_items snd].
  - apply creates_refl.
  - pose proof (He item w) as H1. destruct (export item fd w) as [r w1].
    cbn [snd] in H1. destruct (r =? -1); cbn [snd]; [exact H1|].
    apply (creates_trans A w w1); [exact H1|apply IH].
Qed.

Lemma opened_creates (dfd path : string) (w : world)
    (k : string -> world -> Z * world) :
  (forall fd w1, creates_in (eq (path_at dfd path)) w1 (snd (k fd w1))) ->
  creates_in (eq (path_at dfd path)) w
    (snd (match openat dfd path w with
          | (None, w1) => (-1, warn Openat_failed w1)
          | (Some fd, w1) => k fd w1
          end)).
Proof.
  intros Hk. pose proof (openat_creates dfd path w) as Ho.
  destruct (openat dfd path w) as [[fd|] w1]; cbn [snd] in *.
  - apply (creates_trans _ w w1); [exact Ho|apply Hk].
  - now apply creates_warn.
Qed.

Lemma nbu_export_item_list_creates (l : option (list nbu_item))
    (dfd path : string) (w : world) :
  creates_in (eq (path_at dfd path)) w
    (snd (nbu_export_item_list l dfd path w)).
Proof.
  unfold nbu_export_item_list.
  destruct l as [[|item items]|]; cbn [snd]; try apply creates_refl.
  apply (opened_creates dfd path w
           (export_items nbu_export_item_to_fd (item :: items))).
  intros fd w1. apply export_items_creates.
  intros. apply nbu_export_item_to_fd_creates.
Qed.

Lemma nbu_export_utf16_item_creates (item : nbu_item) (dfd path : string)
    (w : world) :
  creates_in (eq (path_at dfd path)) w
    (snd (nbu_export_utf16_item item dfd path w)).
Proof.
  unfold nbu_export_utf16_item.
  apply (opened_creates dfd path w
           (fun fd w1 =>
              let '(r, w2) := nbu_export_utf16_item_to_fd item fd w1 in
              if r =? -1 then (-1, w2) else (0, w2))).
  intros fd w1.
  pose proof (nbu_export_utf16_item_to_fd_creates (eq (path_at dfd path))
                item fd w1) as H.
  destruct (nbu_export_utf16_item_to_fd item fd w1) as [r w2].
  destruct (r =? -1); exact H.
Qed.

(** A folder name that passed the test gives a file in the directory
    itself. *)
Lemma folder_file_dirname (dfd path base : string) :
  invalid_folder_name base = false ->
  dirname (path_at dfd (path +:+ "/" +:+ base +:+ ".vmg")) = path_at dfd path.
Proof.
  intros Hv. rewrite (path_at_assoc dfd path (base +:+ ".vmg")).
  apply dirname_path_at. rewrite has_slash_app.
  unfold invalid_folder_name in Hv.
  apply orb_false_elim in Hv as [Hv _]. apply orb_false_elim in Hv as [Hv _].
  apply orb_false_elim in Hv as [_ Hv]. now rewrite Hv.
Qed.

Lemma nbu_export_message_folder_creates (folder : nbu_folder)
    (dfd path : string) (w : world) :
  creates_in (fun p => dirname p = path_at dfd path) w
    (snd (nbu_export_message_folder folder dfd path w)).
Proof.
  unfold nbu_export_message_folder.
  destruct (nbu_convert_utf16_to_utf8 _) as [utf8|]; cbn [snd];
    [|apply creates_warn, creates_refl].
  destruct (invalid_folder_name _) eqn:Hv; cbn [snd];
    [apply creates_warn, creates_refl|].
  apply (creates_weaken
           (eq (path_at dfd
                  (path +:+ "/"
                   +:+ string_of_bytes (take (Z.to_nat (strlen utf8)) utf8)
                   +:+ ".vmg")))).
  { intros p <-. now apply folder_file_dirname. }
  apply (opened_creates dfd _ w
           (export_items nbu_export_utf16_item_to_fd (folder_items folder))).
  intros fd w1. apply export_items_creates.
  intros. apply nbu_export_utf16_item_to_fd_creates.
Qed.

Lemma export_memos_loop_creates (dfd : string) (l : list nbu_item) :
  forall i ret w,
    creates_in (fun p => dirname p = path_at dfd NBU_MEMOS_DIR) w
      (snd (export_memos_loop l i ret dfd w)).
Proof.
  induction l as [|item l IH]; intros i ret w; cbn [export_memos_loop].
  - apply creates_refl.
  - cbn zeta.
    change (NBU_MEMOS_DIR +:+ "/memo-" +:+ decimal i +:+ ".txt")
      with (memo_name i).
    pose proof (nbu_export_utf16_item_creates item dfd (memo_name i) w) as H1.
    destruct (nbu_export_utf16_item item dfd (memo_name i) w) as [r w1].
    cbn [snd] in H1.
    apply (creates_trans _ w w1); [|apply IH].
    apply (creates_weaken (eq (path_at dfd (memo_name i)))); [|exact H1].
    intros p <-. apply memo_path_dirname.
Qed.

Lemma export_messages_loop_creates (dfd : string) (l : list nbu_folder) :
  forall ret w,
    creates_in (fun p => dirname p = path_at dfd NBU_MESSAGES_DIR) w
      (snd (export_messages_loop l ret dfd w)).
Proof.
  induction l as [|folder l IH]; intros ret w; cbn [export_messages_loop].
  - apply creates_refl.
  - pose proof (nbu_export_message_folder_creates folder dfd
                  NBU_MESSAGES_DIR w) as H1.
    destruct (nbu_export_message_folder folder dfd NBU_MESSAGES_DIR w)
      as [r w1].
    cbn [snd] in H1. apply (creates_trans _ w w1); [exact H1|apply IH].
Qed.

Lemma made_directory_creates (A : string -> Prop) (dfd name : string)
    (w : world) (k : world -> Z * world) :
  has_slash name = false ->
  (forall p, dirname p = dfd -> A p) ->
  (forall w1, creates_in A w1 (snd (k w1))) ->
  creates_in A w
    (snd (match mkdirat dfd name w with
          | (Mkdir_error, w1) => (-1, warn Mkdirat_failed w1)
          | (_, w1) => k w1
          end)).
Proof.
  intros Hname HA Hk.
  assert (creates_in A w (snd (mkdirat dfd name w))) as Hm.
  { apply (creates_weaken (eq (path_at dfd name))); [|apply mkdirat_creates].
    intros p <-. apply HA. now apply dirname_path_at. }
  destruct (mkdirat dfd name w) as [[] w1]; cbn [snd] in *.
  - apply (creates_trans A w w1); [exact Hm|apply Hk].
  - apply (creates_trans A w w1); [exact Hm|apply Hk].
  - now apply creates_warn.
Qed.

Lemma export_categories_creates (dfd : string) (w : world) :
  creates_in (export_path dfd) w (snd (export_categories dfd w)).
Proof.
  unfold export_categories, nbu_export_calendar, nbu_export_contacts.
  cbn zeta.
  assert (Hlist : forall l name w0,
             has_slash name = false ->
             creates_in (export_path dfd) w0
               (snd (nbu_export_item_list l dfd name w0))).
  { intros l name w0 Hname.
    apply (creates_weaken (eq (path_at dfd name)));
      [|apply nbu_export_item_list_creates].
    intros p <-. right. left. now apply dirname_path_at. }
  pose proof (Hlist (calendar (w_ctx w)) NBU_CALENDAR_FILE w eq_refl) as H1.
  destruct (nbu_export_item_list (calendar (w_ctx w)) dfd NBU_CALENDAR_FILE w)
    as [r1 w1]. cbn [snd] in H1.
  pose proof (Hlist (contacts (w_ctx w1)) NBU_CONTACTS_FILE w1 eq_refl) as H2.
  destruct (nbu_export_item_list (contacts (w_ctx w1)) dfd NBU_CONTACTS_FILE w1)
    as [r2 w2]. cbn [snd] in H2.
  assert (creates_in (export_path dfd) w2 (snd (nbu_export_memos dfd w2)))
    as H3.
  { unfold nbu_export_memos.
    destruct (memos (w_ctx w2)) as [[|item l]|]; cbn [snd];
      try apply creates_refl.
    apply (made_directory_creates (export_path dfd) dfd NBU_MEMOS_DIR w2
             (export_memos_loop (item :: l) 1 0 dfd)); [reflexivity| |].
    - intros p Hp. right. left. exact Hp.
    - intros w0.
      apply (creates_weaken (fun p => dirname p = path_at dfd NBU_MEMOS_DIR));
        [|apply export_memos_loop_creates].
      intros p Hp. right. right. left. exact Hp. }
  destruct (nbu_export_memos dfd w2) as [r3 w3]. cbn [snd] in H3.
  assert (creates_in (export_path dfd) w3 (snd (nbu_export_messages dfd w3)))
    as H4.
  { unfold nbu_export_messages.
    destruct (messages (w_ctx w3)) as [[|folder l]|]; cbn [snd];
      try apply creates_refl.
    apply (made_directory_creates (export_path dfd) dfd NBU_MESSAGES_DIR w3
             (export_messages_loop (folder :: l) 0 dfd)); [reflexivity| |].
    - intros p Hp. right. left. exact Hp.
    - intros w0.
      apply (creates_weaken
               (fun p => dirname p = path_at dfd NBU_MESSAGES_DIR));
        [|apply export_messages_loop_creates].
      intros p Hp. right. right. right. exact Hp. }
  destruct (nbu_export_messages dfd w3) as [r4 w4]. cbn [snd] in *.
  apply (creates_trans _ w w3); [|exact H4].
  apply (creates_trans _ w w2); [|exact H3].
  now apply (creates_trans _ w w1).
Qed.

(** X19: the export writes in its directory only.  A path that does
    not exist before [nbu_export] and exists behind it is the destination
    directory, lies in it, or lies in its directory of the memos or of
    the messages, whatever the backup holds: a folder name of the backup
    with a slash is refused, so no name read from the backup leads
    elsewhere. *)
Theorem export_stays_in_directory (path : string) (w : world) (p : string) :
  w_fs w !! p = None -> w_fs (snd (nbu_export path w)) !! p <> None ->
  export_path path p.
Proof.
  revert p. change (creates_in (export_path path) w (snd (nbu_export path w))).
  unfold nbu_export.
  assert (creates_in (export_path path) w (snd (mkdir path w))) as Hm.
  { apply (creates_weaken (eq path)); [|apply mkdir_creates].
    intros p <-. now left. }
  destruct (mkdir path w) as [res w1]. cbn [snd] in Hm.
  assert (creates_in (export_path path) w
            (snd match open_directory path w1 with
                 | Some dfd => export_categories dfd w1
                 | None => (-1, warn Open_failed w1)
                 end)) as Hrest.
  { unfold open_directory. destruct (is_dir (w_fs w1) path); cbn [snd].
    - apply (creates_trans _ w w1); [exact Hm|apply export_categories_creates].
    - now apply creates_warn. }
  destruct res; try exact Hrest.
  cbn [snd]. now apply creates_warn.
Qed.

Lemma export_stays_in_directory_witness :
  let folder := {| folder_name := [0x49; 0x6e; 0];
                   folder_items := [{| item_pos := 0; item_len := 2 |}] |} in
  let c := set_messages (Some [folder]) (nbu_ctx_init (le_bytes 2 0x48)) in
  let w := {| w_ctx := c; w_fs := ∅; w_stderr := [];
              w_malloc := enough_memory |} in
  export_path "out" "out/messages/In.vmg".
Proof.
  intros folder c w.
  apply (export_stays_in_directory "out" w "out/messages/In.vmg").
  - reflexivity.
  - vm_compute. discriminate.
Defined.

End ExportConfinement.

(** ** What the section handlers leave alone *)

Module FrameFacts.
Import Utf Nbu UtfFacts UtfMore ReaderFacts HandlerFacts ExportFacts
       InvariantFacts DispatcherFacts ParserFacts.

Section Frame.

(** A property of the context that the cursor and the updates of the
    handlers keep. *)
Variable P : nbu_ctx -> Prop.
Hypothesis P_pos : forall p c, P c -> P (set_pos p c).
Hypothesis P_bookmarks : forall v c, P c -> P (set_bookmarks v c).
Hypothesis P_messages : forall v c, P c -> P (set_messages v c).
Hypothesis P_mmses : forall v c, P c -> P (set_mmses v c).
Hypothesis P_calendar : forall v c, P c -> P (set_calendar v c).
Hypothesis P_contacts : forall v c, P c -> P (set_contacts v c).
Hypothesis P_memos_new : forall c, P c -> P (set_memos (Some []) c).
Hypothesis P_memos_add :
  forall pos len c,
    P c ->
    P (set_memos (insert_tail {| item_pos := pos;
                                 item_len := to_uint16 (len * 2) |}
                    (memos c)) c).

Abbreviation keeps m := (hoare P m (fun _ => P)).

Lemma keeps_ret {A} (a : A) : keeps (ret a).
Proof. intros c a' c' Hc H. inversion H; subst. exact Hc. Qed.

Lemma keeps_fail {A} (e : nbu_error) : keeps (@fail A e).
Proof. intros c a' c' Hc H. discriminate. Qed.

Lemma keeps_bind {A B} (m : M A) (k : A -> M B) :
  keeps m -> (forall a, keeps (k a)) -> keeps (bind m k).
Proof.
  intros Hm Hk c b c' Hc H. mfirst H a c1 E.
  exact (Hk a c1 b c' (Hm c a c1 Hc E) H).
Qed.

Lemma keeps_modify (f : nbu_ctx -> nbu_ctx) :
  (forall c, P c -> P (f c)) -> keeps (modify f).
Proof. intros Hf c a c' Hc H. inversion H; subst. now apply Hf. Qed.

Lemma keeps_for_loop {A} (n : nat) (body : A -> M A) :
  (forall a, keeps (body a)) -> forall a, keeps (for_loop n body a).
Proof.
  intros Hb. induction n as [|n IH]; intros a; cbn [for_loop].
  - apply keeps_ret.
  - apply keeps_bind; [apply Hb|exact IH].
Qed.

Lemma keeps_on_error {A} (m : M A) (cleanup : nbu_ctx -> nbu_ctx) :
  keeps m -> keeps (on_error m cleanup).
Proof.
  intros Hm c a c' Hc H. apply on_error_Ok in H. exact (Hm c a c' Hc H).
Qed.

Lemma keeps_nbu_read (size : Z) : keeps (nbu_read size).
Proof.
  intros c bs c' Hc H. apply nbu_read_inv in H as (_ & _ & _ & ->).
  now apply P_pos.
Qed.

Lemma keeps_read_uint (size : Z) : keeps (read_uint size).
Proof.
  intros c v c' Hc H. apply read_uint_inv in H as (_ & _ & _ & ->).
  now apply P_pos.
Qed.

Lemma keeps_nbu_seek (offset : Z) (wh : whence) : keeps (nbu_seek offset wh).
Proof.
  intros c u c' Hc H. apply nbu_seek_inv in H as [_ ->]. now apply P_pos.
Qed.

Lemma keeps_nbu_tell : keeps nbu_tell.
Proof. intros c p c' Hc H. apply nbu_tell_inv in H as [_ ->]. exact Hc. Qed.

Lemma keeps_debug_utf8 (s : list Z) : keeps (debug_utf8 s).
Proof. intros c u c' Hc H. apply debug_utf8_inv in H. now subst. Qed.

Lemma keeps_nbu_read_utf16 : keeps nbu_read_utf16.
Proof.
  unfold nbu_read_utf16, nbu_read_utf16_n.
  apply keeps_bind; [apply keeps_read_uint|intros len].
  destruct (len =? SIZE_MAX); [apply keeps_fail|].
  apply keeps_bind; [|intros; apply keeps_ret].
  apply keeps_for_loop. intros acc.
  apply keeps_bind; [apply keeps_read_uint|intros; apply keeps_ret].
Qed.

Ltac keep_step :=
  first
    [ apply keeps_ret | apply keeps_fail
    | apply keeps_read_uint | apply keeps_nbu_read
    | apply keeps_nbu_seek | apply keeps_nbu_tell
    | apply keeps_debug_utf8 | apply keeps_nbu_read_utf16
    | apply keeps_modify; intros; cbv beta;
      first [ apply P_bookmarks | apply P_messages | apply P_mmses
            | apply P_calendar | apply P_contacts | apply P_memos_new
            | apply P_memos_add ]; assumption
    | apply keeps_on_error
    | apply keeps_for_loop; intros
    | apply keeps_bind; [|intros]
    | progress cbn zeta
    | match goal with
      | |- hoare _ (if ?b then _ else _) _ => destruct b
      end ].

Lemma keeps_section_read (k : section_kind) (section_pos : Z) :
  keeps (section_read k section_pos).
Proof.
  destruct k; cbn [section_read].
  - unfold nbu_read_calendar_section, nbu_read_vcard_section, nbu_read_vcards,
      nbu_read_vcard.
    repeat keep_step.
  - unfold nbu_read_groups_section, nbu_read_group_folder. repeat keep_step.
  - unfold nbu_read_advanced_settings_section. repeat keep_step.
  - unfold nbu_read_mms_section, nbu_read_mms_folder, nbu_read_mms.
    repeat keep_step.
  - unfold nbu_read_memos_section, nbu_read_memo. repeat keep_step.
  - unfold nbu_read_messages_section, nbu_read_message_folder,
      nbu_read_message.
    repeat keep_step.
  - unfold nbu_read_bookmarks_section, nbu_read_vcard_folder_section,
      nbu_read_vcard_folder, nbu_read_vcards, nbu_read_vcard.
    repeat keep_step.
  - unfold nbu_read_contacts_section, nbu_read_vcard_section, nbu_read_vcards,
      nbu_read_vcard.
    repeat keep_step.
Qed.

Lemma keeps_nbu_read_sections : keeps nbu_read_sections.
Proof.
  unfold nbu_read_sections, nbu_read_section_entry.
  apply keeps_bind; [apply keeps_read_uint|intros nsections].
  apply keeps_for_loop. intros [].
  apply keeps_bind; [apply keeps_nbu_read|intros guid].
  apply keeps_bind; [apply keeps_read_uint|intros pos].
  apply keeps_bind; [apply keeps_nbu_seek|intros _].
  unfold nbu_read_section. destruct (find_section _ _).
  - apply keeps_section_read.
  - apply keeps_fail.
Qed.

End Frame.

(** *** The memos *)

Lemma memo_length_add (pos len : Z) (o : option (list nbu_item)) :
  Forall memo_length (default [] o) ->
  Forall memo_length
    (default [] (insert_tail {| item_pos := pos;
                                item_len := to_uint16 (len * 2) |} o)).
Proof.
  intros H. destruct o as [l|]; cbn; [|constructor].
  apply Forall_app. split; [exact H|]. repeat constructor; cbn [item_len].
  - unfold to_uint16. change (2 ^ 16) with 65536.
    Z.div_mod_to_equations. lia.
  - unfold to_uint16. change (2 ^ 16) with 65536.
    pose proof (Z.mod_pos_bound (len * 2) 65536). lia.
  - unfold to_uint16. change (2 ^ 16) with 65536.
    pose proof (Z.mod_pos_bound (len * 2) 65536). lia.
Qed.

Lemma nbu_open_keeps (P : nbu_ctx -> Prop) (data : list byte) (c : nbu_ctx) :
  (forall (f : nbu_ctx -> nbu_ctx),
      (forall c1, memos (f c1) = memos c1) -> forall c1, P c1 -> P (f c1)) ->
  (forall c1, P c1 -> P (set_memos (Some []) c1)) ->
  (forall pos len c1,
      P c1 ->
      P (set_memos (insert_tail {| item_pos := pos;
                                   item_len := to_uint16 (len * 2) |}
                      (memos c1)) c1)) ->
  P (nbu_ctx_init data) -> nbu_open data = Ok tt c -> P c.
Proof.
  intros Hsame Hnew Hadd H0 H.
  assert (hoare P
            (nbu_seek 20 SEEK_SET ;;;
             pos <- nbu_read_uint64 ;;
             nbu_seek (to_long (pos + 20)) SEEK_SET ;;;
             t <- nbu_read_file_time ;;
             modify (set_backup_time t) ;;;
             s <- nbu_read_utf16 ;; modify (set_phone_imei (Some s)) ;;;
             s <- nbu_read_utf16 ;; modify (set_phone_model (Some s)) ;;;
             s <- nbu_read_utf16 ;; modify (set_phone_name (Some s)) ;;;
             s <- nbu_read_utf16 ;; modify (set_phone_firmware (Some s)) ;;;
             s <- nbu_read_utf16 ;; modify (set_phone_language (Some s)) ;;;
             nbu_seek 20 SEEK_CUR ;;;
             nbu_read_sections) (fun _ => P)) as Hh.
  { assert (forall p c1, P c1 -> P (set_pos p c1)) as Hpos
        by (intros p; apply Hsame; reflexivity).
    unfold nbu_read_file_time.
    assert (hoare P nbu_read_sections (fun _ => P)) as Hsections.
    { apply keeps_nbu_read_sections;
        [ exact Hpos
        | intros v; apply (Hsame (set_bookmarks v)); reflexivity
        | intros v; apply (Hsame (set_messages v)); reflexivity
        | intros v; apply (Hsame (set_mmses v)); reflexivity
        | intros v; apply (Hsame (set_calendar v)); reflexivity
        | intros v; apply (Hsame (set_contacts v)); reflexivity
        | exact Hnew
        | exact Hadd ]. }
    repeat first
      [ exact Hsections
      | apply keeps_ret
      | apply keeps_read_uint; exact Hpos
      | apply keeps_nbu_seek; exact Hpos
      | apply keeps_nbu_read_utf16; exact Hpos
      | apply keeps_modify; apply Hsame; reflexivity
      | apply keeps_bind; [|intros] ]. }
  exact (Hh (nbu_ctx_init data) tt c H0 H).
Qed.

(** The diagnostics of the UTF-16 export of an item of even length. *)
Lemma even_item_diagnostics (item : nbu_item) (fd : string) (w : world) :
  item_len item mod 2 = 0 ->
  exists es,
    w_stderr (snd (nbu_export_utf16_item_to_fd item fd w)) = w_stderr w ++ es
    /\ ~ In Invalid_item_size es.
Proof.
  intros Heven. unfold nbu_export_utf16_item_to_fd.
  rewrite Heven. cbn [Z.eqb negb]. unfold run.
  destruct (nbu_seek (item_pos item) SEEK_SET (w_ctx w)) as [u c1|e c1] eqn:E1.
  2:{ apply nbu_seek_err in E1 as [-> _]. exists [Fseek_failed].
      split; [reflexivity|]. cbn. intuition discriminate. }
  cbn [w_ctx set_ctx].
  destruct (nbu_read_utf16_n (item_len item / 2) c1) as [utf16 c2|e c2] eqn:E2.
  2:{ exists [e]. split; [reflexivity|].
      unfold nbu_read_utf16_n in E2. destruct (_ =? SIZE_MAX).
      - inversion E2; subst. cbn. intuition discriminate.
      - apply bind_Err in E2 as [E2|(a & c3 & _ & E2)]; [|discriminate].
        apply read_units_err in E2. subst. cbn. intuition discriminate. }
  destruct (nbu_convert_utf16_to_utf8 utf16) as [utf8|].
  2:{ exists [String_too_long]. split; [reflexivity|].
      cbn. intuition discriminate. }
  unfold nbu_write. cbn [w_fs set_ctx].
  destruct (w_fs w !! fd) as [[|content]|]; cbn [Z.eqb snd w_stderr warn set_fs set_ctx].
  - exists [Write_failed]. split; [reflexivity|]. cbn. intuition discriminate.
  - exists []. split; [now rewrite app_nil_r|]. cbn. tauto.
  - exists [Write_failed]. split; [reflexivity|]. cbn. intuition discriminate.
Qed.

(** X20: every memo of a parsed backup has an even length below 65536:
    the reader doubles the 16-bit count of units in 16 bits.  So the size
    check of the UTF-16 export, which refuses odd lengths, never refuses
    a memo of a parsed backup: its diagnostic is not among those that the
    export of such a memo writes. *)
Theorem parsed_memos_are_even (data : list byte) (c : nbu_ctx) :
  nbu_open data = Ok tt c ->
  Forall memo_length (default [] (memos c))
  /\ (forall item fd w,
        In item (default [] (memos c)) ->
        exists es,
          w_stderr (snd (nbu_export_utf16_item_to_fd item fd w))
          = w_stderr w ++ es
          /\ ~ In Invalid_item_size es).
Proof.
  intros H.
  assert (Forall memo_length (default [] (memos c))) as Hall.
  { apply (nbu_open_keeps
             (fun c0 => Forall memo_length (default [] (memos c0))) data c);
      [| | | |exact H].
    - intros f Hf c1 H1. now rewrite Hf.
    - intros c1 _. constructor.
    - intros pos len c1 H1. cbn [memos set_memos]. now apply memo_length_add.
    - constructor. }
  split; [exact Hall|].
  intros item fd w Hin. apply even_item_diagnostics.
  rewrite Stdlib.Lists.List.Forall_forall in Hall.
  now apply (Hall item Hin).
Qed.

Lemma parsed_memos_are_even_witness :
  let c := result_ctx (nbu_open sample_two_memos) in
  memos c = Some [{| item_pos := 112; item_len := 2 |};
                  {| item_pos := 120; item_len := 4 |}]
  /\ Forall memo_length (default [] (memos c))
  /\ exists es,
       w_stderr (snd (nbu_export_utf16_item_to_fd
                        {| item_pos := 120; item_len := 4 |} "out/memo"
                        {| w_ctx := c; w_fs := {["out/memo" := File []]};
                           w_stderr := []; w_malloc := enough_memory |}))
       = [] ++ es
       /\ ~ In Invalid_item_size es.
Proof.
  intros c. split; [vm_compute; reflexivity|].
  pose proof (parsed_memos_are_even sample_two_memos c
                ltac:(vm_compute; reflexivity)) as [Hall Hexp].
  split; [exact Hall|].
  apply (Hexp {| item_pos := 120; item_len := 4 |} "out/memo"
           {| w_ctx := c; w_fs := {["out/memo" := File []]};
              w_stderr := []; w_malloc := enough_memory |}).
  vm_compute. right. left. reflexivity.
Defined.

(** *** The header *)

Lemma nbu_read_utf16_value (c : nbu_ctx) (s : list Z) (c' : nbu_ctx) :
  0 <= f_pos (fp c) -> nbu_read_utf16 c = Ok s c' ->
  s = string_at c (f_pos (fp c))
  /\ c' = set_pos (string_end c (f_pos (fp c))) c.
Proof.
  intros Hp H. pose proof H as H'. unfold nbu_read_utf16 in H'.
  mfirst H' len c1 E. apply read_uint_inv in E as (_ & Hsz & -> & ->).
  pose proof (peek16_range c (f_pos (fp c))) as Hr.
  pose proof SIZE_MAX_val as HS.
  destruct (Z_le_gt_dec (f_pos (fp c) + 2 + 2 * peek c (f_pos (fp c)) 2)
              (file_size c)) as [Hin|Hout].
  - pose proof (nbu_read_utf16_enough c Hp Hin) as E. cbn zeta in E.
    rewrite E in H. inversion H; subst. split; reflexivity.
  - exfalso.
    destruct (nbu_read_utf16_n_short (peek c (f_pos (fp c)) 2)
                (set_pos (f_pos (fp c) + 2) c)) as [c2 E];
      [lia|cbn; lia|rewrite file_size_set_pos; cbn; lia|].
    rewrite E in H'. discriminate.
Qed.

Lemma nbu_read_file_time_inv (c : nbu_ctx) (t : Z) (c' : nbu_ctx) :
  nbu_read_file_time c = Ok t c' ->
  t = peek c (f_pos (fp c)) 4 * 2 ^ 32 + peek c (f_pos (fp c) + 4) 4
  /\ c' = set_pos (f_pos (fp c) + 8) c.
Proof.
  intros H. unfold nbu_read_file_time in H.
  mfirst H hi c1 E1. apply read_uint_inv in E1 as (_ & _ & -> & ->).
  mfirst H lo c2 E2. apply read_uint_inv in E2 as (_ & _ & -> & ->).
  inversion H; subst. rewrite peek_set_pos. cbn [fp f_pos set_pos set_fp].
  rewrite file_time_value by apply peek32_range.
  rewrite set_pos_set_pos. change (2 ^ 32) with 4294967296.
  split; [reflexivity|]. f_equal. lia.
Qed.

Lemma read_string_step
    (set_string : option (list Z) -> nbu_ctx -> nbu_ctx) (k : M unit)
    (c : nbu_ctx) (u : unit) (c' : nbu_ctx) :
  0 <= f_pos (fp c) ->
  (s <- nbu_read_utf16 ;; modify (set_string (Some s)) ;;; k) c = Ok u c' ->
  k (set_string (Some (string_at c (f_pos (fp c))))
       (set_pos (string_end c (f_pos (fp c))) c)) = Ok u c'.
Proof.
  intros Hp H. mfirst H s c1 E.
  apply nbu_read_utf16_value in E as [-> ->]; [|exact Hp].
  mfirst H u1 c2 E. inversion E; subst. exact H.
Qed.

Lemma string_end_pos (c : nbu_ctx) (p : Z) : 0 <= p -> 0 <= string_end c p.
Proof.
  intros Hp. unfold string_end. pose proof (peek16_range c p). lia.
Qed.

(** X21: the header of a parsed backup.  The 64-bit word at offset 20
    gives the position of the header less 20; at that position stand the
    backup time, high word first, and behind it the five strings of the
    phone, each with its 16-bit length: IMEI, model, name, firmware and
    language.  The sections that are read afterwards do not change them. *)
Theorem nbu_open_header (data : list byte) (c : nbu_ctx) :
  nbu_open data = Ok tt c ->
  let c0 := nbu_ctx_init data in
  let q := to_long (peek c0 20 8 + 20) in
  let p1 := q + 8 in
  let p2 := string_end c0 p1 in
  let p3 := string_end c0 p2 in
  let p4 := string_end c0 p3 in
  let p5 := string_end c0 p4 in
  backup_time c = peek c0 q 4 * 2 ^ 32 + peek c0 (q + 4) 4
  /\ phone_imei c = Some (string_at c0 p1)
  /\ phone_model c = Some (string_at c0 p2)
  /\ phone_name c = Some (string_at c0 p3)
  /\ phone_firmware c = Some (string_at c0 p4)
  /\ phone_language c = Some (string_at c0 p5).
Proof.
  intros H. cbn zeta. unfold nbu_open in H.
  set (c0 := nbu_ctx_init data) in *.
  mfirst H u1 c1 E. apply nbu_seek_inv in E as [_ ->].
  mfirst H pos c2 E. apply read_uint_inv in E as (_ & _ & -> & ->).
  mfirst H u3 c3 E. apply nbu_seek_inv in E as [Hq ->].
  mfirst H t c4 E. apply nbu_read_file_time_inv in E as [-> ->].
  mfirst H u5 c5 E. inversion E; subst. clear E.
  cbn [fp f_pos set_pos set_fp] in *.
  rewrite !peek_set_pos in *.
  set (q := to_long (peek c0 20 8 + 20)) in *.
  apply read_string_step in H; [|cbn; lia].
  apply read_string_step in H;
    [|cbn; rewrite ?peek_set_pos; apply string_end_pos; cbn; lia].
  apply read_string_step in H;
    [|cbn; apply string_end_pos, string_end_pos; cbn; lia].
  apply read_string_step in H;
    [|cbn; apply string_end_pos, string_end_pos, string_end_pos; cbn; lia].
  apply read_string_step in H;
    [|cbn; apply string_end_pos, string_end_pos, string_end_pos,
        string_end_pos; cbn; lia].
  mfirst H u6 c6 E. apply nbu_seek_inv in E as [_ ->].
  revert H.
  apply (keeps_nbu_read_sections
           (fun c1 =>
              backup_time c1 = peek c0 q 4 * 2 ^ 32 + peek c0 (q + 4) 4
              /\ phone_imei c1 = Some (string_at c0 (q + 8))
              /\ phone_model c1 = Some (string_at c0 (string_end c0 (q + 8)))
              /\ phone_name c1
                 = Some (string_at c0 (string_end c0 (string_end c0 (q + 8))))
              /\ phone_firmware c1
                 = Some (string_at c0
                           (string_end c0
                              (string_end c0 (string_end c0 (q + 8)))))
              /\ phone_language c1
                 = Some (string_at c0
                           (string_end c0
                              (string_end c0
                                 (string_end c0 (string_end c0 (q + 8))))))));
    try (intros; assumption).
  repeat split; reflexivity.
Qed.

Lemma nbu_open_header_witness :
  phone_imei (result_ctx (nbu_open sample_memos))
  = Some (string_at (nbu_ctx_init sample_memos)
            (to_long (peek (nbu_ctx_init sample_memos) 20 8 + 20) + 8)).
Proof.
  apply (proj1 (proj2 (nbu_open_header sample_memos
                         (result_ctx (nbu_open sample_memos))
                         ltac:(vm_compute; reflexivity)))).
Defined.

End FrameFacts.

(** ** Message folders and memo sections *)

Module FolderFacts.
Import Utf Nbu UtfFacts UtfMore ConversionFacts ReaderFacts HandlerFacts
       ExportFacts InvariantFacts DispatcherFacts ParserFacts ItemExportFacts
       ExportConfinement.

Lemma export_text_items (items : list nbu_item) (fd : string) :
  forall (w : world) (content : list byte),
    file_size (w_ctx w) <= LONG_MAX ->
    Forall (text_item_within (w_ctx w)) items ->
    w_fs w !! fd = Some (File content) ->
    exists q,
      export_items nbu_export_utf16_item_to_fd items fd w
      = (0, set_fs (<[fd := File (content
                                  ++ concat (map (item_text (w_ctx w)) items))]>
                      (w_fs w))
              (set_ctx (set_pos q (w_ctx w)) w)).
Proof.
  induction items as [|item items IH]; intros w content Hsz Hin Hfd.
  - exists (f_pos (fp (w_ctx w))). cbn [export_items map concat].
    rewrite app_nil_r, insert_id by exact Hfd.
    now rewrite set_pos_same, world_eta.
  - inversion Hin as [|? ? Hitem Hrest]; subst.
    cbn [export_items].
    rewrite (export_text_item item fd w content) by assumption.
    cbn [Z.eqb].
    edestruct (IH (set_fs (<[fd := File (content ++ item_text (w_ctx w) item)]>
                             (w_fs w))
                    (set_ctx (set_pos (item_end item) (w_ctx w)) w)))
      as [q ->].
    + exact Hsz.
    + exact Hrest.
    + cbn [w_fs set_fs]. apply lookup_insert_eq.
    + exists q. cbn [w_fs w_ctx set_fs set_ctx].
      rewrite insert_insert_eq, set_pos_set_pos.
      cbn [map concat]. rewrite <- app_assoc. reflexivity.
Qed.

Lemma folder_base (name : list Z) :
  file_string name ->
  exists utf8,
    nbu_convert_utf16_to_utf8 name = Some utf8
    /\ take (Z.to_nat (strlen utf8)) utf8
       = utf8_bytes (utf16_codepoints name).
Proof.
  intros [Hu Hlen].
  exists (utf8_bytes (utf16_codepoints name) ++ [0]). split.
  - apply nbu_convert_utf16_to_utf8_Some; [assumption|].
    rewrite SIZE_MAX_val. lia.
  - pose proof (codepoints_scalar _ _ (Nat.le_refl _) Hu) as Hsc.
    now destruct (strlen_terminated _ (utf8_bytes_nonzero _ Hsc)) as [_ ->].
Qed.

Lemma export_folder_writes (folder : nbu_folder) (dfd path : string)
    (w : world) :
  let base := string_of_bytes
                (utf8_bytes (utf16_codepoints (folder_name folder))) in
  let file := path_at dfd (path +:+ "/" +:+ base +:+ ".vmg") in
  file_string (folder_name folder) ->
  invalid_folder_name base = false ->
  name_too_long (path +:+ "/" +:+ base +:+ ".vmg") = false ->
  file_size (w_ctx w) <= LONG_MAX ->
  Forall (text_item_within (w_ctx w)) (folder_items folder) ->
  w_fs w !! file = None ->
  is_dir (w_fs w) (path_at dfd path) = true ->
  exists q,
    nbu_export_message_folder folder dfd path w
    = (0, set_fs (<[file := File (concat (map (item_text (w_ctx w))
                                            (folder_items folder)))]>
                    (w_fs w))
            (set_ctx (set_pos q (w_ctx w)) w)).
Proof.
  cbn zeta. intros Hname Hv Hfits Hsz Hin Hnew Hdir.
  destruct (folder_base _ Hname) as (utf8 & Hconv & Hbase).
  unfold nbu_export_message_folder. rewrite Hconv, Hbase, Hv.
  rewrite openat_new;
    [|exact Hfits|exact Hnew|now rewrite folder_file_dirname].
  set (file := path_at dfd _) in *.
  edestruct (export_text_items (folder_items folder) file
               (set_fs (<[file := File []]> (w_fs w)) w) [])
    as [q ->].
  - exact Hsz.
  - exact Hin.
  - apply lookup_insert_eq.
  - exists q. cbn [w_fs set_fs set_ctx w_ctx app].
    now rewrite insert_insert_eq.
Qed.

(** X22: the export of a message folder whose name is a string of the
    backup.  The file is named after the UTF-8 form of the name, with the
    suffix [.vmg], in the directory of the messages.  A name that is
    empty, holds a slash or is [.] or [..] is refused with its diagnostic
    and nothing is made.  Any other name whose file name is too long for
    the file system, more than [NAME_MAX] bytes with the suffix, makes the
    opening fail with its diagnostic, and nothing is made either.  For a
    name that fits, the file not existing yet and the directory existing,
    the file gets the UTF-8 texts of the items one behind the other, when
    these hold whole units and lie in the backup. *)
Theorem message_folder_export (folder : nbu_folder) (dfd path : string)
    (w : world) :
  let base := string_of_bytes
                (utf8_bytes (utf16_codepoints (folder_name folder))) in
  let name := path +:+ "/" +:+ base +:+ ".vmg" in
  let file := path_at dfd name in
  file_string (folder_name folder) ->
  (invalid_folder_name base = true ->
   nbu_export_message_folder folder dfd path w
   = (-1, warn Invalid_folder_name w))
  /\ (invalid_folder_name base = false -> name_too_long name = true ->
      nbu_export_message_folder folder dfd path w
      = (-1, warn Openat_failed w))
  /\ (invalid_folder_name base = false -> name_too_long name = false ->
      file_size (w_ctx w) <= LONG_MAX ->
      Forall (text_item_within (w_ctx w)) (folder_items folder) ->
      w_fs w !! file = None ->
      is_dir (w_fs w) (path_at dfd path) = true ->
      fst (nbu_export_message_folder folder dfd path w) = 0
      /\ w_fs (snd (nbu_export_message_folder folder dfd path w))
         = <[file := File (concat (map (item_text (w_ctx w))
                                     (folder_items folder)))]> (w_fs w)
      /\ w_stderr (snd (nbu_export_message_folder folder dfd path w))
         = w_stderr w).
Proof.
  cbn zeta. intros Hname. split; [|split].
  - destruct (folder_base _ Hname) as (utf8 & Hconv & Hbase).
    unfold nbu_export_message_folder. rewrite Hconv, Hbase.
    intros ->. reflexivity.
  - destruct (folder_base _ Hname) as (utf8 & Hconv & Hbase).
    unfold nbu_export_message_folder. rewrite Hconv, Hbase.
    intros -> Hlong. unfold openat. cbn zeta. now rewrite Hlong.
  - intros Hv Hfits Hsz Hin Hnew Hdir.
    destruct (export_folder_writes folder dfd path w Hname Hv Hfits Hsz Hin
                Hnew Hdir) as [q ->].
    repeat split.
Qed.

Lemma message_folder_export_witness :
  let folder := {| folder_name := [0x49; 0x6e; 0];
                   folder_items := [{| item_pos := 0; item_len := 2 |}] |} in
  let long := {| folder_name := repeat 0x41 252 ++ [0];
                 folder_items := [{| item_pos := 0; item_len := 2 |}] |} in
  let w := {| w_ctx := nbu_ctx_init (le_bytes 2 0x48);
              w_fs := {["out/messages" := Dir]}; w_stderr := [];
              w_malloc := enough_memory |} in
  (fst (nbu_export_message_folder folder "out" "messages" w) = 0
   /\ w_fs (snd (nbu_export_message_folder folder "out" "messages" w))
      = <["out/messages/In.vmg" := File [Byte.x48]]> (w_fs w)
   /\ w_stderr (snd (nbu_export_message_folder folder "out" "messages" w))
      = w_stderr w)
  /\ nbu_export_message_folder long "out" "messages" w
     = (-1, warn Openat_failed w).
Proof.
  intros folder long w. split.
  - apply (proj2 (proj2 (message_folder_export folder "out" "messages" w
                    ltac:(split; [repeat constructor; unfold is_uint16; lia
                                 |cbn; lia])))).
    + reflexivity.
    + reflexivity.
    + vm_compute. discriminate.
    + repeat constructor; vm_compute; congruence.
    + reflexivity.
    + reflexivity.
  - apply (proj1 (proj2 (message_folder_export long "out" "messages" w
                    ltac:(split; [repeat constructor; unfold is_uint16; lia
                                 |vm_compute; discriminate])))).
    + reflexivity.
    + reflexivity.
Defined.

(** *** The memo section *)

Lemma nbu_read_memo_inv (c c' : nbu_ctx) (l0 : list nbu_item) :
  nbu_read_memo c = Ok tt c' -> memos c = Some l0 ->
  exists it,
    memos c' = Some (l0 ++ [it])
    /\ item_pos it = f_pos (fp c) + 6 /\ memo_length it
    /\ f_pos (fp c') = item_end it.
Proof.
  intros H Hm. unfold nbu_read_memo in H.
  mfirst H u c1 E. apply nbu_seek_inv in E as [_ ->].
  mfirst H len c2 E. apply read_uint_inv in E as (_ & _ & -> & ->).
  destruct (_ >? _) eqn:Hbig; [discriminate|].
  mfirst H pos c3 E. apply nbu_tell_inv in E as [-> ->].
  mfirst H u4 c4 E. inversion E; subst. clear E.
  apply nbu_seek_inv in H as [_ ->].
  eexists. cbn [memos set_memos set_pos]. rewrite Hm. cbn [insert_tail].
  split; [reflexivity|]. cbn [item_pos item_len fp f_pos set_pos set_fp set_memos].
  split; [lia|]. split; [|unfold item_end; cbn; reflexivity].
  unfold memo_length. cbn [item_len]. unfold to_uint16.
  change (2 ^ 16) with 65536.
  match goal with |- context [?x * 2] => generalize x end. intros x.
  pose proof (Z.mod_pos_bound (x * 2) 65536).
  split; [Z.div_mod_to_equations; lia|lia].
Qed.

Lemma memo_loop_inv (n : nat) :
  forall (c c' : nbu_ctx) (l0 : list nbu_item),
    for_loop n (fun _ => nbu_read_memo) tt c = Ok tt c' ->
    0 <= f_pos (fp c) -> memos c = Some l0 ->
    exists new,
      memos c' = Some (l0 ++ new) /\ length new = n
      /\ items_in_order (f_pos (fp c)) new /\ Forall memo_length new
      /\ f_pos (fp c') = last_end (f_pos (fp c)) new.
Proof.
  induction n as [|n IH]; intros c c' l0 H Hp Hm.
  - inversion H; subst. exists []. rewrite app_nil_r.
    repeat split; [assumption|constructor].
  - cbn [for_loop] in H. mfirst H u c1 E. destruct u.
    apply (nbu_read_memo_inv c c1 l0) in E as (it & Hm1 & Hpos & Hlen & Hend);
      [|exact Hm].
    pose proof Hlen as [_ Hrange].
    apply (IH c1 c' (l0 ++ [it])) in H as (new & Hm' & Hn & Hord & Hall & Hlast);
      [|unfold item_end in Hend; lia|exact Hm1].
    exists (it :: new). rewrite <- app_assoc in Hm'. cbn [app length] in *.
    rewrite Hend in *.
    split; [exact Hm'|]. split; [now rewrite Hn|].
    split; [|split; [now constructor|exact Hlast]].
    cbn [items_in_order]. change (2 ^ 32) with 4294967296.
    repeat split; try lia; assumption.
Qed.

(** X23: a memo section that is read with success leaves as many
    memos as its count word says.  They are read from offset 48 of the
    section on, each behind four skipped bytes and its 16-bit count of
    units, so they lie in file order without overlap, and each has an
    even length below 65536.  The stream is left eight bytes behind the
    place of the count word. *)
Theorem memo_section_layout (section_pos : Z) (c c' : nbu_ctx) :
  0 <= f_pos (fp c) ->
  nbu_read_memos_section section_pos c = Ok tt c' ->
  exists l,
    memos c' = Some l
    /\ Z.of_nat (length l) = peek c (f_pos (fp c)) 4
    /\ items_in_order (to_long (section_pos + 48)) l
    /\ Forall memo_length l
    /\ f_pos (fp c') = f_pos (fp c) + 8.
Proof.
  intros Hp H. unfold nbu_read_memos_section in H.
  mfirst H u c1 E. inversion E; subst. clear E.
  mfirst H nmemos c2 E. apply read_uint_inv in E as (_ & _ & -> & ->).
  mfirst H pos c3 E. apply nbu_tell_inv in E as [-> ->].
  mfirst H u4 c4 E. apply nbu_seek_inv in E as [Hq ->].
  mfirst H u5 c5 E. destruct u5.
  apply (memo_loop_inv _ _ c5 []) in E as (l & Hm & Hn & Hord & Hall & _);
    [|cbn; lia|reflexivity].
  apply nbu_seek_inv in H as [_ ->].
  exists l. cbn [memos set_pos fp f_pos set_fp set_memos] in *.
  pose proof (peek32_range c (f_pos (fp c))).
  split; [exact Hm|]. split; [|split; [exact Hord|split; [exact Hall|lia]]].
  rewrite Hn, (peek_same_data c (set_memos (Some []) c)) by reflexivity. lia.
Qed.

Lemma memo_section_layout_witness :
  let c := nbu_ctx_init (le_bytes 4 1 ++ zeros 48 ++ le_bytes 2 1
                         ++ le_bytes 2 0x48) in
  exists l,
    memos (set_memos (Some [{| item_pos := 54; item_len := 2 |}]) (set_pos 8 c))
    = Some l
    /\ Z.of_nat (length l) = peek c (f_pos (fp c)) 4
    /\ items_in_order (to_long (0 + 48)) l
    /\ Forall memo_length l
    /\ f_pos (fp (set_memos (Some [{| item_pos := 54; item_len := 2 |}])
                    (set_pos 8 c)))
       = f_pos (fp c) + 8.
Proof.
  intros c.
  apply (memo_section_layout 0 c
           (set_memos (Some [{| item_pos := 54; item_len := 2 |}])
              (set_pos 8 c))).
  - cbn. lia.
  - vm_compute. reflexivity.
Defined.

End FolderFacts.

(** ** What the export writes *)

Module ExportWrites.
Import Utf Nbu UtfFacts UtfMore ConversionFacts ReaderFacts HandlerFacts
       ExportFacts InvariantFacts DispatcherFacts ParserFacts ItemExportFacts
       ExportSafety ExportConfinement FrameFacts FolderFacts.

(** *** Paths of the destination *)







(** *** The files of the message folders *)






(** *** The four categories *)






(** *** The whole export *)









End ExportWrites.
